(** * export-to-postgresql.py: the perf trace exporter

    A shallow embedding of [tools/perf/scripts/python/export-to-postgresql.py]
    and the properties of its staging files, its command line, its load phase
    and its schema finalization.

    Python byte strings are [string]s (an [ascii] is one byte), file contents
    are lists of bytes, Python integers are [Z].  The module's global variables
    are the fields of [state]; everything the script does to the outside
    (standard output, the file system, Qt's SQL layer, libpq) is appended to
    the [trace] of the state, and everything the outside answers is read from
    a [world].  An exception ends the run: perf aborts when a handler raises.

    Not modelled: the imports and the loading of libpq (lines 200-218), the
    text of the views, the time stamps printed with each message, and the
    result of [db.open()], which the script ignores. *)

From Stdlib Require Import ZArith NArith String Ascii List Bool Lia.
Import ListNotations.
Open Scope string_scope.
Open Scope list_scope.
Open Scope Z_scope.

(** ** Python values, exceptions, results *)

Definition bytes := list ascii.

Inductive value :=
| VInt (z : Z)
| VStr (s : string)
| VObj.                      (* any other object: a dict, a context handle *)

Inductive exn :=
| TypeError                  (* wrong number of arguments, len() of a number *)
| NameError                  (* a global that was never assigned *)
| ValueError                 (* I/O operation on closed file *)
| StructError                (* struct.error *)
| OSError
| Exception_ (msg : string).

Inductive result (A : Type) :=
| Ok (a : A)
| Raise (e : exn).
Arguments Ok {A} a.
Arguments Raise {A} e.

Definition rbind {A B} (r : result A) (k : A -> result B) : result B :=
  match r with
  | Ok a => k a
  | Raise e => Raise e
  end.

Notation "'let?' x := r 'in' k" := (rbind r (fun x => k))
  (at level 10, x name, r at level 100, k at level 200).

(** ** struct.pack with the "!" (network, standard size) prefix *)

Inductive fcode :=
| Fh                         (* 'h': signed 16 bit *)
| Fi                         (* 'i': signed 32 bit *)
| Fq                         (* 'q': signed 64 bit *)
| FB                         (* 'B': unsigned 8 bit *)
| Fs (n : nat).              (* '<n>s': n bytes of a string *)

Definition byte_of_Z (z : Z) : ascii := ascii_of_N (Z.to_N (z mod 256)).

(** Big-endian two's complement on [n] bytes. *)
Fixpoint be_bytes (n : nat) (z : Z) : bytes :=
  match n with
  | O => []
  | S k => byte_of_Z (z / 256 ^ Z.of_nat k) :: be_bytes k z
  end.

Definition in_range (lo hi z : Z) : bool := (lo <=? z) && (z <=? hi).

Definition pack_int (n : nat) (lo hi : Z) (v : value) : result bytes :=
  match v with
  | VInt z => if in_range lo hi z then Ok (be_bytes n z) else Raise StructError
  | _ => Raise StructError
  end.

(** '<n>s' truncates a longer string and pads a shorter one with NUL. *)
Definition pad (n : nat) (l : bytes) : bytes :=
  firstn n l ++ repeat zero (n - length l).

Definition pack_one (c : fcode) (v : value) : result bytes :=
  match c with
  | Fh => pack_int 2 (- 2 ^ 15) (2 ^ 15 - 1) v
  | Fi => pack_int 4 (- 2 ^ 31) (2 ^ 31 - 1) v
  | Fq => pack_int 8 (- 2 ^ 63) (2 ^ 63 - 1) v
  | FB => pack_int 1 0 255 v
  | Fs n => match v with
            | VStr s => Ok (pad n (list_ascii_of_string s))
            | _ => Raise StructError
            end
  end.

Fixpoint struct_pack (fmt : list fcode) (args : list value) : result bytes :=
  match fmt, args with
  | [], [] => Ok []
  | c :: fmt', v :: args' =>
      let? b := pack_one c v in
      let? bs := struct_pack fmt' args' in
      Ok (b ++ bs)
  | _, _ => Raise StructError
  end.

Definition len (v : value) : result nat :=
  match v with
  | VStr s => Ok (String.length s)
  | _ => Raise TypeError
  end.

Definition VNat (n : nat) : value := VInt (Z.of_nat n).

(** ** The file header and trailer (lines 493-494) *)

Definition chr (n : nat) : string := String (ascii_of_nat n) EmptyString.

(** ["PGCOPY\n\377\r\n\0"] *)
Definition signature : string :=
  ("PGCOPY" ++ chr 10 ++ chr 255 ++ chr 13 ++ chr 10 ++ chr 0)%string.

Definition file_header : bytes :=
  match struct_pack [Fs 11; Fi; Fi] [VStr signature; VInt 0; VInt 0] with
  | Ok b => b
  | Raise _ => []
  end.

(** ["\377\377"] *)
Definition file_trailer : bytes := list_ascii_of_string (chr 255 ++ chr 255)%string.

(** ** The row encoders (lines 658-720): the value each one packs

    Every encoder takes its named parameters and ignores the rest ([*x]);
    a call with fewer arguments than named parameters is a TypeError. *)

Definition evsel_record (args : list value) : result bytes :=
  match args with
  | evsel_id :: evsel_name :: x =>
      let? n := len evsel_name in
      struct_pack [Fh; Fi; Fq; Fi; Fs n]
                  [VInt 2; VInt 8; evsel_id; VNat n; evsel_name]
  | _ => Raise TypeError
  end.

Definition machine_record (args : list value) : result bytes :=
  match args with
  | machine_id :: pid :: root_dir :: x =>
      let? n := len root_dir in
      struct_pack [Fh; Fi; Fq; Fi; Fi; Fi; Fs n]
                  [VInt 3; VInt 8; machine_id; VInt 4; pid; VNat n; root_dir]
  | _ => Raise TypeError
  end.

Definition thread_record (args : list value) : result bytes :=
  match args with
  | thread_id :: machine_id :: process_id :: pid :: tid :: x =>
      struct_pack [Fh; Fi; Fq; Fi; Fq; Fi; Fq; Fi; Fi; Fi; Fi]
                  [VInt 5; VInt 8; thread_id; VInt 8; machine_id;
                   VInt 8; process_id; VInt 4; pid; VInt 4; tid]
  | _ => Raise TypeError
  end.

Definition comm_record (args : list value) : result bytes :=
  match args with
  | comm_id :: comm_str :: x =>
      let? n := len comm_str in
      struct_pack [Fh; Fi; Fq; Fi; Fs n]
                  [VInt 2; VInt 8; comm_id; VNat n; comm_str]
  | _ => Raise TypeError
  end.

Definition comm_thread_record (args : list value) : result bytes :=
  match args with
  | comm_thread_id :: comm_id :: thread_id :: x =>
      struct_pack [Fh; Fi; Fq; Fi; Fq; Fi; Fq]
                  [VInt 3; VInt 8; comm_thread_id; VInt 8; comm_id;
                   VInt 8; thread_id]
  | _ => Raise TypeError
  end.

Definition dso_record (args : list value) : result bytes :=
  match args with
  | dso_id :: machine_id :: short_name :: long_name :: build_id :: x =>
      let? n1 := len short_name in
      let? n2 := len long_name in
      let? n3 := len build_id in
      struct_pack [Fh; Fi; Fq; Fi; Fq; Fi; Fs n1; Fi; Fs n2; Fi; Fs n3]
                  [VInt 5; VInt 8; dso_id; VInt 8; machine_id;
                   VNat n1; short_name; VNat n2; long_name; VNat n3; build_id]
  | _ => Raise TypeError
  end.

Definition symbol_record (args : list value) : result bytes :=
  match args with
  | symbol_id :: dso_id :: sym_start :: sym_end :: binding :: symbol_name :: x =>
      let? n := len symbol_name in
      struct_pack [Fh; Fi; Fq; Fi; Fq; Fi; Fq; Fi; Fq; Fi; Fi; Fi; Fs n]
                  [VInt 6; VInt 8; symbol_id; VInt 8; dso_id; VInt 8; sym_start;
                   VInt 8; sym_end; VInt 4; binding; VNat n; symbol_name]
  | _ => Raise TypeError
  end.

Definition branch_type_record (args : list value) : result bytes :=
  match args with
  | branch_type :: name :: x =>
      let? n := len name in
      struct_pack [Fh; Fi; Fi; Fi; Fs n]
                  [VInt 2; VInt 4; branch_type; VNat n; name]
  | _ => Raise TypeError
  end.

Definition sample_record (branches : bool) (args : list value) : result bytes :=
  match args with
  | sample_id :: evsel_id :: machine_id :: thread_id :: comm_id :: dso_id
    :: symbol_id :: sym_offset :: ip :: time :: cpu :: to_dso_id
    :: to_symbol_id :: to_sym_offset :: to_ip :: period :: weight
    :: transaction :: data_src :: branch_type :: in_tx :: call_path_id :: x =>
      if branches then
        struct_pack
          [Fh; Fi; Fq; Fi; Fq; Fi; Fq; Fi; Fq; Fi; Fq; Fi; Fq; Fi; Fq; Fi; Fq;
           Fi; Fq; Fi; Fq; Fi; Fi; Fi; Fq; Fi; Fq; Fi; Fq; Fi; Fq; Fi; Fi;
           Fi; FB; Fi; Fq]
          [VInt 18; VInt 8; sample_id; VInt 8; evsel_id; VInt 8; machine_id;
           VInt 8; thread_id; VInt 8; comm_id; VInt 8; dso_id;
           VInt 8; symbol_id; VInt 8; sym_offset; VInt 8; ip; VInt 8; time;
           VInt 4; cpu; VInt 8; to_dso_id; VInt 8; to_symbol_id;
           VInt 8; to_sym_offset; VInt 8; to_ip; VInt 4; branch_type;
           VInt 1; in_tx; VInt 8; call_path_id]
      else
        struct_pack
          [Fh; Fi; Fq; Fi; Fq; Fi; Fq; Fi; Fq; Fi; Fq; Fi; Fq; Fi; Fq; Fi; Fq;
           Fi; Fq; Fi; Fq; Fi; Fi; Fi; Fq; Fi; Fq; Fi; Fq; Fi; Fq; Fi; Fq;
           Fi; Fq; Fi; Fq; Fi; Fq; Fi; Fi; Fi; FB; Fi; Fq]
          [VInt 22; VInt 8; sample_id; VInt 8; evsel_id; VInt 8; machine_id;
           VInt 8; thread_id; VInt 8; comm_id; VInt 8; dso_id;
           VInt 8; symbol_id; VInt 8; sym_offset; VInt 8; ip; VInt 8; time;
           VInt 4; cpu; VInt 8; to_dso_id; VInt 8; to_symbol_id;
           VInt 8; to_sym_offset; VInt 8; to_ip; VInt 8; period;
           VInt 8; weight; VInt 8; transaction; VInt 8; data_src;
           VInt 4; branch_type; VInt 1; in_tx; VInt 8; call_path_id]
  | _ => Raise TypeError
  end.

Definition call_path_record (args : list value) : result bytes :=
  match args with
  | cp_id :: parent_id :: symbol_id :: ip :: x =>
      struct_pack [Fh; Fi; Fq; Fi; Fq; Fi; Fq; Fi; Fq]
                  [VInt 4; VInt 8; cp_id; VInt 8; parent_id; VInt 8; symbol_id;
                   VInt 8; ip]
  | _ => Raise TypeError
  end.

Definition call_return_record (args : list value) : result bytes :=
  match args with
  | cr_id :: thread_id :: comm_id :: call_path_id :: call_time :: return_time
    :: branch_count :: call_id :: return_id :: parent_call_path_id :: flags
    :: x =>
      struct_pack
        [Fh; Fi; Fq; Fi; Fq; Fi; Fq; Fi; Fq; Fi; Fq; Fi; Fq; Fi; Fq; Fi; Fq;
         Fi; Fq; Fi; Fq; Fi; Fi]
        [VInt 11; VInt 8; cr_id; VInt 8; thread_id; VInt 8; comm_id;
         VInt 8; call_path_id; VInt 8; call_time; VInt 8; return_time;
         VInt 8; branch_count; VInt 8; call_id; VInt 8; return_id;
         VInt 8; parent_call_path_id; VInt 4; flags]
  | _ => Raise TypeError
  end.

(** ** SQL statements handed to QSqlQuery.exec_ and to PQexec *)

Inductive sqltype := bigint | integer | boolean | varchar (n : nat).

Record column := Column { col_name : string; col_type : sqltype; not_null : bool }.

Definition col (n : string) (t : sqltype) : column := Column n t false.
Definition col_nn (n : string) (t : sqltype) : column := Column n t true.

(** [ADD CONSTRAINT fk_name FOREIGN KEY (fk_col) REFERENCES fk_ref (id)] *)
Record foreign_key := FK { fk_name : string; fk_col : string; fk_ref : string }.

Inductive stmt :=
| CREATE_DATABASE (db : string)
| SET_client_min_messages_TO_WARNING
| CREATE_TABLE (t : string) (cols : list column)
| CREATE_VIEW (v : string)                 (* the SELECT text is not modelled *)
| ADD_PRIMARY_KEY (t : string)             (* ALTER TABLE t ADD PRIMARY KEY (id) *)
| ADD_CONSTRAINTS (t : string) (fks : list foreign_key)
| CREATE_INDEX (idx t c : string)
| COPY_FROM_STDIN (t : string).            (* COPY t FROM STDIN (FORMAT 'binary') *)

Definition selected_events_cols : list column :=
  [col_nn "id" bigint; col "name" (varchar 80)].
Definition machines_cols : list column :=
  [col_nn "id" bigint; col "pid" integer; col "root_dir" (varchar 4096)].
Definition threads_cols : list column :=
  [col_nn "id" bigint; col "machine_id" bigint; col "process_id" bigint;
   col "pid" integer; col "tid" integer].
Definition comms_cols : list column :=
  [col_nn "id" bigint; col "comm" (varchar 16)].
Definition comm_threads_cols : list column :=
  [col_nn "id" bigint; col "comm_id" bigint; col "thread_id" bigint].
Definition dsos_cols : list column :=
  [col_nn "id" bigint; col "machine_id" bigint; col "short_name" (varchar 256);
   col "long_name" (varchar 4096); col "build_id" (varchar 64)].
Definition symbols_cols : list column :=
  [col_nn "id" bigint; col "dso_id" bigint; col "sym_start" bigint;
   col "sym_end" bigint; col "binding" integer; col "name" (varchar 2048)].
Definition branch_types_cols : list column :=
  [col_nn "id" integer; col "name" (varchar 80)].
Definition samples_cols (branches : bool) : list column :=
  if branches then
    [col_nn "id" bigint; col "evsel_id" bigint; col "machine_id" bigint;
     col "thread_id" bigint; col "comm_id" bigint; col "dso_id" bigint;
     col "symbol_id" bigint; col "sym_offset" bigint; col "ip" bigint;
     col "time" bigint; col "cpu" integer; col "to_dso_id" bigint;
     col "to_symbol_id" bigint; col "to_sym_offset" bigint; col "to_ip" bigint;
     col "branch_type" integer; col "in_tx" boolean]
  else
    [col_nn "id" bigint; col "evsel_id" bigint; col "machine_id" bigint;
     col "thread_id" bigint; col "comm_id" bigint; col "dso_id" bigint;
     col "symbol_id" bigint; col "sym_offset" bigint; col "ip" bigint;
     col "time" bigint; col "cpu" integer; col "to_dso_id" bigint;
     col "to_symbol_id" bigint; col "to_sym_offset" bigint; col "to_ip" bigint;
     col "period" bigint; col "weight" bigint; col "transaction" bigint;
     col "data_src" bigint; col "branch_type" integer; col "in_tx" boolean;
     col "call_path_id" bigint].
Definition call_paths_cols : list column :=
  [col_nn "id" bigint; col "parent_id" bigint; col "symbol_id" bigint;
   col "ip" bigint].
Definition calls_cols : list column :=
  [col_nn "id" bigint; col "thread_id" bigint; col "comm_id" bigint;
   col "call_path_id" bigint; col "call_time" bigint; col "return_time" bigint;
   col "branch_count" bigint; col "call_id" bigint; col "return_id" bigint;
   col "parent_call_path_id" bigint; col "flags" integer].

(** ** What the script does to the outside, and what the outside answers *)

Inductive message :=
| Creating_database
| Writing_to_intermediate_files
| Copying_to_database
| Removing_intermediate_files
| Adding_primary_keys
| Adding_foreign_keys
| Warning_unhandled_events (n : Z)
| Done_.

Inductive effect :=
| Estderr_usage                              (* the four lines of usage() *)
| Eprint (m : message)                       (* print datetime..today(), m *)
| Emkdir (path : string)
| Ermdir (path : string)
| Eopen (path : string)                      (* open(path, "w+") *)
| Eclose (path : string)
| Eunlink (path : string)
| Edb_open (db : string)                     (* setDatabaseName; db.open() *)
| Edb_close
| Eexec (q : stmt)                           (* QSqlQuery.exec_ *)
| EPQconnectdb (conninfo : string)
| EPQexec (q : stmt)
| EPQputCopyData (t : string) (data : bytes)
| EPQputCopyEnd (t : string)
| EPQfinish.

(** The answers of the operating system, of Qt and of libpq.  File-system
    calls other than [os.mkdir] are taken to succeed. *)
Record world := World {
  getcwd : string;
  mkdir_ok : string -> bool;
  exec_ok : stmt -> bool;                    (* the value of q.exec_(s) *)
  PQstatus : string -> Z;                    (* of the connection opened for a table *)
  PQresultStatus : stmt -> Z;
  PQputCopyData : string -> nat -> bytes -> Z; (* table, chunk number, chunk *)
  PQputCopyEnd : string -> Z
}.

(** ** The module's globals *)

(** The Python names of the eleven file objects. *)
Inductive sink :=
| evsel_file | machine_file | thread_file | comm_file | comm_thread_file
| dso_file | symbol_file | branch_type_file | sample_file
| call_path_file | call_file.

Scheme Equality for sink.

(** A file object opened with "w+".  It is only ever appended to, and read
    from the start to the end after [seek(0)]. *)
Record file := File { name : string; data : bytes; closed : bool }.

Record state := State {
  perf_db_export_calls : bool;
  perf_db_export_callchains : bool;
  dbname : string;
  branches : bool;
  output_dir_name : string;
  files : sink -> option file;               (* None: the global is not bound *)
  unhandled_count : Z;
  trace : list effect                        (* oldest first *)
}.

Definition initial : state :=
  State false false "" false "" (fun _ => None) 0 [].

Definition set_calls (b : bool) (s : state) : state :=
  State b (perf_db_export_callchains s) (dbname s) (branches s)
        (output_dir_name s) (files s) (unhandled_count s) (trace s).
Definition set_callchains (b : bool) (s : state) : state :=
  State (perf_db_export_calls s) b (dbname s) (branches s)
        (output_dir_name s) (files s) (unhandled_count s) (trace s).
Definition set_dbname (n : string) (s : state) : state :=
  State (perf_db_export_calls s) (perf_db_export_callchains s) n (branches s)
        (output_dir_name s) (files s) (unhandled_count s) (trace s).
Definition set_branches (b : bool) (s : state) : state :=
  State (perf_db_export_calls s) (perf_db_export_callchains s) (dbname s) b
        (output_dir_name s) (files s) (unhandled_count s) (trace s).
Definition set_output_dir_name (d : string) (s : state) : state :=
  State (perf_db_export_calls s) (perf_db_export_callchains s) (dbname s)
        (branches s) d (files s) (unhandled_count s) (trace s).
Definition set_files (fs : sink -> option file) (s : state) : state :=
  State (perf_db_export_calls s) (perf_db_export_callchains s) (dbname s)
        (branches s) (output_dir_name s) fs (unhandled_count s) (trace s).
Definition set_unhandled_count (n : Z) (s : state) : state :=
  State (perf_db_export_calls s) (perf_db_export_callchains s) (dbname s)
        (branches s) (output_dir_name s) (files s) n (trace s).
Definition set_trace (t : list effect) (s : state) : state :=
  State (perf_db_export_calls s) (perf_db_export_callchains s) (dbname s)
        (branches s) (output_dir_name s) (files s) (unhandled_count s) t.

Definition upd (fs : sink -> option file) (v : sink) (f : file)
  : sink -> option file :=
  fun v' => if sink_beq v v' then Some f else fs v'.

(** ** A state and exception monad *)

Inductive outcome (A : Type) :=
| Done (a : A) (s : state)
| Fail (e : exn) (s : state).
Arguments Done {A} a s.
Arguments Fail {A} e s.

Definition M (A : Type) : Type := state -> outcome A.

Definition ret {A} (a : A) : M A := fun s => Done a s.
Definition raise {A} (e : exn) : M A := fun s => Fail e s.
Definition bind {A B} (m : M A) (k : A -> M B) : M B :=
  fun s => match m s with
           | Done a s1 => k a s1
           | Fail e s1 => Fail e s1
           end.
Definition get : M state := fun s => Done s s.
Definition modify (f : state -> state) : M unit := fun s => Done tt (f s).
Definition lift {A} (r : result A) : M A :=
  match r with
  | Ok a => ret a
  | Raise e => raise e
  end.

(** [try: m  except: h; raise] *)
Definition try_except_reraise {A} (m : M A) (h : M unit) : M A :=
  fun s => match m s with
           | Done a s1 => Done a s1
           | Fail e s1 => match h s1 with
                          | Done _ s2 => Fail e s2
                          | Fail e' s2 => Fail e' s2
                          end
           end.

Notation "x <- m ;; k" := (bind m (fun x => k))
  (at level 61, m at next level, right associativity).
Notation "m ;; k" := (bind m (fun _ => k))
  (at level 61, right associativity).

Definition when (b : bool) (m : M unit) : M unit := if b then m else ret tt.

Definition emit (e : effect) : M unit :=
  modify (fun s => set_trace (trace s ++ [e]) s).

Definition final {A} (o : outcome A) : state :=
  match o with
  | Done _ s => s
  | Fail _ s => s
  end.

Definition succeeded {A} (o : outcome A) : bool :=
  match o with
  | Done _ _ => true
  | Fail _ _ => false
  end.

(** ** The script *)

Section Script.

Variable w : world.

(** Lines 229-234. *)
Definition usage {A} : M A :=
  emit Estderr_usage ;;
  raise (Exception_ "Too few arguments").

(** Lines 247-253, on [sys.argv[3:]]. *)
Fixpoint parse_options (opts : list string) : M unit :=
  match opts with
  | [] => ret tt
  | o :: rest =>
      (if (o =? "calls")%string then
         modify (set_calls true)
       else if (o =? "callchains")%string then
         modify (set_callchains true)
       else
         usage) ;;
      parse_options rest
  end.

(** Lines 236-253. *)
Definition parse_args (argv : list string) : M unit :=
  (if (length argv <? 2)%nat then usage else ret tt) ;;
  modify (set_dbname (nth 1 argv "")) ;;
  let columns := if (3 <=? length argv)%nat then nth 2 argv "" else "all" in
  (if negb ((columns =? "all") || (columns =? "branches"))%string
   then usage else ret tt) ;;
  modify (set_branches (columns =? "branches")%string) ;;
  parse_options (skipn 3 argv).

(** Lines 258-261. *)
Definition do_query (q : stmt) : M unit :=
  emit (Eexec q) ;;
  if exec_ok w q then ret tt else raise (Exception_ "Query failed").

(** Lines 255-276. *)
Definition create_database : M unit :=
  s <- get ;;
  let d := (getcwd w ++ "/" ++ dbname s ++ "-perf-data")%string in
  modify (set_output_dir_name d) ;;
  (if mkdir_ok w d then emit (Emkdir d) else raise OSError) ;;
  emit (Eprint Creating_database) ;;
  emit (Edb_open "postgres") ;;
  try_except_reraise
    (do_query (CREATE_DATABASE (dbname s)))
    (emit (Ermdir d)) ;;
  emit Edb_close.

(** Lines 278-490. *)
Definition create_schema : M unit :=
  s <- get ;;
  emit (Edb_open (dbname s)) ;;
  do_query SET_client_min_messages_TO_WARNING ;;
  do_query (CREATE_TABLE "selected_events" selected_events_cols) ;;
  do_query (CREATE_TABLE "machines" machines_cols) ;;
  do_query (CREATE_TABLE "threads" threads_cols) ;;
  do_query (CREATE_TABLE "comms" comms_cols) ;;
  do_query (CREATE_TABLE "comm_threads" comm_threads_cols) ;;
  do_query (CREATE_TABLE "dsos" dsos_cols) ;;
  do_query (CREATE_TABLE "symbols" symbols_cols) ;;
  do_query (CREATE_TABLE "branch_types" branch_types_cols) ;;
  do_query (CREATE_TABLE "samples" (samples_cols (branches s))) ;;
  when (perf_db_export_calls s || perf_db_export_callchains s)
       (do_query (CREATE_TABLE "call_paths" call_paths_cols)) ;;
  when (perf_db_export_calls s)
       (do_query (CREATE_TABLE "calls" calls_cols)) ;;
  do_query (CREATE_VIEW "machines_view") ;;
  do_query (CREATE_VIEW "dsos_view") ;;
  do_query (CREATE_VIEW "symbols_view") ;;
  do_query (CREATE_VIEW "threads_view") ;;
  do_query (CREATE_VIEW "comm_threads_view") ;;
  when (perf_db_export_calls s || perf_db_export_callchains s)
       (do_query (CREATE_VIEW "call_paths_view")) ;;
  when (perf_db_export_calls s)
       (do_query (CREATE_VIEW "calls_view")) ;;
  do_query (CREATE_VIEW "samples_view").

(** Lines 496-500, with the assignment of the result to the global [v]. *)
Definition open_output_file (v : sink) (file_name : string) : M unit :=
  s <- get ;;
  let path_name := (output_dir_name s ++ "/" ++ file_name)%string in
  emit (Eopen path_name) ;;
  modify (fun s => set_files (upd (files s) v (File path_name file_header false)) s).

(** Lines 538-550. *)
Definition open_output_files : M unit :=
  s <- get ;;
  open_output_file evsel_file "evsel_table.bin" ;;
  open_output_file machine_file "machine_table.bin" ;;
  open_output_file thread_file "thread_table.bin" ;;
  open_output_file comm_file "comm_table.bin" ;;
  open_output_file comm_thread_file "comm_thread_table.bin" ;;
  open_output_file dso_file "dso_table.bin" ;;
  open_output_file symbol_file "symbol_table.bin" ;;
  open_output_file branch_type_file "branch_type_table.bin" ;;
  open_output_file sample_file "sample_table.bin" ;;
  when (perf_db_export_calls s || perf_db_export_callchains s)
       (open_output_file call_path_file "call_path_table.bin") ;;
  when (perf_db_export_calls s)
       (open_output_file call_file "call_table.bin").

(** The module body, lines 236-550: what runs when perf loads the script. *)
Definition main (argv : list string) : M unit :=
  parse_args argv ;;
  create_database ;;
  create_schema ;;
  open_output_files.

(** Reading the global [v]. *)
Definition get_file (v : sink) : M file :=
  fun s => match files s v with
           | Some f => Done f s
           | None => Fail NameError s
           end.

(** [v.write(b)] *)
Definition file_write (v : sink) (b : bytes) : M unit :=
  f <- get_file v ;;
  if closed f then raise ValueError
  else modify (fun s => set_files
                 (upd (files s) v (File (name f) (data f ++ b) false)) s).

(** [file.seek(0)] and the [file.read(65536)] of lines 522 and 527, up to the
    first empty read. *)
Definition chunk_size : nat := Z.to_nat 65536.

Fixpoint read_chunks_from (fuel : nat) (rest : bytes) : list bytes :=
  match fuel, rest with
  | S k, _ :: _ => firstn chunk_size rest :: read_chunks_from k (skipn chunk_size rest)
  | _, _ => []
  end.

Definition read_chunks (content : bytes) : list bytes :=
  read_chunks_from (length content) content.

(** The loop of lines 523-527 over the chunks read. *)
Fixpoint put_chunks (table_name : string) (i : nat) (chunks : list bytes) : M unit :=
  match chunks with
  | [] => ret tt
  | chunk :: rest =>
      emit (EPQputCopyData table_name chunk) ;;
      (if PQputCopyData w table_name i chunk =? 1 then ret tt
       else raise (Exception_ "COPY FROM STDIN PQputCopyData failed")) ;;
      put_chunks table_name (S i) rest
  end.

(** Lines 512-531. *)
Definition copy_output_file (v : sink) (table_name : string) : M unit :=
  _ <- get_file v ;;
  s <- get ;;
  emit (EPQconnectdb ("dbname = " ++ dbname s)) ;;
  (if PQstatus w table_name =? 0 then ret tt
   else raise (Exception_ "COPY FROM STDIN PQconnectdb failed")) ;;
  file_write v file_trailer ;;
  let sql := COPY_FROM_STDIN table_name in
  emit (EPQexec sql) ;;
  (if PQresultStatus w sql =? 4 then ret tt
   else raise (Exception_ "COPY FROM STDIN PQexec failed")) ;;
  f <- get_file v ;;
  put_chunks table_name 0 (read_chunks (data f)) ;;
  emit (EPQputCopyEnd table_name) ;;
  (if PQputCopyEnd w table_name =? 1 then ret tt
   else raise (Exception_ "COPY FROM STDIN PQputCopyEnd failed")) ;;
  emit EPQfinish.

(** Lines 533-536. *)
Definition remove_output_file (v : sink) : M unit :=
  f <- get_file v ;;
  emit (Eclose (name f)) ;;
  modify (fun s => set_files (upd (files s) v (File (name f) (data f) true)) s) ;;
  emit (Eunlink (name f)).

(** Lines 658-720: each encoder packs its record and writes it to its file. *)
Definition evsel_table (args : list value) : M unit :=
  value <- lift (evsel_record args) ;; file_write evsel_file value.
Definition machine_table (args : list value) : M unit :=
  value <- lift (machine_record args) ;; file_write machine_file value.
Definition thread_table (args : list value) : M unit :=
  value <- lift (thread_record args) ;; file_write thread_file value.
Definition comm_table (args : list value) : M unit :=
  value <- lift (comm_record args) ;; file_write comm_file value.
Definition comm_thread_table (args : list value) : M unit :=
  value <- lift (comm_thread_record args) ;; file_write comm_thread_file value.
Definition dso_table (args : list value) : M unit :=
  value <- lift (dso_record args) ;; file_write dso_file value.
Definition symbol_table (args : list value) : M unit :=
  value <- lift (symbol_record args) ;; file_write symbol_file value.
Definition branch_type_table (args : list value) : M unit :=
  value <- lift (branch_type_record args) ;; file_write branch_type_file value.
Definition sample_table (args : list value) : M unit :=
  s <- get ;;
  value <- lift (sample_record (branches s) args) ;; file_write sample_file value.
Definition call_path_table (args : list value) : M unit :=
  value <- lift (call_path_record args) ;; file_write call_path_file value.
Definition call_return_table (args : list value) : M unit :=
  value <- lift (call_return_record args) ;; file_write call_file value.

(** Lines 651-653. *)
Definition trace_unhandled (args : list value) : M unit :=
  match args with
  | [event_name; context; event_fields_dict] =>
      modify (fun s => set_unhandled_count (unhandled_count s + 1) s)
  | _ => raise TypeError
  end.

(** Lines 655-656. *)
Definition sched__sched_switch (x : list value) : M unit := ret tt.

(** Lines 552-563. *)
Definition trace_begin : M unit :=
  s <- get ;;
  emit (Eprint Writing_to_intermediate_files) ;;
  evsel_table [VInt 0; VStr "unknown"] ;;
  machine_table [VInt 0; VInt 0; VStr "unknown"] ;;
  thread_table [VInt 0; VInt 0; VInt 0; VInt (-1); VInt (-1)] ;;
  comm_table [VInt 0; VStr "unknown"] ;;
  dso_table [VInt 0; VInt 0; VStr "unknown"; VStr "unknown"; VStr ""] ;;
  symbol_table [VInt 0; VInt 0; VInt 0; VInt 0; VInt 0; VStr "unknown"] ;;
  sample_table [VInt 0; VInt 0; VInt 0; VInt 0; VInt 0; VInt 0; VInt 0; VInt 0;
                VInt 0; VInt 0; VInt 0; VInt 0; VInt 0; VInt 0; VInt 0; VInt 0;
                VInt 0; VInt 0; VInt 0; VInt 0; VInt 0; VInt 0] ;;
  when (perf_db_export_calls s || perf_db_export_callchains s)
       (call_path_table [VInt 0; VInt 0; VInt 0; VInt 0]).

(** Lines 568-581. *)
Definition copy_phase : M unit :=
  s <- get ;;
  emit (Eprint Copying_to_database) ;;
  copy_output_file evsel_file "selected_events" ;;
  copy_output_file machine_file "machines" ;;
  copy_output_file thread_file "threads" ;;
  copy_output_file comm_file "comms" ;;
  copy_output_file comm_thread_file "comm_threads" ;;
  copy_output_file dso_file "dsos" ;;
  copy_output_file symbol_file "symbols" ;;
  copy_output_file branch_type_file "branch_types" ;;
  copy_output_file sample_file "samples" ;;
  when (perf_db_export_calls s || perf_db_export_callchains s)
       (copy_output_file call_path_file "call_paths") ;;
  when (perf_db_export_calls s)
       (copy_output_file call_file "calls").

(** Lines 583-597. *)
Definition remove_phase : M unit :=
  s <- get ;;
  emit (Eprint Removing_intermediate_files) ;;
  remove_output_file evsel_file ;;
  remove_output_file machine_file ;;
  remove_output_file thread_file ;;
  remove_output_file comm_file ;;
  remove_output_file comm_thread_file ;;
  remove_output_file dso_file ;;
  remove_output_file symbol_file ;;
  remove_output_file branch_type_file ;;
  remove_output_file sample_file ;;
  when (perf_db_export_calls s || perf_db_export_callchains s)
       (remove_output_file call_path_file) ;;
  when (perf_db_export_calls s)
       (remove_output_file call_file) ;;
  emit (Ermdir (output_dir_name s)).

(** Lines 598-611. *)
Definition primary_keys : M unit :=
  s <- get ;;
  emit (Eprint Adding_primary_keys) ;;
  do_query (ADD_PRIMARY_KEY "selected_events") ;;
  do_query (ADD_PRIMARY_KEY "machines") ;;
  do_query (ADD_PRIMARY_KEY "threads") ;;
  do_query (ADD_PRIMARY_KEY "comms") ;;
  do_query (ADD_PRIMARY_KEY "comm_threads") ;;
  do_query (ADD_PRIMARY_KEY "dsos") ;;
  do_query (ADD_PRIMARY_KEY "symbols") ;;
  do_query (ADD_PRIMARY_KEY "branch_types") ;;
  do_query (ADD_PRIMARY_KEY "samples") ;;
  when (perf_db_export_calls s || perf_db_export_callchains s)
       (do_query (ADD_PRIMARY_KEY "call_paths")) ;;
  when (perf_db_export_calls s)
       (do_query (ADD_PRIMARY_KEY "calls")).

(** Lines 613-645. *)
Definition foreign_keys : M unit :=
  s <- get ;;
  emit (Eprint Adding_foreign_keys) ;;
  do_query (ADD_CONSTRAINTS "threads"
    [FK "machinefk" "machine_id" "machines";
     FK "processfk" "process_id" "threads"]) ;;
  do_query (ADD_CONSTRAINTS "comm_threads"
    [FK "commfk" "comm_id" "comms";
     FK "threadfk" "thread_id" "threads"]) ;;
  do_query (ADD_CONSTRAINTS "dsos"
    [FK "machinefk" "machine_id" "machines"]) ;;
  do_query (ADD_CONSTRAINTS "symbols"
    [FK "dsofk" "dso_id" "dsos"]) ;;
  do_query (ADD_CONSTRAINTS "samples"
    [FK "evselfk" "evsel_id" "selected_events";
     FK "machinefk" "machine_id" "machines";
     FK "threadfk" "thread_id" "threads";
     FK "commfk" "comm_id" "comms";
     FK "dsofk" "dso_id" "dsos";
     FK "symbolfk" "symbol_id" "symbols";
     FK "todsofk" "to_dso_id" "dsos";
     FK "tosymbolfk" "to_symbol_id" "symbols"]) ;;
  when (perf_db_export_calls s || perf_db_export_callchains s)
       (do_query (ADD_CONSTRAINTS "call_paths"
          [FK "parentfk" "parent_id" "call_paths";
           FK "symbolfk" "symbol_id" "symbols"])) ;;
  when (perf_db_export_calls s)
       (do_query (ADD_CONSTRAINTS "calls"
          [FK "threadfk" "thread_id" "threads";
           FK "commfk" "comm_id" "comms";
           FK "call_pathfk" "call_path_id" "call_paths";
           FK "callfk" "call_id" "samples";
           FK "returnfk" "return_id" "samples";
           FK "parent_call_pathfk" "parent_call_path_id" "call_paths"]) ;;
        do_query (CREATE_INDEX "pcpid_idx" "calls" "parent_call_path_id")).

(** Lines 647-649. *)
Definition report : M unit :=
  s <- get ;;
  when (negb (unhandled_count s =? 0))
       (emit (Eprint (Warning_unhandled_events (unhandled_count s)))) ;;
  emit (Eprint Done_).

(** Lines 567-649. *)
Definition trace_end : M unit :=
  copy_phase ;;
  remove_phase ;;
  primary_keys ;;
  foreign_keys ;;
  report.

(** ** The calls perf makes between [trace_begin] and [trace_end] *)

Inductive callback :=
| call_evsel_table (args : list value)
| call_machine_table (args : list value)
| call_thread_table (args : list value)
| call_comm_table (args : list value)
| call_comm_thread_table (args : list value)
| call_dso_table (args : list value)
| call_symbol_table (args : list value)
| call_branch_type_table (args : list value)
| call_sample_table (args : list value)
| call_call_path_table (args : list value)
| call_call_return_table (args : list value)
| call_trace_unhandled (args : list value)
| call_sched__sched_switch (args : list value).

Definition handle (c : callback) : M unit :=
  match c with
  | call_evsel_table args => evsel_table args
  | call_machine_table args => machine_table args
  | call_thread_table args => thread_table args
  | call_comm_table args => comm_table args
  | call_comm_thread_table args => comm_thread_table args
  | call_dso_table args => dso_table args
  | call_symbol_table args => symbol_table args
  | call_branch_type_table args => branch_type_table args
  | call_sample_table args => sample_table args
  | call_call_path_table args => call_path_table args
  | call_call_return_table args => call_return_table args
  | call_trace_unhandled args => trace_unhandled args
  | call_sched__sched_switch args => sched__sched_switch args
  end.

Fixpoint handle_all (cs : list callback) : M unit :=
  match cs with
  | [] => ret tt
  | c :: rest => handle c ;; handle_all rest
  end.

(** The encoding phase: the sentinel rows, then the callbacks in order. *)
Definition encode (cs : list callback) : M unit :=
  trace_begin ;;
  handle_all cs.

(** A whole run of [perf script -s export-to-postgresql.py argv[1:]]. *)
Definition run (argv : list string) (cs : list callback) : M unit :=
  main argv ;;
  encode cs ;;
  trace_end.

End Script.

(** ** The binary COPY format, as the specification words it

    A row is a 16-bit field count, then for each field a 32-bit byte length
    and that many content bytes. *)

Inductive field :=
| F64 (z : Z)                (* a 64-bit integer: 8 content bytes *)
| F32 (z : Z)                (* a 32-bit integer: 4 content bytes *)
| F8 (z : Z)                 (* a boolean: 1 content byte *)
| Ftext (s : string).        (* text: as many content bytes as the string has *)

Definition content (f : field) : bytes :=
  match f with
  | F64 z => be_bytes 8 z
  | F32 z => be_bytes 4 z
  | F8 z => be_bytes 1 z
  | Ftext s => list_ascii_of_string s
  end.

Definition width (f : field) : nat :=
  match f with
  | F64 _ => 8
  | F32 _ => 4
  | F8 _ => 1
  | Ftext s => String.length s
  end.

Definition field_ok (f : field) : Prop :=
  match f with
  | F64 z => - 2 ^ 63 <= z <= 2 ^ 63 - 1
  | F32 z => - 2 ^ 31 <= z <= 2 ^ 31 - 1
  | F8 z => 0 <= z <= 255
  | Ftext s => Z.of_nat (String.length s) <= 2 ^ 31 - 1
  end.

Definition wire_field (f : field) : bytes :=
  be_bytes 4 (Z.of_nat (width f)) ++ content f.

Definition wire_row (fs : list field) : bytes :=
  be_bytes 2 (Z.of_nat (length fs)) ++ concat (map wire_field fs).

(** A staging file before and after it is sealed. *)
Definition staged (rows : list (list field)) : bytes :=
  file_header ++ concat (map wire_row rows).

Definition sealed (rows : list (list field)) : bytes :=
  staged rows ++ file_trailer.

(** Reading a row back. *)
Fixpoint be_unsigned (b : bytes) : Z :=
  match b with
  | [] => 0
  | a :: r => Z.of_N (N_of_ascii a) * 256 ^ Z.of_nat (length r) + be_unsigned r
  end.

Definition be_signed (b : bytes) : Z :=
  let u := be_unsigned b in
  if u <? 256 ^ Z.of_nat (length b) / 2 then u
  else u - 256 ^ Z.of_nat (length b).

Fixpoint decode_fields (count : nat) (b : bytes) : option (list bytes * bytes) :=
  match count with
  | O => Some ([], b)
  | S k =>
      if (length b <? 4)%nat then None else
      let n := be_signed (firstn 4 b) in
      if n <? 0 then None else
      let r := skipn 4 b in
      if (length r <? Z.to_nat n)%nat then None else
      match decode_fields k (skipn (Z.to_nat n) r) with
      | Some (fs, rest) => Some (firstn (Z.to_nat n) r :: fs, rest)
      | None => None
      end
  end.

Definition decode_row (b : bytes) : option (list bytes * bytes) :=
  if (length b <? 2)%nat then None else
  let c := be_signed (firstn 2 b) in
  if c <? 0 then None else decode_fields (Z.to_nat c) (skipn 2 b).

(** ** Vocabulary for the statements *)

(** The claim's reading of a valid command line. *)
Definition valid_argv (argv : list string) : bool :=
  (2 <=? length argv)%nat
  && match nth_error argv 2 with
     | Some columns => ((columns =? "all") || (columns =? "branches"))%string
     | None => true
     end
  && forallb (fun o => ((o =? "calls") || (o =? "callchains"))%string)
             (skipn 3 argv).

(** Whether the directory [d] exists after the effects [tr], if it did not
    exist before them. *)
Definition dir_present (d : string) (tr : list effect) : bool :=
  fold_left (fun present e =>
               match e with
               | Emkdir p => if (p =? d)%string then true else present
               | Ermdir p => if (p =? d)%string then false else present
               | _ => present
               end) tr false.

(** The statements executed through QSqlQuery, oldest first. *)
Fixpoint queries (tr : list effect) : list stmt :=
  match tr with
  | [] => []
  | Eexec q :: r => q :: queries r
  | _ :: r => queries r
  end.

(** The bytes sent to table [t] over the COPY channel. *)
Fixpoint copied (t : string) (tr : list effect) : bytes :=
  match tr with
  | [] => []
  | EPQputCopyData t' chunk :: r =>
      if (t' =? t)%string then chunk ++ copied t r else copied t r
  | _ :: r => copied t r
  end.

(** Calls into libpq: the bulk transfer. *)
Definition is_transfer (e : effect) : bool :=
  match e with
  | EPQconnectdb _ | EPQexec _ | EPQputCopyData _ _ | EPQputCopyEnd _
  | EPQfinish => true
  | _ => false
  end.

(** Closing and deleting a staging file. *)
Definition is_destroy (e : effect) : bool :=
  match e with
  | Eclose _ | Eunlink _ => true
  | _ => false
  end.

Definition is_add_primary_key (e : effect) : bool :=
  match e with
  | Eexec (ADD_PRIMARY_KEY _) => true
  | _ => false
  end.

Definition is_add_constraints (e : effect) : bool :=
  match e with
  | Eexec (ADD_CONSTRAINTS _ _) => true
  | _ => false
  end.

Definition is_create_index (e : effect) : bool :=
  match e with
  | Eexec (CREATE_INDEX _ _ _) => true
  | _ => false
  end.

Definition is_finalize (e : effect) : bool :=
  is_add_primary_key e || is_add_constraints e || is_create_index e.

(** Every [P] effect of [tr] comes before every [Q] effect of [tr]. *)
Definition all_before (P Q : effect -> bool) (tr : list effect) : Prop :=
  forall i j a b,
    nth_error tr i = Some a -> nth_error tr j = Some b ->
    P a = true -> Q b = true -> (i < j)%nat.

(** The table each sink is loaded into (lines 569-581). *)
Definition table_of (v : sink) : string :=
  match v with
  | evsel_file => "selected_events"
  | machine_file => "machines"
  | thread_file => "threads"
  | comm_file => "comms"
  | comm_thread_file => "comm_threads"
  | dso_file => "dsos"
  | symbol_file => "symbols"
  | branch_type_file => "branch_types"
  | sample_file => "samples"
  | call_path_file => "call_paths"
  | call_file => "calls"
  end.

(** ** The typed rows of the data model

    The fields each encoder is meant to write, taken from the arguments by
    position.  [int_at] and [str_at] default to 0 and the empty string where
    the argument is missing or has the wrong type; the encoders raise there. *)

Definition int_at (args : list value) (i : nat) : Z :=
  match nth_error args i with
  | Some (VInt z) => z
  | _ => 0
  end.

Definition str_at (args : list value) (i : nat) : string :=
  match nth_error args i with
  | Some (VStr s) => s
  | _ => ""
  end.

Definition evsel_fields (a : list value) : list field :=
  [F64 (int_at a 0); Ftext (str_at a 1)].
Definition machine_fields (a : list value) : list field :=
  [F64 (int_at a 0); F32 (int_at a 1); Ftext (str_at a 2)].
Definition thread_fields (a : list value) : list field :=
  [F64 (int_at a 0); F64 (int_at a 1); F64 (int_at a 2); F32 (int_at a 3);
   F32 (int_at a 4)].
Definition comm_fields (a : list value) : list field :=
  [F64 (int_at a 0); Ftext (str_at a 1)].
Definition comm_thread_fields (a : list value) : list field :=
  [F64 (int_at a 0); F64 (int_at a 1); F64 (int_at a 2)].
Definition dso_fields (a : list value) : list field :=
  [F64 (int_at a 0); F64 (int_at a 1); Ftext (str_at a 2); Ftext (str_at a 3);
   Ftext (str_at a 4)].
Definition symbol_fields (a : list value) : list field :=
  [F64 (int_at a 0); F64 (int_at a 1); F64 (int_at a 2); F64 (int_at a 3);
   F32 (int_at a 4); Ftext (str_at a 5)].
Definition branch_type_fields (a : list value) : list field :=
  [F32 (int_at a 0); Ftext (str_at a 1)].
Definition sample_fields (branches : bool) (a : list value) : list field :=
  [F64 (int_at a 0); F64 (int_at a 1); F64 (int_at a 2); F64 (int_at a 3);
   F64 (int_at a 4); F64 (int_at a 5); F64 (int_at a 6); F64 (int_at a 7);
   F64 (int_at a 8); F64 (int_at a 9); F32 (int_at a 10); F64 (int_at a 11);
   F64 (int_at a 12); F64 (int_at a 13); F64 (int_at a 14)]
  ++ (if branches then []
      else [F64 (int_at a 15); F64 (int_at a 16); F64 (int_at a 17);
            F64 (int_at a 18)])
  ++ [F32 (int_at a 19); F8 (int_at a 20); F64 (int_at a 21)].
Definition call_path_fields (a : list value) : list field :=
  [F64 (int_at a 0); F64 (int_at a 1); F64 (int_at a 2); F64 (int_at a 3)].
Definition call_return_fields (a : list value) : list field :=
  [F64 (int_at a 0); F64 (int_at a 1); F64 (int_at a 2); F64 (int_at a 3);
   F64 (int_at a 4); F64 (int_at a 5); F64 (int_at a 6); F64 (int_at a 7);
   F64 (int_at a 8); F64 (int_at a 9); F32 (int_at a 10)].

(** A monadic computation only emits effects satisfying [P], whether it
    returns or raises. *)
Definition emits_only {A} (P : effect -> bool) (m : M A) : Prop :=
  forall s, exists seg,
    trace (final (m s)) = trace s ++ seg /\ forallb P seg = true.

(** A world in which nothing fails. *)
Definition ok_world : world :=
  World "/home/user" (fun _ => true) (fun _ => true) (fun _ => 0)
        (fun _ => 4) (fun _ _ _ => 1) (fun _ => 1).

(** A world in which only [CREATE DATABASE] fails. *)
Definition no_createdb_world : world :=
  World "/home/user" (fun _ => true)
        (fun q => match q with CREATE_DATABASE _ => false | _ => true end)
        (fun _ => 0) (fun _ => 4) (fun _ _ _ => 1) (fun _ => 1).


(** The file a callback writes to, the bytes it writes, and the typed row
    its table expects. *)
Definition target (c : callback) : option sink :=
  match c with
  | call_evsel_table _ => Some evsel_file
  | call_machine_table _ => Some machine_file
  | call_thread_table _ => Some thread_file
  | call_comm_table _ => Some comm_file
  | call_comm_thread_table _ => Some comm_thread_file
  | call_dso_table _ => Some dso_file
  | call_symbol_table _ => Some symbol_file
  | call_branch_type_table _ => Some branch_type_file
  | call_sample_table _ => Some sample_file
  | call_call_path_table _ => Some call_path_file
  | call_call_return_table _ => Some call_file
  | call_trace_unhandled _ => None
  | call_sched__sched_switch _ => None
  end.

Definition payload (br : bool) (c : callback) : result bytes :=
  match c with
  | call_evsel_table a => evsel_record a
  | call_machine_table a => machine_record a
  | call_thread_table a => thread_record a
  | call_comm_table a => comm_record a
  | call_comm_thread_table a => comm_thread_record a
  | call_dso_table a => dso_record a
  | call_symbol_table a => symbol_record a
  | call_branch_type_table a => branch_type_record a
  | call_sample_table a => sample_record br a
  | call_call_path_table a => call_path_record a
  | call_call_return_table a => call_return_record a
  | call_trace_unhandled _ => Ok []
  | call_sched__sched_switch _ => Ok []
  end.

Definition row_of (br : bool) (c : callback) : list field :=
  match c with
  | call_evsel_table a => evsel_fields a
  | call_machine_table a => machine_fields a
  | call_thread_table a => thread_fields a
  | call_comm_table a => comm_fields a
  | call_comm_thread_table a => comm_thread_fields a
  | call_dso_table a => dso_fields a
  | call_symbol_table a => symbol_fields a
  | call_branch_type_table a => branch_type_fields a
  | call_sample_table a => sample_fields br a
  | call_call_path_table a => call_path_fields a
  | call_call_return_table a => call_return_fields a
  | call_trace_unhandled _ => []
  | call_sched__sched_switch _ => []
  end.

(** The number of unhandled events among the callbacks. *)
Fixpoint unhandled_events (cs : list callback) : Z :=
  match cs with
  | [] => 0
  | call_trace_unhandled _ :: r => 1 + unhandled_events r
  | _ :: r => unhandled_events r
  end.

(** A computation leaves the projection [p] of the state alone, whether it
    returns or raises. *)
Definition preserves {A X} (p : state -> X) (m : M A) : Prop :=
  forall s, p (final (m s)) = p s.

(** A computation emits a run of [P] effects and then a run of [Q] effects. *)
Definition two_phase {A} (P Q : effect -> bool) (m : M A) : Prop :=
  forall s, exists t1 t2,
    trace (final (m s)) = trace s ++ t1 ++ t2
    /\ forallb P t1 = true /\ forallb Q t2 = true.

(** The effects of a successful [copy_output_file] (lines 513-531). *)
Definition copy_effects (db t : string) (content : bytes) : list effect :=
  [EPQconnectdb ("dbname = " ++ db); EPQexec (COPY_FROM_STDIN t)]
  ++ map (EPQputCopyData t) (read_chunks content)
  ++ [EPQputCopyEnd t; EPQfinish].

(** The sinks the configuration opens, loads and removes. *)
Definition in_use (s : state) (v : sink) : bool :=
  match v with
  | call_path_file => perf_db_export_calls s || perf_db_export_callchains s
  | call_file => perf_db_export_calls s
  | _ => true
  end.

Definition seal (f : file) : file :=
  File (name f) (data f ++ file_trailer) (closed f).

Definition close (f : file) : file := File (name f) (data f) true.

Definition is_print (e : effect) : bool :=
  match e with
  | Eprint _ => true
  | _ => false
  end.

Definition is_rmdir (e : effect) : bool :=
  match e with
  | Ermdir _ => true
  | _ => false
  end.

(** What the module body and the encoding phase may emit: no transfer, no
    removal of a staging file, no key and no index. *)
Definition is_setup (e : effect) : bool :=
  negb (is_transfer e) && negb (is_destroy e) && negb (is_finalize e).

(** The tables of the configuration, in the order the script creates, loads
    and keys them. *)
Definition tables (s : state) : list string :=
  ["selected_events"; "machines"; "threads"; "comms"; "comm_threads"; "dsos";
   "symbols"; "branch_types"; "samples"]
  ++ (if perf_db_export_calls s || perf_db_export_callchains s
      then ["call_paths"] else [])
  ++ (if perf_db_export_calls s then ["calls"] else []).

(** The statements of a successful [foreign_keys] (lines 614-645). *)
Definition constraints (s : state) : list stmt :=
  [ADD_CONSTRAINTS "threads"
     [FK "machinefk" "machine_id" "machines";
      FK "processfk" "process_id" "threads"];
   ADD_CONSTRAINTS "comm_threads"
     [FK "commfk" "comm_id" "comms";
      FK "threadfk" "thread_id" "threads"];
   ADD_CONSTRAINTS "dsos"
     [FK "machinefk" "machine_id" "machines"];
   ADD_CONSTRAINTS "symbols"
     [FK "dsofk" "dso_id" "dsos"];
   ADD_CONSTRAINTS "samples"
     [FK "evselfk" "evsel_id" "selected_events";
      FK "machinefk" "machine_id" "machines";
      FK "threadfk" "thread_id" "threads";
      FK "commfk" "comm_id" "comms";
      FK "dsofk" "dso_id" "dsos";
      FK "symbolfk" "symbol_id" "symbols";
      FK "todsofk" "to_dso_id" "dsos";
      FK "tosymbolfk" "to_symbol_id" "symbols"]]
  ++ (if perf_db_export_calls s || perf_db_export_callchains s
      then [ADD_CONSTRAINTS "call_paths"
              [FK "parentfk" "parent_id" "call_paths";
               FK "symbolfk" "symbol_id" "symbols"]]
      else [])
  ++ (if perf_db_export_calls s
      then [ADD_CONSTRAINTS "calls"
              [FK "threadfk" "thread_id" "threads";
               FK "commfk" "comm_id" "comms";
               FK "call_pathfk" "call_path_id" "call_paths";
               FK "callfk" "call_id" "samples";
               FK "returnfk" "return_id" "samples";
               FK "parent_call_pathfk" "parent_call_path_id" "call_paths"];
            CREATE_INDEX "pcpid_idx" "calls" "parent_call_path_id"]
      else []).

(** The statements of a successful [create_schema] (lines 282-490). *)
Definition schema (s : state) : list stmt :=
  [SET_client_min_messages_TO_WARNING;
   CREATE_TABLE "selected_events" selected_events_cols;
   CREATE_TABLE "machines" machines_cols;
   CREATE_TABLE "threads" threads_cols;
   CREATE_TABLE "comms" comms_cols;
   CREATE_TABLE "comm_threads" comm_threads_cols;
   CREATE_TABLE "dsos" dsos_cols;
   CREATE_TABLE "symbols" symbols_cols;
   CREATE_TABLE "branch_types" branch_types_cols;
   CREATE_TABLE "samples" (samples_cols (branches s))]
  ++ (if perf_db_export_calls s || perf_db_export_callchains s
      then [CREATE_TABLE "call_paths" call_paths_cols] else [])
  ++ (if perf_db_export_calls s then [CREATE_TABLE "calls" calls_cols] else [])
  ++ [CREATE_VIEW "machines_view"; CREATE_VIEW "dsos_view";
      CREATE_VIEW "symbols_view"; CREATE_VIEW "threads_view";
      CREATE_VIEW "comm_threads_view"]
  ++ (if perf_db_export_calls s || perf_db_export_callchains s
      then [CREATE_VIEW "call_paths_view"] else [])
  ++ (if perf_db_export_calls s then [CREATE_VIEW "calls_view"] else [])
  ++ [CREATE_VIEW "samples_view"].

(** The sinks of the configuration, in load order. *)
Definition sinks (s : state) : list sink :=
  [evsel_file; machine_file; thread_file; comm_file; comm_thread_file;
   dso_file; symbol_file; branch_type_file; sample_file]
  ++ (if perf_db_export_calls s || perf_db_export_callchains s
      then [call_path_file] else [])
  ++ (if perf_db_export_calls s then [call_file] else []).

(** Straight-line runs of [do_query], [copy_output_file] and
    [remove_output_file], as iterations. *)
Fixpoint do_queries (w : world) (qs : list stmt) : M unit :=
  match qs with
  | [] => ret tt
  | [q] => do_query w q
  | q :: r => do_query w q ;; do_queries w r
  end.

Fixpoint copy_all (w : world) (l : list sink) : M unit :=
  match l with
  | [] => ret tt
  | [v] => copy_output_file w v (table_of v)
  | v :: r => copy_output_file w v (table_of v) ;; copy_all w r
  end.

Fixpoint remove_all (l : list sink) (k : M unit) : M unit :=
  match l with
  | [] => k
  | v :: r => remove_output_file v ;; remove_all r k
  end.

(** The configuration fixed by the command line. *)
Definition config (s : state)
  : bool * bool * string * bool * string :=
  (perf_db_export_calls s, perf_db_export_callchains s, dbname s, branches s,
   output_dir_name s).

(** The name of each staging file (lines 538-550). *)
Definition file_name_of (v : sink) : string :=
  match v with
  | evsel_file => "evsel_table.bin"
  | machine_file => "machine_table.bin"
  | thread_file => "thread_table.bin"
  | comm_file => "comm_table.bin"
  | comm_thread_file => "comm_thread_table.bin"
  | dso_file => "dso_table.bin"
  | symbol_file => "symbol_table.bin"
  | branch_type_file => "branch_type_table.bin"
  | sample_file => "sample_table.bin"
  | call_path_file => "call_path_table.bin"
  | call_file => "call_table.bin"
  end.

Fixpoint open_all (l : list sink) : M unit :=
  match l with
  | [] => ret tt
  | v :: r => open_output_file v (file_name_of v) ;; open_all r
  end.

(** The rows [trace_begin] writes (lines 555-563): the row with id 0 of each
    table that gets one. *)
Definition sentinel (br : bool) (v : sink) : option (list field) :=
  match v with
  | evsel_file => Some [F64 0; Ftext "unknown"]
  | machine_file => Some [F64 0; F32 0; Ftext "unknown"]
  | thread_file => Some [F64 0; F64 0; F64 0; F32 (-1); F32 (-1)]
  | comm_file => Some [F64 0; Ftext "unknown"]
  | dso_file => Some [F64 0; F64 0; Ftext "unknown"; Ftext "unknown"; Ftext ""]
  | symbol_file =>
      Some [F64 0; F64 0; F64 0; F64 0; F32 0; Ftext "unknown"]
  | sample_file =>
      Some (sample_fields br (repeat (VInt 0) 22))
  | call_path_file => Some [F64 0; F64 0; F64 0; F64 0]
  | comm_thread_file | branch_type_file | call_file => None
  end.

(** The file object after [b] is written to it. *)
Definition append (b : bytes) (f : file) : file :=
  File (name f) (data f ++ b) (closed f).

(** The encoder calls of [trace_begin] (lines 555-563). *)
Definition sentinel_calls (s : state) : list callback :=
  [call_evsel_table [VInt 0; VStr "unknown"];
   call_machine_table [VInt 0; VInt 0; VStr "unknown"];
   call_thread_table [VInt 0; VInt 0; VInt 0; VInt (-1); VInt (-1)];
   call_comm_table [VInt 0; VStr "unknown"];
   call_dso_table [VInt 0; VInt 0; VStr "unknown"; VStr "unknown"; VStr ""];
   call_symbol_table [VInt 0; VInt 0; VInt 0; VInt 0; VInt 0; VStr "unknown"];
   call_sample_table (repeat (VInt 0) 22)]
  ++ (if perf_db_export_calls s || perf_db_export_callchains s
      then [call_call_path_table [VInt 0; VInt 0; VInt 0; VInt 0]] else []).

(** The typed rows the callbacks [cs] address to the sink [v], in order. *)
Fixpoint rows_for (br : bool) (v : sink) (cs : list callback)
  : list (list field) :=
  match cs with
  | [] => []
  | c :: r =>
      match target c with
      | Some v' => if sink_beq v' v then row_of br c :: rows_for br v r
                   else rows_for br v r
      | None => rows_for br v r
      end
  end.

(** The effects of a module body that runs to its end (lines 236-550), in
    terms of the configuration it leaves. *)
Definition setup_trace (s : state) : list effect :=
  [Emkdir (output_dir_name s); Eprint Creating_database; Edb_open "postgres";
   Eexec (CREATE_DATABASE (dbname s)); Edb_close; Edb_open (dbname s)]
  ++ map Eexec (schema s)
  ++ map (fun v => Eopen (output_dir_name s ++ "/" ++ file_name_of v)) (sinks s).

(** The contents of a sink once it is sealed, and its path. *)
Definition sealed_data (s : state) (v : sink) : bytes :=
  match files s v with
  | Some f => data f ++ file_trailer
  | None => []
  end.

Definition path_of (s : state) (v : sink) : string :=
  match files s v with
  | Some f => name f
  | None => ""
  end.

(** The effects of a [trace_end] that runs to its end (lines 567-649), in
    terms of the state it starts from. *)
Definition load_trace (s : state) (l : list sink) : list effect :=
  flat_map (fun v => copy_effects (dbname s) (table_of v) (sealed_data s v)) l.

Definition remove_trace (s : state) (l : list sink) : list effect :=
  flat_map (fun v => [Eclose (path_of s v); Eunlink (path_of s v)]) l.

Definition report_trace (s : state) : list effect :=
  (if unhandled_count s =? 0 then []
   else [Eprint (Warning_unhandled_events (unhandled_count s))])
  ++ [Eprint Done_].

Definition finish_trace (s : state) : list effect :=
  Eprint Copying_to_database :: load_trace s (sinks s)
  ++ Eprint Removing_intermediate_files :: remove_trace s (sinks s)
  ++ Ermdir (output_dir_name s)
  :: Eprint Adding_primary_keys
  :: map Eexec (map ADD_PRIMARY_KEY (tables s))
  ++ Eprint Adding_foreign_keys :: map Eexec (constraints s)
  ++ report_trace s.

(** A token accepted after the columns (lines 248-251). *)
Definition option_ok (o : string) : bool :=
  ((o =? "calls") || (o =? "callchains"))%string.

Definition is_exec (e : effect) : bool :=
  match e with
  | Eexec _ => true
  | _ => false
  end.

Definition is_db_close (e : effect) : bool :=
  match e with
  | Edb_close => true
  | _ => false
  end.

Definition is_adding_primary_keys (e : effect) : bool :=
  match e with
  | Eprint Adding_primary_keys => true
  | _ => false
  end.

(** Effects that neither create nor remove a directory, and are neither the
    [db.close()] after CREATE DATABASE nor the announcement of the keys. *)
Definition is_neutral (e : effect) : bool :=
  match e with
  | Emkdir _ | Ermdir _ | Edb_close | Eprint Adding_primary_keys => false
  | _ => true
  end.

Definition no_dir (e : effect) : bool :=
  match e with
  | Emkdir _ | Ermdir _ | Edb_close => false
  | _ => true
  end.

(** Whether the run got past CREATE DATABASE, and whether it got to the
    keys. *)
Definition database_created (tr : list effect) : bool := existsb is_db_close tr.
Definition keys_announced (tr : list effect) : bool :=
  existsb is_adding_primary_keys tr.

(** The directory [d] is there iff the database was created and the keys
    were not reached. *)
Definition balanced (d : string) (tr : list effect) : Prop :=
  dir_present d tr = database_created tr && negb (keys_announced tr).

(** The foreign keys a list of statements adds, each with the table it is
    added to, and the tables the list alters for that, oldest first. *)
Definition added_keys (qs : list stmt) : list (string * foreign_key) :=
  flat_map (fun q => match q with
                     | ADD_CONSTRAINTS t ks => map (pair t) ks
                     | _ => []
                     end) qs.

Definition altered (qs : list stmt) : list string :=
  flat_map (fun q => match q with
                     | ADD_CONSTRAINTS t _ => [t]
                     | _ => []
                     end) qs.


(** ** The rest of the file helpers, and vocabulary for further properties *)

(** Lines 502-504.  The script defines [close_output_file] but [trace_end]
    does not call it: it seals with [copy_output_file] and closes with
    [remove_output_file].  Its only caller, [copy_output_file_direct] (lines
    506-509), is never called either and is not modelled. *)
Definition close_output_file (v : sink) : M unit :=
  file_write v file_trailer ;;
  f <- get_file v ;;
  emit (Eclose (name f)) ;;
  modify (fun s => set_files (upd (files s) v (File (name f) (data f) true)) s).

(** [struct.calcsize] and [struct.unpack] for one integer code. *)
Definition size_of (c : fcode) : nat :=
  match c with
  | Fh => 2
  | Fi => 4
  | Fq => 8
  | FB => 1
  | Fs n => n
  end.

Definition calcsize (fmt : list fcode) : nat := list_sum (map size_of fmt).

Definition unpack_int (c : fcode) (b : bytes) : Z :=
  match c with
  | FB => be_unsigned b
  | _ => be_signed b
  end.

(** The integers a code of [size_of c] bytes can hold. *)
Definition representable (c : fcode) (z : Z) : Prop :=
  match c with
  | Fh | Fi | Fq =>
      - 2 ^ (8 * Z.of_nat (size_of c) - 1) <= z < 2 ^ (8 * Z.of_nat (size_of c) - 1)
  | FB => 0 <= z < 2 ^ 8
  | Fs _ => False
  end.

(** Reading a whole staging file back: the header, then rows up to the end
    marker, which must be the last two bytes. *)
Fixpoint bytes_eqb (a b : bytes) : bool :=
  match a, b with
  | [], [] => true
  | x :: a', y :: b' => Ascii.eqb x y && bytes_eqb a' b'
  | _, _ => false
  end.

Fixpoint decode_rows (fuel : nat) (b : bytes) : option (list (list bytes)) :=
  match fuel with
  | O => None
  | S k =>
      if bytes_eqb b file_trailer then Some []
      else match decode_row b with
           | Some (fs, rest) =>
               match decode_rows k rest with
               | Some rows => Some (fs :: rows)
               | None => None
               end
           | None => None
           end
  end.

Definition decode_file (b : bytes) : option (list (list bytes)) :=
  if bytes_eqb (firstn 19 b) file_header
  then decode_rows (length b) (skipn 19 b)
  else None.

(** The columns of the table each sink is loaded into (lines 282-398). *)
Definition columns_of (br : bool) (v : sink) : list column :=
  match v with
  | evsel_file => selected_events_cols
  | machine_file => machines_cols
  | thread_file => threads_cols
  | comm_file => comms_cols
  | comm_thread_file => comm_threads_cols
  | dso_file => dsos_cols
  | symbol_file => symbols_cols
  | branch_type_file => branch_types_cols
  | sample_file => samples_cols br
  | call_path_file => call_paths_cols
  | call_file => calls_cols
  end.

(** A field has the binary representation of the column's type. *)
Definition fits (c : column) (f : field) : bool :=
  match col_type c, f with
  | bigint, F64 _ => true
  | integer, F32 _ => true
  | boolean, F8 _ => true
  | varchar _, Ftext _ => true
  | _, _ => false
  end.

(** Reading a record as the table's columns say: the value of each field
    by the type of its column. *)
Definition value_of (f : field) : value :=
  match f with
  | F64 z | F32 z | F8 z => VInt z
  | Ftext s => VStr s
  end.

Definition read_column (t : sqltype) (b : bytes) : value :=
  match t with
  | bigint | integer => VInt (be_signed b)
  | boolean => VInt (be_unsigned b)
  | varchar _ => VStr (string_of_list_ascii b)
  end.

Definition read_record (cols : list column) (fields : list bytes) : list value :=
  map (fun p => read_column (col_type (fst p)) (snd p)) (combine cols fields).

(** The named parameters of each handler, and its arguments. *)
Definition arity (c : callback) : nat :=
  match c with
  | call_evsel_table _ => 2
  | call_machine_table _ => 3
  | call_thread_table _ => 5
  | call_comm_table _ => 2
  | call_comm_thread_table _ => 3
  | call_dso_table _ => 5
  | call_symbol_table _ => 6
  | call_branch_type_table _ => 2
  | call_sample_table _ => 22
  | call_call_path_table _ => 4
  | call_call_return_table _ => 11
  | call_trace_unhandled _ => 3
  | call_sched__sched_switch _ => 0
  end.

Definition args_of (c : callback) : list value :=
  match c with
  | call_evsel_table a | call_machine_table a | call_thread_table a
  | call_comm_table a | call_comm_thread_table a | call_dso_table a
  | call_symbol_table a | call_branch_type_table a | call_sample_table a
  | call_call_path_table a | call_call_return_table a
  | call_trace_unhandled a | call_sched__sched_switch a => a
  end.

Definition with_args (c : callback) (a : list value) : callback :=
  match c with
  | call_evsel_table _ => call_evsel_table a
  | call_machine_table _ => call_machine_table a
  | call_thread_table _ => call_thread_table a
  | call_comm_table _ => call_comm_table a
  | call_comm_thread_table _ => call_comm_thread_table a
  | call_dso_table _ => call_dso_table a
  | call_symbol_table _ => call_symbol_table a
  | call_branch_type_table _ => call_branch_type_table a
  | call_sample_table _ => call_sample_table a
  | call_call_path_table _ => call_call_path_table a
  | call_call_return_table _ => call_call_return_table a
  | call_trace_unhandled _ => call_trace_unhandled a
  | call_sched__sched_switch _ => call_sched__sched_switch a
  end.

(** When a computation raises, the effects it has emitted satisfy [P]. *)
Definition raises_within {A} (P : effect -> bool) (m : M A) : Prop :=
  forall s e s',
    m s = Fail e s' ->
    exists seg, trace s' = trace s ++ seg /\ forallb P seg = true.

Definition is_finish (e : effect) : bool :=
  match e with
  | EPQfinish => true
  | _ => false
  end.

Definition is_done (e : effect) : bool :=
  match e with
  | Eprint Done_ => true
  | _ => false
  end.

Definition is_warning (e : effect) : bool :=
  match e with
  | Eprint (Warning_unhandled_events _) => true
  | _ => false
  end.

(** No statement is executed after one that failed: if every statement of
    the trace has succeeded before [m], then after [m] every statement has,
    or, when [m] raises, every statement but perhaps the last. *)
Definition fail_fast (w : world) {A} (m : M A) : Prop :=
  forall s,
    forallb (exec_ok w) (queries (trace s)) = true ->
    match m s with
    | Done _ s' => forallb (exec_ok w) (queries (trace s')) = true
    | Fail _ s' => forallb (exec_ok w) (removelast (queries (trace s'))) = true
    end.

(** The paths opened, closed and deleted, oldest first. *)
Definition opened (tr : list effect) : list string :=
  flat_map (fun e => match e with Eopen p => [p] | _ => [] end) tr.

Definition closed_paths (tr : list effect) : list string :=
  flat_map (fun e => match e with Eclose p => [p] | _ => [] end) tr.

Definition unlinked (tr : list effect) : list string :=
  flat_map (fun e => match e with Eunlink p => [p] | _ => [] end) tr.

(** The directories removed, oldest first. *)
Definition removed_dirs (tr : list effect) : list string :=
  flat_map (fun e => match e with Ermdir p => [p] | _ => [] end) tr.

(** The path of the staging file of a sink (lines 255 and 496-497). *)
Definition staging_path (s : state) (v : sink) : string :=
  (output_dir_name s ++ "/" ++ file_name_of v)%string.

(** Neither the final message nor the warning about unhandled events. *)
Definition is_progress (e : effect) : bool :=
  negb (is_done e) && negb (is_warning e).

(** A world in which the server rejects the COPY statement. *)
Definition no_copy_world : world :=
  World "/home/user" (fun _ => true) (fun _ => true) (fun _ => 0)
        (fun _ => 7) (fun _ _ _ => 1) (fun _ => 1).
(** * Properties *)

(** ** Bytes *)

Lemma length_be_bytes n z : length (be_bytes n z) = n.
Proof. induction n; simpl; congruence. Qed.

Lemma length_list_ascii_of_string s :
  length (list_ascii_of_string s) = String.length s.
Proof. induction s; simpl; congruence. Qed.

Lemma pad_exact s : pad (String.length s) (list_ascii_of_string s) = list_ascii_of_string s.
Proof.
  unfold pad. rewrite length_list_ascii_of_string, Nat.sub_diag. simpl.
  rewrite app_nil_r. rewrite <- (length_list_ascii_of_string s).
  apply firstn_all.
Qed.

Lemma length_content f : length (content f) = width f.
Proof.
  destruct f; simpl; try reflexivity. apply length_list_ascii_of_string.
Qed.

Lemma byte_of_Z_value z : Z.of_N (N_of_ascii (byte_of_Z z)) = z mod 256.
Proof.
  unfold byte_of_Z. assert (0 <= z mod 256 < 256) by (apply Z.mod_pos_bound; lia).
  rewrite N_ascii_embedding by lia. lia.
Qed.

Lemma be_unsigned_be_bytes n z :
  be_unsigned (be_bytes n z) = z mod 256 ^ Z.of_nat n.
Proof.
  induction n as [|k IH].
  - simpl. now rewrite Z.mod_1_r.
  - cbn [be_bytes be_unsigned]. rewrite byte_of_Z_value, length_be_bytes, IH.
    rewrite Nat2Z.inj_succ, Z.pow_succ_r by lia.
    assert (Hp : 0 < 256 ^ Z.of_nat k) by (apply Z.pow_pos_nonneg; lia).
    rewrite (Z.mul_comm 256), Z.rem_mul_r by lia. lia.
Qed.

Lemma be_signed_be_bytes n z :
  0 <= z < 256 ^ Z.of_nat n / 2 -> be_signed (be_bytes n z) = z.
Proof.
  intros Hz. unfold be_signed. rewrite be_unsigned_be_bytes, length_be_bytes.
  assert (256 ^ Z.of_nat n / 2 <= 256 ^ Z.of_nat n).
  { apply Z.div_le_upper_bound; lia. }
  rewrite Z.mod_small by lia.
  destruct (z <? 256 ^ Z.of_nat n / 2) eqn:E; [reflexivity|].
  apply Z.ltb_ge in E. lia.
Qed.

(** ** Reading back what [wire_row] writes *)

Lemma width_bound f :
  field_ok f -> 0 <= Z.of_nat (width f) < 256 ^ Z.of_nat 4 / 2.
Proof.
  change (256 ^ Z.of_nat 4 / 2) with (2 ^ 31).
  destruct f; simpl; intros; lia.
Qed.

Lemma firstn_exact {A} (l r : list A) n : length l = n -> firstn n (l ++ r) = l.
Proof.
  intros <-. rewrite firstn_app, Nat.sub_diag, firstn_all. simpl.
  apply app_nil_r.
Qed.

Lemma skipn_exact {A} (l r : list A) n : length l = n -> skipn n (l ++ r) = r.
Proof.
  intros <-. rewrite skipn_app, Nat.sub_diag, skipn_all. reflexivity.
Qed.

Lemma decode_fields_step k c r :
  Z.of_nat (length c) < 256 ^ Z.of_nat 4 / 2 ->
  decode_fields (S k) ((be_bytes 4 (Z.of_nat (length c)) ++ c) ++ r)
  = match decode_fields k r with
    | Some (fs, rest) => Some (c :: fs, rest)
    | None => None
    end.
Proof.
  intros Hc. rewrite <- app_assoc.
  assert (L4 : length (be_bytes 4 (Z.of_nat (length c))) = 4%nat)
    by apply length_be_bytes.
  cbn [decode_fields].
  destruct (Nat.ltb_spec
              (length (be_bytes 4 (Z.of_nat (length c)) ++ c ++ r)) 4) as [Hl|_].
  { rewrite length_app in Hl. lia. }
  rewrite firstn_exact, skipn_exact by exact L4.
  rewrite be_signed_be_bytes by lia.
  destruct (Z.ltb_spec (Z.of_nat (length c)) 0) as [Hn|_]; [lia|].
  rewrite Nat2Z.id.
  destruct (Nat.ltb_spec (length (c ++ r)) (length c)) as [Hl|_].
  { rewrite length_app in Hl. lia. }
  rewrite firstn_exact, skipn_exact by reflexivity.
  reflexivity.
Qed.

Lemma decode_fields_wire fs rest :
  Forall field_ok fs ->
  decode_fields (length fs) (concat (map wire_field fs) ++ rest)
  = Some (map content fs, rest).
Proof.
  induction 1 as [|f fs Hf Hfs IH]; [reflexivity|].
  cbn [length map concat]. unfold wire_field at 1.
  rewrite <- (length_content f), <- app_assoc.
  rewrite decode_fields_step, IH; [reflexivity|].
  rewrite length_content. now apply width_bound.
Qed.

Lemma decode_row_wire fs rest :
  Forall field_ok fs -> Z.of_nat (length fs) < 2 ^ 15 ->
  decode_row (wire_row fs ++ rest) = Some (map content fs, rest).
Proof.
  intros Hfs Hlen. unfold decode_row, wire_row. rewrite <- app_assoc.
  assert (L2 : length (be_bytes 2 (Z.of_nat (length fs))) = 2%nat)
    by apply length_be_bytes.
  destruct (Nat.ltb_spec
              (length (be_bytes 2 (Z.of_nat (length fs))
                       ++ concat (map wire_field fs) ++ rest)) 2) as [Hl|_].
  { rewrite length_app in Hl. lia. }
  rewrite firstn_exact, skipn_exact by exact L2.
  rewrite be_signed_be_bytes
    by (change (256 ^ Z.of_nat 2 / 2) with (2 ^ 15); lia).
  destruct (Z.ltb_spec (Z.of_nat (length fs)) 0) as [Hn|_]; [lia|].
  rewrite Nat2Z.id. now apply decode_fields_wire.
Qed.

(** ** What [struct_pack] returns when it returns *)

Lemma pack_int_Ok n lo hi v b :
  pack_int n lo hi v = Ok b ->
  exists z, v = VInt z /\ lo <= z <= hi /\ b = be_bytes n z.
Proof.
  unfold pack_int, in_range. destruct v as [z| |]; try discriminate.
  destruct (Z.leb_spec lo z), (Z.leb_spec z hi); simpl; try discriminate.
  intros [= <-]. exists z. repeat split; assumption.
Qed.

Lemma pack_text_Ok n v b :
  pack_one (Fs n) v = Ok b ->
  exists s, v = VStr s /\ b = pad n (list_ascii_of_string s).
Proof.
  simpl. destruct v as [|s|]; try discriminate. intros [= <-]. now exists s.
Qed.

Lemma len_Ok v n : len v = Ok n -> exists s, v = VStr s /\ n = String.length s.
Proof.
  destruct v as [|s|]; try discriminate. intros [= <-]. now exists s.
Qed.

Lemma struct_pack_cons_Ok c fmt v args b :
  struct_pack (c :: fmt) (v :: args) = Ok b ->
  exists b1 b2, pack_one c v = Ok b1 /\ struct_pack fmt args = Ok b2
                /\ b = b1 ++ b2.
Proof.
  cbn [struct_pack]. destruct (pack_one c v) as [b1|]; [|discriminate].
  cbn [rbind]. destruct (struct_pack fmt args) as [b2|]; [|discriminate].
  cbn [rbind]. intros [= <-]. now exists b1, b2.
Qed.

Lemma rbind_Ok {A B} (r : result A) (k : A -> result B) b :
  rbind r k = Ok b -> exists a, r = Ok a /\ k a = Ok b.
Proof. destruct r as [a|]; [|discriminate]. intros H. now exists a. Qed.

(** A step of inversion on a successful [struct_pack]. *)
Ltac pack_step H :=
  let b1 := fresh "b" in
  let Hp := fresh "Hp" in
  let z := fresh "z" in
  let Hr := fresh "Hr" in
  apply struct_pack_cons_Ok in H; destruct H as (b1 & ? & Hp & H & ->);
  first
    [ apply pack_text_Ok in Hp; destruct Hp as (? & Hp & ->);
      first [ injection Hp as <- | subst ]
    | unfold pack_one in Hp; apply pack_int_Ok in Hp;
      destruct Hp as (z & Hp & Hr & ->);
      first [ injection Hp as <- | subst ] ].

Ltac pack_inv H :=
  repeat match type of H with
         | rbind (len _) _ = Ok _ =>
             let Hl := fresh "Hl" in
             apply rbind_Ok in H; destruct H as (? & Hl & H);
             apply len_Ok in Hl; destruct Hl as (? & -> & ->)
         | struct_pack (_ :: _) (_ :: _) = Ok _ => pack_step H
         | struct_pack [] [] = Ok _ => injection H as <-
         end.

Ltac args_inv args :=
  repeat (destruct args as [|? args]; [discriminate|]).


(** ** Each encoder writes the typed row of its table *)

Ltac layout :=
  let H := fresh "H" in
  intros H;
  match type of H with
  | ?f ?args = Ok _ => unfold f in H; args_inv args
  | ?f _ ?args = Ok _ => unfold f in H; args_inv args
  end;
  pack_inv H; rewrite ?pad_exact;
  split; [reflexivity
        | repeat apply Forall_cons; try apply Forall_nil;
          unfold field_ok, int_at, str_at; cbn [nth_error]; lia].

Lemma evsel_record_layout args b :
  evsel_record args = Ok b ->
  b = wire_row (evsel_fields args) /\ Forall field_ok (evsel_fields args).
Proof. layout. Qed.

Lemma machine_record_layout args b :
  machine_record args = Ok b ->
  b = wire_row (machine_fields args) /\ Forall field_ok (machine_fields args).
Proof. layout. Qed.

Lemma thread_record_layout args b :
  thread_record args = Ok b ->
  b = wire_row (thread_fields args) /\ Forall field_ok (thread_fields args).
Proof. layout. Qed.

Lemma comm_record_layout args b :
  comm_record args = Ok b ->
  b = wire_row (comm_fields args) /\ Forall field_ok (comm_fields args).
Proof. layout. Qed.

Lemma comm_thread_record_layout args b :
  comm_thread_record args = Ok b ->
  b = wire_row (comm_thread_fields args) /\ Forall field_ok (comm_thread_fields args).
Proof. layout. Qed.

Lemma dso_record_layout args b :
  dso_record args = Ok b ->
  b = wire_row (dso_fields args) /\ Forall field_ok (dso_fields args).
Proof. layout. Qed.

Lemma symbol_record_layout args b :
  symbol_record args = Ok b ->
  b = wire_row (symbol_fields args) /\ Forall field_ok (symbol_fields args).
Proof. layout. Qed.

Lemma branch_type_record_layout args b :
  branch_type_record args = Ok b ->
  b = wire_row (branch_type_fields args) /\ Forall field_ok (branch_type_fields args).
Proof. layout. Qed.

Lemma call_path_record_layout args b :
  call_path_record args = Ok b ->
  b = wire_row (call_path_fields args) /\ Forall field_ok (call_path_fields args).
Proof. layout. Qed.

Lemma call_return_record_layout args b :
  call_return_record args = Ok b ->
  b = wire_row (call_return_fields args) /\ Forall field_ok (call_return_fields args).
Proof. layout. Qed.

Lemma sample_record_layout br args b :
  sample_record br args = Ok b ->
  b = wire_row (sample_fields br args)
  /\ Forall field_ok (sample_fields br args).
Proof. destruct br; layout. Qed.

Lemma payload_layout br c v b :
  target c = Some v -> payload br c = Ok b ->
  b = wire_row (row_of br c) /\ Forall field_ok (row_of br c).
Proof.
  destruct c; cbn [target payload row_of]; intros [= <-];
    eauto using evsel_record_layout, machine_record_layout,
      thread_record_layout, comm_record_layout, comm_thread_record_layout,
      dso_record_layout, symbol_record_layout, branch_type_record_layout,
      sample_record_layout, call_path_record_layout,
      call_return_record_layout.
Qed.

(** ** The monad *)

Lemma bind_Done {A B} (m : M A) (k : A -> M B) s b s' :
  bind m k s = Done b s' ->
  exists a s1, m s = Done a s1 /\ k a s1 = Done b s'.
Proof.
  unfold bind. destruct (m s) as [a s1|e s1]; [|discriminate].
  intros H. now exists a, s1.
Qed.

Lemma bind_get {B} (k : state -> M B) s : bind get k s = k s s.
Proof. reflexivity. Qed.

Lemma bind_modify {B} f (k : unit -> M B) s : bind (modify f) k s = k tt (f s).
Proof. reflexivity. Qed.

Lemma bind_emit {B} e (k : unit -> M B) s :
  bind (emit e) k s = k tt (set_trace (trace s ++ [e]) s).
Proof. reflexivity. Qed.

Lemma bind_ret {A B} (a : A) (k : A -> M B) s : bind (ret a) k s = k a s.
Proof. reflexivity. Qed.

Lemma bind_assoc {A B C} (m : M A) (k : A -> M B) (h : B -> M C) s :
  bind (bind m k) h s = bind m (fun a => bind (k a) h) s.
Proof. unfold bind. now destruct (m s). Qed.

Lemma bind_do_query {B} w q (k : unit -> M B) s :
  bind (do_query w q) k s
  = if exec_ok w q then k tt (set_trace (trace s ++ [Eexec q]) s)
    else Fail (Exception_ "Query failed") (set_trace (trace s ++ [Eexec q]) s).
Proof. unfold do_query, bind, emit, modify. now destruct (exec_ok w q). Qed.

Lemma do_query_eq w q s :
  do_query w q s
  = if exec_ok w q then Done tt (set_trace (trace s ++ [Eexec q]) s)
    else Fail (Exception_ "Query failed") (set_trace (trace s ++ [Eexec q]) s).
Proof. unfold do_query, bind, emit, modify. now destruct (exec_ok w q). Qed.

(** ** Which effects a computation may emit *)

Section Emits.

Context {A : Type} (P : effect -> bool).

Lemma emits_ret (a : A) : emits_only P (ret a).
Proof. intros s. exists []. now rewrite app_nil_r. Qed.

Lemma emits_raise e : emits_only P (@raise A e).
Proof. intros s. exists []. now rewrite app_nil_r. Qed.

Lemma emits_lift (r : result A) : emits_only P (lift r).
Proof. destruct r; [apply emits_ret | apply emits_raise]. Qed.

Lemma emits_bind {B} (m : M B) (k : B -> M A) :
  emits_only P m -> (forall b, emits_only P (k b)) -> emits_only P (bind m k).
Proof.
  intros Hm Hk s. unfold bind. destruct (Hm s) as (t1 & E1 & F1).
  destruct (m s) as [b s1|e s1]; simpl in *.
  - destruct (Hk b s1) as (t2 & E2 & F2). exists (t1 ++ t2).
    rewrite E2, E1, app_assoc, forallb_app, F1, F2. now split.
  - now exists t1.
Qed.

Lemma emits_try (m : M A) (h : M unit) :
  emits_only P m -> emits_only P h -> emits_only P (try_except_reraise m h).
Proof.
  intros Hm Hh s. unfold try_except_reraise. destruct (Hm s) as (t1 & E1 & F1).
  destruct (m s) as [b s1|e s1]; simpl in *.
  - now exists t1.
  - destruct (Hh s1) as (t2 & E2 & F2). exists (t1 ++ t2).
    assert (E : trace (final (h s1)) = trace s ++ t1 ++ t2)
      by now rewrite E2, E1, app_assoc.
    rewrite forallb_app, F1, F2. split; [|reflexivity].
    now destruct (h s1).
Qed.

End Emits.

Lemma emits_get P : emits_only P get.
Proof. intros s. exists []. now rewrite app_nil_r. Qed.

Lemma emits_modify P f :
  (forall s, trace (f s) = trace s) -> emits_only P (modify f).
Proof. intros H s. exists []. simpl. now rewrite H, app_nil_r. Qed.

Lemma emits_emit (P : effect -> bool) e : P e = true -> emits_only P (emit e).
Proof. intros H s. exists [e]. simpl. now rewrite H. Qed.

Lemma emits_when P b m : emits_only P m -> emits_only P (when b m).
Proof. destruct b; [trivial | intros _; apply emits_ret]. Qed.

Lemma emits_get_file P v : emits_only P (get_file v).
Proof.
  intros s. exists []. unfold get_file. rewrite app_nil_r.
  now destruct (files s v).
Qed.

Lemma emits_weaken {A} (P Q : effect -> bool) (m : M A) :
  (forall e, P e = true -> Q e = true) -> emits_only P m -> emits_only Q m.
Proof.
  intros HPQ Hm s. destruct (Hm s) as (t & E & F). exists t. split; [exact E|].
  rewrite forallb_forall in *. auto.
Qed.

(** Structural steps for [emits_only] goals. *)
Ltac emits_step :=
  lazymatch goal with
  | |- emits_only _ (bind _ _) => apply emits_bind; [|intros ?]
  | |- emits_only _ (ret _) => apply emits_ret
  | |- emits_only _ (raise _) => apply emits_raise
  | |- emits_only _ get => apply emits_get
  | |- emits_only _ (lift _) => apply emits_lift
  | |- emits_only _ (get_file _) => apply emits_get_file
  | |- emits_only _ (when _ _) => apply emits_when
  | |- emits_only _ (try_except_reraise _ _) => apply emits_try
  | |- emits_only _ (emit _) =>
      apply emits_emit; first [reflexivity | assumption]
  | |- emits_only _ (modify _) => apply emits_modify; intros ?; reflexivity
  | |- emits_only _ (if ?b then _ else _) => destruct b
  | |- emits_only _ (match ?l with [] => _ | _ :: _ => _ end) => destruct l
  end.

Ltac emits := repeat emits_step.

Lemma emits_usage {A} P : P Estderr_usage = true -> emits_only P (@usage A).
Proof. intros H. unfold usage. emits. Qed.

Lemma emits_do_query P w q : P (Eexec q) = true -> emits_only P (do_query w q).
Proof. intros H. unfold do_query. emits. Qed.

Lemma emits_file_write P v b : emits_only P (file_write v b).
Proof. unfold file_write. emits. Qed.

Lemma emits_put_chunks P w t chunks i :
  (forall c, P (EPQputCopyData t c) = true) ->
  emits_only P (put_chunks w t i chunks).
Proof.
  intros H. revert i. induction chunks as [|c r IH]; intros i; simpl.
  - apply emits_ret.
  - emits; auto. apply emits_emit, H.
Qed.

Lemma emits_copy_output_file w v t : emits_only is_transfer (copy_output_file w v t).
Proof.
  unfold copy_output_file. emits; try apply emits_file_write.
  now apply emits_put_chunks.
Qed.

Lemma emits_remove_output_file v : emits_only is_destroy (remove_output_file v).
Proof. unfold remove_output_file. emits. Qed.

Lemma emits_handle P c : emits_only P (handle c).
Proof.
  destruct c; cbn [handle];
    unfold evsel_table, machine_table, thread_table, comm_table,
      comm_thread_table, dso_table, symbol_table, branch_type_table,
      sample_table, call_path_table, call_return_table, trace_unhandled,
      sched__sched_switch;
    emits; try apply emits_file_write.
Qed.

Lemma emits_handle_all P cs : emits_only P (handle_all cs).
Proof.
  induction cs as [|c r IH]; simpl; [apply emits_ret|].
  apply emits_bind; [apply emits_handle | intros _; exact IH].
Qed.

(** ** The effects of each phase *)

Ltac weaken_with L :=
  eapply emits_weaken; [|apply L];
  let e := fresh "e" in
  let He := fresh "He" in
  intros e He; destruct e; try discriminate He; try reflexivity.

Lemma emits_parse_options P opts :
  P Estderr_usage = true -> emits_only P (parse_options opts).
Proof.
  intros H. induction opts as [|o r IH]; simpl; [apply emits_ret|].
  emits; auto using emits_usage.
Qed.

Lemma emits_parse_args argv : emits_only is_setup (parse_args argv).
Proof.
  unfold parse_args. emits; try (now apply emits_usage).
  now apply emits_parse_options.
Qed.

Lemma emits_create_database w : emits_only is_setup (create_database w).
Proof. unfold create_database. emits; now apply emits_do_query. Qed.

Lemma emits_create_schema w : emits_only is_setup (create_schema w).
Proof. unfold create_schema. emits; now apply emits_do_query. Qed.

Lemma emits_open_output_files : emits_only is_setup open_output_files.
Proof. unfold open_output_files, open_output_file. emits. Qed.

Lemma emits_main w argv : emits_only is_setup (main w argv).
Proof.
  unfold main.
  apply emits_bind; [apply emits_parse_args | intros _].
  apply emits_bind; [apply emits_create_database | intros _].
  apply emits_bind; [apply emits_create_schema | intros _].
  apply emits_open_output_files.
Qed.

Lemma emits_trace_begin P :
  P (Eprint Writing_to_intermediate_files) = true -> emits_only P trace_begin.
Proof.
  intros H. unfold trace_begin.
  apply emits_bind; [apply emits_get | intros s].
  apply emits_bind; [now apply emits_emit | intros _].
  repeat (apply emits_bind;
          [ first [ apply (emits_handle P (call_evsel_table _))
                  | apply (emits_handle P (call_machine_table _))
                  | apply (emits_handle P (call_thread_table _))
                  | apply (emits_handle P (call_comm_table _))
                  | apply (emits_handle P (call_dso_table _))
                  | apply (emits_handle P (call_symbol_table _))
                  | apply (emits_handle P (call_sample_table _)) ]
          | intros _ ]).
  apply emits_when. apply (emits_handle P (call_call_path_table _)).
Qed.

Lemma emits_encode P cs :
  P (Eprint Writing_to_intermediate_files) = true -> emits_only P (encode cs).
Proof.
  intros H. unfold encode.
  apply emits_bind; [now apply emits_trace_begin | intros _].
  apply emits_handle_all.
Qed.

Lemma emits_copy_phase w :
  emits_only (fun e => is_transfer e || is_print e) (copy_phase w).
Proof.
  unfold copy_phase. emits; weaken_with (emits_copy_output_file w).
Qed.

Lemma emits_remove_phase :
  emits_only (fun e => is_destroy e || is_rmdir e || is_print e) remove_phase.
Proof.
  unfold remove_phase. emits; weaken_with emits_remove_output_file.
Qed.

Lemma emits_primary_keys w :
  emits_only (fun e => is_add_primary_key e || is_print e) (primary_keys w).
Proof. unfold primary_keys. emits; now apply emits_do_query. Qed.

Lemma emits_foreign_keys w :
  emits_only (fun e => is_add_constraints e || is_create_index e || is_print e)
             (foreign_keys w).
Proof. unfold foreign_keys. emits; now apply emits_do_query. Qed.

Lemma emits_report : emits_only is_print report.
Proof. unfold report. emits. Qed.

(** ** Two phases *)

Lemma two_phase_left {A B} P Q (m : M A) (k : A -> M B) :
  emits_only P m -> (forall a, two_phase P Q (k a)) -> two_phase P Q (bind m k).
Proof.
  intros Hm Hk s. unfold bind. destruct (Hm s) as (t & E & F).
  destruct (m s) as [a s1|e s1]; simpl in *.
  - destruct (Hk a s1) as (t1 & t2 & E' & F1 & F2). exists (t ++ t1), t2.
    rewrite E', E, <- !app_assoc, forallb_app, F, F1. auto.
  - exists t, []. rewrite app_nil_r. auto.
Qed.

Lemma two_phase_right {A} P Q (m : M A) : emits_only Q m -> two_phase P Q m.
Proof.
  intros Hm s. destruct (Hm s) as (t & E & F). exists [], t. auto.
Qed.

Lemma all_before_split P Q t1 t2 :
  forallb (fun e => negb (Q e)) t1 = true ->
  forallb (fun e => negb (P e)) t2 = true ->
  all_before P Q (t1 ++ t2).
Proof.
  intros H1 H2 i j a b Ha Hb Pa Qb.
  rewrite forallb_forall in H1, H2.
  destruct (Nat.lt_ge_cases i (length t1)) as [Hi|Hi].
  - destruct (Nat.lt_ge_cases j (length t1)) as [Hj|Hj]; [|lia].
    rewrite nth_error_app1 in Hb by exact Hj.
    apply nth_error_In, H1 in Hb. rewrite Qb in Hb. discriminate.
  - rewrite nth_error_app2 in Ha by exact Hi.
    apply nth_error_In, H2 in Ha. rewrite Pa in Ha. discriminate.
Qed.

Lemma two_phase_all_before {A} P Q (m : M A) :
  two_phase (fun e => negb (Q e)) (fun e => negb (P e)) m ->
  forall s, trace s = [] -> all_before P Q (trace (final (m s))).
Proof.
  intros H s Hs. destruct (H s) as (t1 & t2 & E & F1 & F2).
  rewrite E, Hs. simpl. now apply all_before_split.
Qed.

(** The run up to the end of the load, and the run from there on. *)
Lemma run_load_then_rest w argv cs P Q :
  (forall e, is_setup e = true -> P e = true) ->
  (forall e, is_transfer e || is_print e = true -> P e = true) ->
  (forall e, is_destroy e || is_rmdir e || is_print e = true -> Q e = true) ->
  (forall e, is_finalize e || is_print e = true -> Q e = true) ->
  two_phase P Q (run w argv cs).
Proof.
  intros H1 H2 H3 H4. unfold run.
  apply two_phase_left; [eapply emits_weaken; [exact H1|apply emits_main]|].
  intros _.
  apply two_phase_left;
    [eapply emits_weaken; [exact H1|now apply emits_encode]|].
  intros _. unfold trace_end.
  apply two_phase_left; [eapply emits_weaken; [exact H2|apply emits_copy_phase]|].
  intros _. apply two_phase_right.
  apply emits_bind; [eapply emits_weaken; [exact H3|apply emits_remove_phase]|].
  intros _.
  apply emits_bind;
    [eapply emits_weaken; [|apply emits_primary_keys]|].
  { intros e He. cbv beta in He. apply H4. unfold is_finalize.
    destruct (is_add_primary_key e), (is_print e); try discriminate He;
      simpl; now rewrite ?orb_true_r. }
  intros _.
  apply emits_bind;
    [eapply emits_weaken; [|apply emits_foreign_keys]|].
  { intros e He. cbv beta in He. apply H4. unfold is_finalize.
    destruct (is_add_constraints e), (is_create_index e), (is_print e);
      try discriminate He; simpl; now rewrite ?orb_true_r. }
  intros _. eapply emits_weaken; [|apply emits_report].
  intros e He. apply H4. now rewrite He, orb_true_r.
Qed.

(** ** The straight-line phases as iterations *)

Lemma bind_congr {A B} (m : M A) (k1 k2 : A -> M B) s :
  (forall a s1, k1 a s1 = k2 a s1) -> bind m k1 s = bind m k2 s.
Proof. intros H. unfold bind. destruct (m s); [apply H | reflexivity]. Qed.

Lemma bind_ret_r (m : M unit) s : bind m (fun _ => ret tt) s = m s.
Proof. unfold bind. destruct (m s) as [[] s1|e s1]; reflexivity. Qed.

Lemma set_trace_set_trace t t' s : set_trace t (set_trace t' s) = set_trace t s.
Proof. reflexivity. Qed.

Lemma set_trace_same s : set_trace (trace s) s = s.
Proof. now destruct s. Qed.

Ltac flags s :=
  let c := fresh "Hcalls" in
  let d := fresh "Hchains" in
  destruct (perf_db_export_calls s) eqn:c;
  destruct (perf_db_export_callchains s) eqn:d.

Ltac same_steps :=
  repeat first [ reflexivity
               | apply bind_ret_r
               | symmetry; apply bind_ret_r
               | apply bind_congr; intros [] ? ].

Lemma create_schema_eq w s :
  create_schema w s
  = (emit (Edb_open (dbname s)) ;; do_queries w (schema s)) s.
Proof.
  unfold create_schema, schema. rewrite bind_get.
  flags s; cbn [when orb]; same_steps.
Qed.

Lemma primary_keys_eq w s :
  primary_keys w s
  = (emit (Eprint Adding_primary_keys) ;;
     do_queries w (map ADD_PRIMARY_KEY (tables s))) s.
Proof.
  unfold primary_keys, tables. rewrite bind_get.
  flags s; cbn [when orb]; same_steps.
Qed.

Lemma foreign_keys_eq w s :
  foreign_keys w s
  = (emit (Eprint Adding_foreign_keys) ;; do_queries w (constraints s)) s.
Proof.
  unfold foreign_keys, constraints. rewrite bind_get.
  flags s; cbn [when orb]; same_steps.
Qed.

Lemma copy_phase_eq w s :
  copy_phase w s = (emit (Eprint Copying_to_database) ;; copy_all w (sinks s)) s.
Proof.
  unfold copy_phase, sinks. rewrite bind_get.
  flags s; cbn [when orb]; same_steps.
Qed.

Lemma remove_phase_eq s :
  remove_phase s
  = (emit (Eprint Removing_intermediate_files) ;;
     remove_all (sinks s) (emit (Ermdir (output_dir_name s)))) s.
Proof.
  unfold remove_phase, sinks. rewrite bind_get.
  flags s; cbn [when orb]; same_steps.
Qed.

(** ** What a successful iteration did *)

Lemma do_queries_Done w qs s s' :
  do_queries w qs s = Done tt s' ->
  s' = set_trace (trace s ++ map Eexec qs) s
  /\ forallb (exec_ok w) qs = true.
Proof.
  revert s. induction qs as [|q r IH]; intros s H.
  - injection H as <-. simpl. now rewrite app_nil_r, set_trace_same.
  - destruct r as [|q' r'].
    + cbn [do_queries] in H. rewrite do_query_eq in H.
      destruct (exec_ok w q) eqn:E; [|discriminate]. injection H as <-.
      simpl. now rewrite E.
    + change (bind (do_query w q) (fun _ => do_queries w (q' :: r')) s
              = Done tt s') in H.
      rewrite bind_do_query in H.
      destruct (exec_ok w q) eqn:E; [|discriminate].
      apply IH in H. destruct H as [-> F]. split.
      * rewrite set_trace_set_trace. cbn [trace set_trace].
        now rewrite <- app_assoc.
      * change (exec_ok w q && forallb (exec_ok w) (q' :: r') = true).
        now rewrite E, F.
Qed.

Lemma concat_read_chunks_from fuel rest :
  (length rest <= fuel)%nat -> concat (read_chunks_from fuel rest) = rest.
Proof.
  revert rest. induction fuel as [|k IH]; intros rest Hl.
  - destruct rest; [reflexivity | simpl in Hl; lia].
  - destruct rest as [|a r]; [reflexivity|].
    cbn [read_chunks_from concat]. rewrite IH.
    + apply firstn_skipn.
    + rewrite length_skipn. unfold chunk_size.
      change (Z.to_nat 65536) with (S (Z.to_nat 65535)).
      simpl length in *. lia.
Qed.

Lemma concat_read_chunks content : concat (read_chunks content) = content.
Proof. now apply concat_read_chunks_from. Qed.

Lemma put_chunks_Done w t chunks i s s' :
  put_chunks w t i chunks s = Done tt s' ->
  s' = set_trace (trace s ++ map (EPQputCopyData t) chunks) s.
Proof.
  revert i s. induction chunks as [|c r IH]; intros i s H.
  - injection H as <-. simpl. now rewrite app_nil_r, set_trace_same.
  - cbn [put_chunks] in H. rewrite bind_emit in H.
    unfold bind at 1 in H.
    destruct (PQputCopyData w t i c =? 1); [|discriminate].
    cbn [ret] in H. apply IH in H. subst s'.
    rewrite set_trace_set_trace. cbn [trace set_trace map].
    now rewrite <- app_assoc.
Qed.

Lemma upd_same fs v f : upd fs v f v = Some f.
Proof. unfold upd. now destruct v. Qed.

Lemma upd_other fs v f v' : v <> v' -> upd fs v f v' = fs v'.
Proof. unfold upd. destruct v, v'; simpl; congruence. Qed.

Lemma copy_output_file_Done w v t s s' :
  copy_output_file w v t s = Done tt s' ->
  exists f, files s v = Some f /\ closed f = false
    /\ s' = set_trace (trace s ++ copy_effects (dbname s) t (data f ++ file_trailer))
              (set_files (upd (files s) v (seal f)) s).
Proof.
  unfold copy_output_file. intros H.
  unfold bind at 1, get_file at 1 in H.
  destruct (files s v) as [f|] eqn:Ef; [|discriminate].
  rewrite bind_get, bind_emit in H. unfold bind at 1 in H.
  destruct (PQstatus w t =? 0); [|discriminate]. cbn [ret] in H.
  unfold file_write in H. rewrite bind_assoc in H.
  unfold bind at 1, get_file at 1 in H. cbn [files set_trace] in H.
  rewrite Ef in H. destruct (closed f) eqn:Ec; [discriminate|].
  rewrite bind_modify, bind_emit in H. unfold bind at 1 in H.
  destruct (PQresultStatus w (COPY_FROM_STDIN t) =? 4); [|discriminate].
  cbn [ret] in H. unfold bind at 1, get_file at 1 in H.
  cbn [files set_trace set_files upd] in H.
  rewrite upd_same in H. apply bind_Done in H. destruct H as ([] & s1 & H1 & H).
  apply put_chunks_Done in H1. subst s1. rewrite bind_emit in H.
  unfold bind at 1 in H. destruct (PQputCopyEnd w t =? 1); [|discriminate].
  cbn [ret emit modify] in H. injection H as <-.
  exists f. repeat split; try assumption.
  unfold seal, copy_effects, set_trace, set_files. rewrite Ec.
  cbn [trace files perf_db_export_calls perf_db_export_callchains dbname
       branches output_dir_name unhandled_count].
  f_equal. rewrite <- !app_assoc. reflexivity.
Qed.

Lemma remove_output_file_eq v s :
  remove_output_file v s
  = match files s v with
    | Some f =>
        Done tt (set_trace (trace s ++ [Eclose (name f); Eunlink (name f)])
                   (set_files (upd (files s) v (close f)) s))
    | None => Fail NameError s
    end.
Proof.
  unfold remove_output_file, bind, get_file. destruct (files s v) as [f|].
  - unfold emit, modify, close, set_trace, set_files.
    cbn [trace files perf_db_export_calls perf_db_export_callchains dbname
         branches output_dir_name unhandled_count].
    now rewrite <- app_assoc.
  - reflexivity.
Qed.

(** ** What a computation leaves alone *)

Section Preserves.

Context {X : Type} (p : state -> X).

Lemma keeps_ret {A} (a : A) : preserves p (ret a).
Proof. intros s. reflexivity. Qed.

Lemma keeps_raise {A} e : preserves p (@raise A e).
Proof. intros s. reflexivity. Qed.

Lemma keeps_get : preserves p get.
Proof. intros s. reflexivity. Qed.

Lemma keeps_lift {A} (r : result A) : preserves p (lift r).
Proof. destruct r; intros s; reflexivity. Qed.

Lemma keeps_get_file v : preserves p (get_file v).
Proof. intros s. unfold get_file. now destruct (files s v). Qed.

Lemma keeps_modify f : (forall s, p (f s) = p s) -> preserves p (modify f).
Proof. intros H s. apply H. Qed.

Lemma keeps_bind {A B} (m : M A) (k : A -> M B) :
  preserves p m -> (forall a, preserves p (k a)) -> preserves p (bind m k).
Proof.
  intros Hm Hk s. unfold bind. specialize (Hm s).
  destruct (m s) as [a s1|e s1]; simpl in *; [|exact Hm].
  now rewrite Hk.
Qed.

Lemma keeps_when b m : preserves p m -> preserves p (when b m).
Proof. destruct b; [trivial | intros _; apply keeps_ret]. Qed.

Lemma keeps_try {A} (m : M A) (h : M unit) :
  preserves p m -> preserves p h -> preserves p (try_except_reraise m h).
Proof.
  intros Hm Hh s. unfold try_except_reraise. specialize (Hm s).
  destruct (m s) as [a s1|e s1]; simpl in *; [exact Hm|].
  specialize (Hh s1). destruct (h s1); simpl in *; congruence.
Qed.

End Preserves.

Ltac keeps_step :=
  lazymatch goal with
  | |- preserves _ (bind _ _) => apply keeps_bind; [|intros ?]
  | |- preserves _ (ret _) => apply keeps_ret
  | |- preserves _ (raise _) => apply keeps_raise
  | |- preserves _ get => apply keeps_get
  | |- preserves _ (lift _) => apply keeps_lift
  | |- preserves _ (get_file _) => apply keeps_get_file
  | |- preserves _ (when _ _) => apply keeps_when
  | |- preserves _ (try_except_reraise _ _) => apply keeps_try
  | |- preserves _ (emit _) => apply keeps_modify; intros ?; reflexivity
  | |- preserves _ (modify _) => apply keeps_modify; intros ?; reflexivity
  | |- preserves _ (if ?b then _ else _) => destruct b
  | |- preserves _ (match ?l with [] => _ | _ :: _ => _ end) => destruct l
  end.

Ltac keeps := repeat keeps_step.

Lemma keeps_do_query {X} (p : state -> X) w q :
  (forall t s, p (set_trace t s) = p s) -> preserves p (do_query w q).
Proof. intros H. unfold do_query. keeps. apply keeps_modify. intros s. apply H. Qed.

Lemma keeps_do_queries {X} (p : state -> X) w qs :
  (forall t s, p (set_trace t s) = p s) -> preserves p (do_queries w qs).
Proof.
  intros H. induction qs as [|q r IH]; [apply keeps_ret|].
  destruct r as [|q' r']; [now apply keeps_do_query|].
  change (preserves p (bind (do_query w q) (fun _ => do_queries w (q' :: r')))).
  apply keeps_bind; [now apply keeps_do_query | intros _; exact IH].
Qed.

(** The phases that leave the files, the tally or the configuration alone. *)
Lemma keeps_parse_options {X} (p : state -> X) opts :
  (forall t s, p (set_trace t s) = p s) ->
  (forall b s, p (set_calls b s) = p s) ->
  (forall b s, p (set_callchains b s) = p s) ->
  preserves p (parse_options opts).
Proof.
  intros H1 H2 H3. induction opts as [|o r IH]; [apply keeps_ret|].
  cbn [parse_options]. unfold usage.
  keeps; try exact IH; apply keeps_modify; intros s; auto.
Qed.

Lemma keeps_parse_args {X} (p : state -> X) argv :
  (forall t s, p (set_trace t s) = p s) ->
  (forall b s, p (set_calls b s) = p s) ->
  (forall b s, p (set_callchains b s) = p s) ->
  (forall b s, p (set_dbname b s) = p s) ->
  (forall b s, p (set_branches b s) = p s) ->
  preserves p (parse_args argv).
Proof.
  intros H1 H2 H3 H4 H5. unfold parse_args, usage.
  apply keeps_bind; [keeps; apply keeps_modify; intros s; auto | intros _].
  apply keeps_bind; [apply keeps_modify; intros s; auto | intros _].
  apply keeps_bind; [keeps; apply keeps_modify; intros s; auto | intros _].
  apply keeps_bind; [apply keeps_modify; intros s; auto | intros _].
  now apply keeps_parse_options.
Qed.

Lemma keeps_create_database {X} (p : state -> X) w :
  (forall t s, p (set_trace t s) = p s) ->
  (forall b s, p (set_output_dir_name b s) = p s) ->
  preserves p (create_database w).
Proof.
  intros H1 H2. unfold create_database.
  keeps; try (now apply keeps_do_query); apply keeps_modify; intros s; auto.
Qed.

Lemma keeps_create_schema {X} (p : state -> X) w :
  (forall t s, p (set_trace t s) = p s) -> preserves p (create_schema w).
Proof.
  intros H s. rewrite create_schema_eq.
  apply (keeps_bind p (emit _) (fun _ => do_queries w (schema s))).
  - apply keeps_modify. intros s0. apply H.
  - intros _. now apply keeps_do_queries.
Qed.

Lemma keeps_primary_keys {X} (p : state -> X) w :
  (forall t s, p (set_trace t s) = p s) -> preserves p (primary_keys w).
Proof.
  intros H s. rewrite primary_keys_eq.
  apply (keeps_bind p (emit _)
           (fun _ => do_queries w (map ADD_PRIMARY_KEY (tables s)))).
  - apply keeps_modify. intros s0. apply H.
  - intros _. now apply keeps_do_queries.
Qed.

Lemma keeps_foreign_keys {X} (p : state -> X) w :
  (forall t s, p (set_trace t s) = p s) -> preserves p (foreign_keys w).
Proof.
  intros H s. rewrite foreign_keys_eq.
  apply (keeps_bind p (emit _) (fun _ => do_queries w (constraints s))).
  - apply keeps_modify. intros s0. apply H.
  - intros _. now apply keeps_do_queries.
Qed.

Lemma keeps_report {X} (p : state -> X) :
  (forall t s, p (set_trace t s) = p s) -> preserves p report.
Proof.
  intros H. unfold report. keeps; apply keeps_modify; intros s0; apply H.
Qed.

Lemma keeps_open_output_files {X} (p : state -> X) :
  (forall t s, p (set_trace t s) = p s) ->
  (forall t s, p (set_files t s) = p s) ->
  preserves p open_output_files.
Proof.
  intros H1 H2. unfold open_output_files, open_output_file.
  keeps; apply keeps_modify; intros s0; auto.
Qed.

Lemma keeps_file_write {X} (p : state -> X) v b :
  (forall t s, p (set_files t s) = p s) -> preserves p (file_write v b).
Proof.
  intros H. unfold file_write. keeps. apply keeps_modify. intros s. apply H.
Qed.

Lemma keeps_put_chunks {X} (p : state -> X) w t chunks i :
  (forall t s, p (set_trace t s) = p s) ->
  preserves p (put_chunks w t i chunks).
Proof.
  intros H. revert i. induction chunks as [|c r IH]; intros i;
    [apply keeps_ret|].
  cbn [put_chunks]. keeps; try apply IH. apply keeps_modify. intros s. apply H.
Qed.

Lemma keeps_copy_output_file {X} (p : state -> X) w v t :
  (forall t s, p (set_trace t s) = p s) ->
  (forall t s, p (set_files t s) = p s) ->
  preserves p (copy_output_file w v t).
Proof.
  intros H1 H2. unfold copy_output_file.
  keeps; try (now apply keeps_file_write); try (now apply keeps_put_chunks);
    apply keeps_modify; intros s; auto.
Qed.

Lemma keeps_copy_phase {X} (p : state -> X) w :
  (forall t s, p (set_trace t s) = p s) ->
  (forall t s, p (set_files t s) = p s) ->
  preserves p (copy_phase w).
Proof.
  intros H1 H2. unfold copy_phase.
  keeps; try (now apply keeps_copy_output_file);
    apply keeps_modify; intros s; auto.
Qed.

Lemma keeps_remove_phase {X} (p : state -> X) :
  (forall t s, p (set_trace t s) = p s) ->
  (forall t s, p (set_files t s) = p s) ->
  preserves p remove_phase.
Proof.
  intros H1 H2. unfold remove_phase, remove_output_file.
  keeps; apply keeps_modify; intros s; auto.
Qed.

Lemma keeps_trace_end {X} (p : state -> X) w :
  (forall t s, p (set_trace t s) = p s) ->
  (forall t s, p (set_files t s) = p s) ->
  preserves p (trace_end w).
Proof.
  intros H1 H2. unfold trace_end.
  repeat (apply keeps_bind; [|intros _]);
    auto using keeps_copy_phase, keeps_remove_phase, keeps_primary_keys,
      keeps_foreign_keys, keeps_report.
Qed.

Lemma preserves_Done {A X} (p : state -> X) (m : M A) s a s' :
  preserves p m -> m s = Done a s' -> p s' = p s.
Proof. intros H E. specialize (H s). now rewrite E in H. Qed.

(** ** The encoding phase *)

Lemma sink_beq_eq v v' : sink_beq v v' = true <-> v = v'.
Proof. destruct v, v'; simpl; split; congruence. Qed.

Lemma file_write_eq v b s :
  file_write v b s
  = match files s v with
    | None => Fail NameError s
    | Some f => if closed f then Fail ValueError s
                else Done tt (set_files (upd (files s) v (append b f)) s)
    end.
Proof.
  unfold file_write, bind, get_file, append.
  destruct (files s v) as [f|]; [|reflexivity].
  now destruct (closed f).
Qed.

Lemma bind_lift {A B} (r : result A) (k : A -> M B) s :
  bind (lift r) k s = match r with Ok a => k a s | Raise e => Fail e s end.
Proof. now destruct r. Qed.

Lemma handle_eq c s :
  handle c s
  = match target c with
    | Some v => match payload (branches s) c with
                | Ok b => file_write v b s
                | Raise e => Fail e s
                end
    | None => match c with
              | call_trace_unhandled [_; _; _] =>
                  Done tt (set_unhandled_count (unhandled_count s + 1) s)
              | call_trace_unhandled _ => Fail TypeError s
              | _ => Done tt s
              end
    end.
Proof.
  destruct c; cbn [handle target payload];
    try (unfold evsel_table, machine_table, thread_table, comm_table,
           comm_thread_table, dso_table, symbol_table, branch_type_table,
           sample_table, call_path_table, call_return_table;
         rewrite ?bind_get; apply bind_lift).
  - unfold trace_unhandled.
    destruct args as [|a [|b [|c [|d r]]]]; reflexivity.
  - reflexivity.
Qed.

Lemma handle_Done c s s' :
  handle c s = Done tt s' ->
  match target c with
  | Some v =>
      exists b f, payload (branches s) c = Ok b /\ files s v = Some f
                  /\ closed f = false
                  /\ s' = set_files (upd (files s) v (append b f)) s
  | None =>
      match c with
      | call_trace_unhandled _ =>
          s' = set_unhandled_count (unhandled_count s + 1) s
      | _ => s' = s
      end
  end.
Proof.
  rewrite handle_eq. destruct (target c) as [v|] eqn:Et.
  - destruct (payload (branches s) c) as [b|]; [|discriminate].
    rewrite file_write_eq. destruct (files s v) as [f|]; [|discriminate].
    destruct (closed f) eqn:Ec; [discriminate|]. intros [= <-].
    now exists b, f.
  - destruct c; try discriminate Et.
    + destruct args as [|a [|b [|c [|d r]]]]; try discriminate.
      now intros [= <-].
    + now intros [= <-].
Qed.

Lemma keeps_handle {X} (p : state -> X) c :
  (forall t s, p (set_files t s) = p s) ->
  (forall t s, p (set_unhandled_count t s) = p s) ->
  preserves p (handle c).
Proof.
  intros H1 H2 s. rewrite handle_eq. destruct (target c) as [v|].
  - destruct (payload (branches s) c); [|reflexivity].
    now apply keeps_file_write.
  - destruct c; try reflexivity.
    destruct args as [|a [|b [|c [|d r]]]]; try reflexivity. apply H2.
Qed.

Lemma keeps_handle_all {X} (p : state -> X) cs :
  (forall t s, p (set_files t s) = p s) ->
  (forall t s, p (set_unhandled_count t s) = p s) ->
  preserves p (handle_all cs).
Proof.
  intros H1 H2. induction cs as [|c r IH]; [apply keeps_ret|].
  cbn [handle_all]. apply keeps_bind; [now apply keeps_handle | intros _; exact IH].
Qed.

Lemma handle_all_app a b s :
  handle_all (a ++ b) s = (handle_all a ;; handle_all b) s.
Proof.
  revert s. induction a as [|c r IH]; intros s; [reflexivity|].
  cbn [app handle_all]. rewrite bind_assoc. apply bind_congr.
  intros _ s1. apply IH.
Qed.

Lemma trace_begin_eq s :
  trace_begin s
  = (emit (Eprint Writing_to_intermediate_files) ;;
     handle_all (sentinel_calls s)) s.
Proof.
  unfold trace_begin, sentinel_calls. rewrite bind_get.
  flags s; cbn [when orb app handle_all]; same_steps.
Qed.

Lemma encode_eq cs s :
  encode cs s
  = (emit (Eprint Writing_to_intermediate_files) ;;
     handle_all (sentinel_calls s ++ cs)) s.
Proof.
  unfold encode. unfold bind at 1. rewrite trace_begin_eq.
  rewrite !bind_emit. rewrite handle_all_app. reflexivity.
Qed.

(** The callbacks leave the trace alone, count the unhandled events, and
    append to each file the rows addressed to it. *)
Lemma handle_all_Done cs s s' :
  handle_all cs s = Done tt s' ->
  trace s' = trace s
  /\ config s' = config s
  /\ unhandled_count s' = unhandled_count s + unhandled_events cs
  /\ forall v,
       match files s v with
       | Some f =>
           files s' v
           = Some (append (concat (map wire_row (rows_for (branches s) v cs))) f)
           /\ Forall (Forall field_ok) (rows_for (branches s) v cs)
       | None => files s' v = None
       end.
Proof.
  revert s. induction cs as [|c r IH]; intros s H.
  - injection H as <-. split; [reflexivity|]. split; [reflexivity|].
    split; [simpl; lia|]. intros v.
    destruct (files s v) as [f|]; [|reflexivity]. split; [|constructor].
    unfold append. simpl. rewrite app_nil_r. now destruct f.
  - cbn [handle_all] in H. apply bind_Done in H.
    destruct H as ([] & s1 & Hc & Hr). apply IH in Hr.
    destruct Hr as (Ht & Hg & Hu & Hf). apply handle_Done in Hc.
    cbn [rows_for unhandled_events].
    destruct (target c) as [v0|] eqn:Et.
    + destruct Hc as (b & f0 & Hb & Hf0 & Hc0 & ->).
      destruct (payload_layout _ _ _ _ Et Hb) as [-> Hok].
      assert (Hun : unhandled_events (c :: r) = unhandled_events r)
        by (destruct c; try reflexivity; discriminate Et).
      cbn [unhandled_events] in Hun. rewrite Hun.
      split; [exact Ht|]. split; [exact Hg|]. split; [exact Hu|].
      intros v. specialize (Hf v).
      cbn [files set_files branches] in Hf.
      destruct (sink_beq v0 v) eqn:Ev.
      * apply sink_beq_eq in Ev. subst v0. rewrite upd_same in Hf.
        rewrite Hf0. destruct Hf as [Hf Hrows]. split; [|now constructor].
        rewrite Hf. unfold append. cbn [name data closed map concat].
        now rewrite app_assoc.
      * rewrite upd_other in Hf; [exact Hf|].
        intros ->. rewrite (proj2 (sink_beq_eq v v) eq_refl) in Ev.
        discriminate.
    + assert (Hs : trace s1 = trace s /\ config s1 = config s
                   /\ files s1 = files s /\ branches s1 = branches s
                   /\ unhandled_count s1 + unhandled_events r
                      = unhandled_count s + unhandled_events (c :: r)).
      { destruct c; try discriminate Et; subst s1;
          (repeat split; try reflexivity;
           cbn [unhandled_count set_unhandled_count unhandled_events]; lia). }
      destruct Hs as (E1 & E2 & E3 & E4 & E5).
      cbn [unhandled_events] in E5.
      rewrite E1 in Ht. rewrite E2 in Hg. rewrite E3, E4 in Hf.
      rewrite E5 in Hu. split; [exact Ht|]. split; [exact Hg|].
      split; [exact Hu|exact Hf].
Qed.

(** ** The command line and the module body *)

Lemma bind_usage {A B} (k : A -> M B) s :
  bind usage k s
  = Fail (Exception_ "Too few arguments")
         (set_trace (trace s ++ [Estderr_usage]) s).
Proof. reflexivity. Qed.

Lemma parse_options_spec opts s :
  match parse_options opts s with
  | Done _ s' => forallb option_ok opts = true /\ trace s' = trace s
  | Fail e s' => forallb option_ok opts = false
                 /\ e = Exception_ "Too few arguments"
                 /\ trace s' = trace s ++ [Estderr_usage]
  end.
Proof.
  revert s. induction opts as [|o r IH]; intros s; [now split|].
  cbn [parse_options].
  change (forallb option_ok (o :: r))
    with (((o =? "calls") || (o =? "callchains"))%string
          && forallb option_ok r).
  destruct (o =? "calls")%string; cbn [orb andb].
  - rewrite bind_modify. specialize (IH (set_calls true s)).
    destruct (parse_options r (set_calls true s)); exact IH.
  - destruct (o =? "callchains")%string; cbn [orb andb].
    + rewrite bind_modify. specialize (IH (set_callchains true s)).
      destruct (parse_options r (set_callchains true s)); exact IH.
    + rewrite bind_usage. now split.
Qed.

Lemma valid_argv_unfold argv :
  valid_argv argv
  = negb (length argv <? 2)%nat
    && (let columns := if (3 <=? length argv)%nat then nth 2 argv "" else "all" in
        (columns =? "all") || (columns =? "branches"))%string
    && forallb option_ok (skipn 3 argv).
Proof.
  unfold valid_argv. f_equal. f_equal.
  - destruct argv as [|a [|b r]]; reflexivity.
  - destruct argv as [|a [|b [|c r]]]; reflexivity.
Qed.

Lemma parse_args_spec argv s :
  match parse_args argv s with
  | Done _ s' =>
      valid_argv argv = true /\ trace s' = trace s
      /\ dbname s' = nth 1 argv ""
  | Fail e s' =>
      valid_argv argv = false /\ e = Exception_ "Too few arguments"
      /\ trace s' = trace s ++ [Estderr_usage]
  end.
Proof.
  rewrite valid_argv_unfold. unfold parse_args.
  destruct (length argv <? 2)%nat; cbv iota.
  { rewrite bind_usage. now split. }
  rewrite bind_ret, bind_modify. cbv zeta.
  destruct ((_ =? "all") || (_ =? "branches"))%string; cbn [negb]; cbv iota.
  2: { rewrite bind_usage. now split. }
  rewrite bind_ret, bind_modify.
  pose proof (parse_options_spec (skipn 3 argv)
                (set_branches
                   ((if (3 <=? length argv)%nat then nth 2 argv "" else "all")
                    =? "branches")%string
                   (set_dbname (nth 1 argv "") s))) as H.
  pose proof (keeps_parse_options dbname (skipn 3 argv)
                (fun _ _ => eq_refl) (fun _ _ => eq_refl) (fun _ _ => eq_refl)
                (set_branches
                   ((if (3 <=? length argv)%nat then nth 2 argv "" else "all")
                    =? "branches")%string
                   (set_dbname (nth 1 argv "") s))) as K.
  destruct (parse_options _ _) as [[] s'|e s']; cbn [final] in K.
  - destruct H as [-> H]. split; [reflexivity|]. split; [exact H | exact K].
  - destruct H as (-> & -> & H). split; [reflexivity|]. now split.
Qed.

Lemma create_database_spec w s :
  let d := (getcwd w ++ "/" ++ dbname s ++ "-perf-data")%string in
  match create_database w s with
  | Done _ s' =>
      mkdir_ok w d = true
      /\ s' = set_trace (trace s ++ [Emkdir d; Eprint Creating_database;
                                     Edb_open "postgres";
                                     Eexec (CREATE_DATABASE (dbname s));
                                     Edb_close])
                (set_output_dir_name d s)
  | Fail e s' =>
      (mkdir_ok w d = false /\ trace s' = trace s)
      \/ (exec_ok w (CREATE_DATABASE (dbname s)) = false
          /\ trace s' = trace s ++ [Emkdir d; Eprint Creating_database;
                                    Edb_open "postgres";
                                    Eexec (CREATE_DATABASE (dbname s));
                                    Ermdir d])
  end.
Proof.
  intros d. unfold create_database. rewrite bind_get, bind_modify. fold d.
  destruct (mkdir_ok w d); [|left; now split].
  rewrite !bind_emit. unfold bind at 1, try_except_reraise.
  rewrite do_query_eq. destruct (exec_ok w (CREATE_DATABASE (dbname s))).
  - split; [reflexivity|]. unfold emit, modify, set_trace, set_output_dir_name.
    cbn [trace files perf_db_export_calls perf_db_export_callchains dbname
         branches output_dir_name unhandled_count].
    now rewrite <- !app_assoc.
  - right. split; [reflexivity|]. unfold emit, modify.
    cbn [final trace set_trace]. now rewrite <- !app_assoc.
Qed.

Lemma open_output_files_eq s : open_output_files s = open_all (sinks s) s.
Proof.
  unfold open_output_files, sinks. rewrite bind_get.
  flags s; cbn [when orb app open_all]; same_steps.
Qed.

Lemma in_use_sinks s v : in_use s v = existsb (sink_beq v) (sinks s).
Proof. unfold in_use, sinks. flags s; destruct v; reflexivity. Qed.

Lemma open_all_spec l s :
  exists s',
    open_all l s = Done tt s'
    /\ config s' = config s /\ unhandled_count s' = unhandled_count s
    /\ trace s'
       = trace s
         ++ map (fun v => Eopen (output_dir_name s ++ "/" ++ file_name_of v)) l
    /\ forall v,
         files s' v
         = if existsb (sink_beq v) l
           then Some (File (output_dir_name s ++ "/" ++ file_name_of v)
                           file_header false)
           else files s v.
Proof.
  revert s. induction l as [|v0 r IH]; intros s.
  - exists s. repeat split; try reflexivity. simpl. now rewrite app_nil_r.
  - cbn [open_all]. unfold open_output_file at 1.
    rewrite bind_assoc, bind_get, bind_assoc, bind_emit, bind_modify.
    match goal with
    | |- context [open_all r ?s1] =>
        destruct (IH s1) as (s' & E & Hc & Hu & Ht & Hf)
    end.
    exists s'. split; [exact E|]. split; [exact Hc|]. split; [exact Hu|].
    split.
    { rewrite Ht. cbn [trace set_files set_trace output_dir_name map].
      now rewrite <- app_assoc. }
    intros v. rewrite Hf. cbn [existsb files set_files set_trace output_dir_name].
    destruct (existsb (sink_beq v) r); [now rewrite orb_true_r|].
    rewrite orb_false_r. destruct (sink_beq v v0) eqn:Ev.
    + apply sink_beq_eq in Ev. subst v0. apply upd_same.
    + apply upd_other. intros ->.
      rewrite (proj2 (sink_beq_eq v v) eq_refl) in Ev. discriminate.
Qed.

Lemma open_output_files_spec s :
  exists s',
    open_output_files s = Done tt s'
    /\ config s' = config s /\ unhandled_count s' = unhandled_count s
    /\ trace s'
       = trace s
         ++ map (fun v => Eopen (output_dir_name s ++ "/" ++ file_name_of v))
                (sinks s)
    /\ forall v,
         files s' v
         = if in_use s v
           then Some (File (output_dir_name s ++ "/" ++ file_name_of v)
                           file_header false)
           else files s v.
Proof.
  destruct (open_all_spec (sinks s) s) as (s' & E & Hc & Hu & Ht & Hf).
  exists s'. rewrite open_output_files_eq. split; [exact E|].
  split; [exact Hc|]. split; [exact Hu|]. split; [exact Ht|]. intros v.
  now rewrite in_use_sinks.
Qed.

Lemma config_eq s s' :
  config s' = config s ->
  perf_db_export_calls s' = perf_db_export_calls s
  /\ perf_db_export_callchains s' = perf_db_export_callchains s
  /\ dbname s' = dbname s /\ branches s' = branches s
  /\ output_dir_name s' = output_dir_name s.
Proof. unfold config. intros [= -> -> -> -> ->]. now repeat split. Qed.

Lemma config_uses s s' :
  config s' = config s ->
  schema s' = schema s /\ tables s' = tables s /\ sinks s' = sinks s
  /\ constraints s' = constraints s /\ in_use s' = in_use s
  /\ sentinel_calls s' = sentinel_calls s.
Proof.
  intros H. apply config_eq in H. destruct H as (E1 & E2 & E3 & E4 & E5).
  unfold schema, tables, sinks, constraints, in_use, sentinel_calls.
  rewrite E1, E2, E4. now repeat split.
Qed.

Lemma create_database_Done w s s' :
  create_database w s = Done tt s' ->
  let d := (getcwd w ++ "/" ++ dbname s ++ "-perf-data")%string in
  mkdir_ok w d = true
  /\ trace s' = trace s ++ [Emkdir d; Eprint Creating_database;
                            Edb_open "postgres";
                            Eexec (CREATE_DATABASE (dbname s)); Edb_close]
  /\ config s' = (perf_db_export_calls s, perf_db_export_callchains s,
                  dbname s, branches s, d)
  /\ files s' = files s /\ unhandled_count s' = unhandled_count s.
Proof.
  intros H d. pose proof (create_database_spec w s) as P. cbv zeta in P.
  rewrite H in P. destruct P as (Hm & ->). now repeat split.
Qed.

Lemma create_schema_Done w s s' :
  create_schema w s = Done tt s' ->
  trace s' = trace s ++ Edb_open (dbname s) :: map Eexec (schema s)
  /\ config s' = config s /\ files s' = files s
  /\ unhandled_count s' = unhandled_count s.
Proof.
  rewrite create_schema_eq, bind_emit. intros H. apply do_queries_Done in H.
  destruct H as (-> & _). cbn [trace set_trace]. split.
  - now rewrite <- app_assoc.
  - now repeat split.
Qed.

(** A module body that runs to its end. *)
Lemma main_Done w argv s s1 :
  main w argv s = Done tt s1 ->
  valid_argv argv = true
  /\ mkdir_ok w (output_dir_name s1) = true
  /\ dbname s1 = nth 1 argv ""
  /\ output_dir_name s1
     = (getcwd w ++ "/" ++ nth 1 argv "" ++ "-perf-data")%string
  /\ unhandled_count s1 = unhandled_count s
  /\ trace s1 = trace s ++ setup_trace s1
  /\ forall v,
       files s1 v
       = if in_use s1 v
         then Some (File (output_dir_name s1 ++ "/" ++ file_name_of v)
                         file_header false)
         else files s v.
Proof.
  unfold main. intros H.
  apply bind_Done in H. destruct H as ([] & sa & Ha & H).
  apply bind_Done in H. destruct H as ([] & sb & Hb & H).
  apply bind_Done in H. destruct H as ([] & sc & Hc & H).
  pose proof (parse_args_spec argv s) as Pa. rewrite Ha in Pa.
  destruct Pa as (Hv & Hta & Hda).
  pose proof (preserves_Done files _ _ _ _
                (keeps_parse_args files argv (fun _ _ => eq_refl)
                   (fun _ _ => eq_refl) (fun _ _ => eq_refl)
                   (fun _ _ => eq_refl) (fun _ _ => eq_refl)) Ha) as Hfa.
  pose proof (preserves_Done unhandled_count _ _ _ _
                (keeps_parse_args unhandled_count argv (fun _ _ => eq_refl)
                   (fun _ _ => eq_refl) (fun _ _ => eq_refl)
                   (fun _ _ => eq_refl) (fun _ _ => eq_refl)) Ha) as Hua.
  apply create_database_Done in Hb. cbv zeta in Hb.
  destruct Hb as (Hm & Htb & Hcb & Hfb & Hub).
  apply create_schema_Done in Hc. destruct Hc as (Htc & Hcc & Hfc & Huc).
  destruct (open_output_files_spec sc) as (s1' & E & Hc1 & Hu1 & Ht1 & Hf1).
  rewrite H in E. injection E as <-.
  assert (Hcfg : config s1 = config sb) by congruence.
  destruct (config_uses _ _ Hcfg) as (Es & _ & Ek & _ & Eu & _).
  destruct (config_uses _ _ Hcc) as (_ & _ & _ & _ & Eu' & _).
  destruct (config_eq _ _ Hcfg) as (_ & _ & Ed & _ & Eo).
  destruct (config_eq _ _ Hcc) as (_ & _ & Ed' & _ & Eo').
  assert (Eob : output_dir_name sb
                = (getcwd w ++ "/" ++ dbname sa ++ "-perf-data")%string)
    by (unfold config in Hcb; congruence).
  assert (Edb : dbname sb = dbname sa) by (unfold config in Hcb; congruence).
  split; [exact Hv|]. split; [congruence|]. split; [congruence|].
  split; [congruence|]. split; [congruence|]. split.
  - rewrite Ht1, Htc, Htb, Hta. unfold setup_trace.
    destruct (config_uses _ _ Hcc) as (_ & _ & Ek' & _).
    rewrite Es, Ek, Eo, Ed, ?Eo', ?Ek', ?Eob, ?Edb.
    rewrite <- !app_assoc. reflexivity.
  - intros v. rewrite Hf1, Eu, <- Eu', Eo, <- Eo'. now rewrite Hfc, Hfb, Hfa.
Qed.

(** ** The load, the removal and the keys *)

Lemma copy_all_cons w v r s :
  copy_all w (v :: r) s
  = (copy_output_file w v (table_of v) ;; copy_all w r) s.
Proof. destruct r; [symmetry; apply bind_ret_r | reflexivity]. Qed.

Lemma flat_map_ext_in {A B} (f g : A -> list B) l :
  (forall a, In a l -> f a = g a) -> flat_map f l = flat_map g l.
Proof.
  induction l as [|a r IH]; intros H; [reflexivity|]. simpl.
  rewrite H by now left. rewrite IH; [reflexivity|]. intros b Hb. apply H.
  now right.
Qed.

Lemma sink_beq_refl v : sink_beq v v = true.
Proof. now destruct v. Qed.

Lemma sink_beq_neq v v' : v <> v' -> sink_beq v v' = false.
Proof.
  intros H. destruct (sink_beq v v') eqn:E; [|reflexivity].
  apply sink_beq_eq in E. contradiction.
Qed.

Lemma existsb_sink_In v l : existsb (sink_beq v) l = true <-> In v l.
Proof.
  rewrite existsb_exists. split.
  - intros (x & Hx & E). apply sink_beq_eq in E. now subst.
  - intros H. exists v. split; [exact H | apply sink_beq_refl].
Qed.

Lemma copy_all_Done w l s s' :
  copy_all w l s = Done tt s' -> NoDup l ->
  trace s' = trace s ++ load_trace s l
  /\ config s' = config s /\ unhandled_count s' = unhandled_count s
  /\ (forall v, In v l -> exists f, files s v = Some f /\ closed f = false)
  /\ (forall v, files s' v
                = if existsb (sink_beq v) l then option_map seal (files s v)
                  else files s v).
Proof.
  revert s. induction l as [|v0 r IH]; intros s H ND.
  - injection H as <-. unfold load_trace. simpl. rewrite app_nil_r.
    repeat split; try reflexivity. intros v [].
  - rewrite copy_all_cons in H. apply bind_Done in H.
    destruct H as ([] & s1 & H0 & H). inversion ND as [|? ? Hn ND']; subst.
    apply copy_output_file_Done in H0. destruct H0 as (f0 & Hf0 & Hc0 & ->).
    apply IH in H; [|exact ND']. destruct H as (Ht & Hc & Hu & Hin & Hf).
    cbn [trace set_trace set_files files dbname] in *.
    assert (Hsame : forall v, In v r ->
              sealed_data
                (set_trace
                   (trace s ++ copy_effects (dbname s) (table_of v0)
                                 (data f0 ++ file_trailer))
                   (set_files (upd (files s) v0 (seal f0)) s)) v
              = sealed_data s v).
    { intros v Hv. unfold sealed_data. cbn [files set_trace set_files].
      rewrite upd_other; [reflexivity|]. intros ->. contradiction. }
    split.
    { rewrite Ht. unfold load_trace. cbn [flat_map dbname set_trace set_files].
      rewrite <- app_assoc. f_equal. f_equal.
      - unfold sealed_data. now rewrite Hf0.
      - apply flat_map_ext_in. intros v Hv. now rewrite Hsame. }
    split; [exact Hc|]. split; [exact Hu|]. split.
    { intros v [<-|Hv]; [now exists f0|].
      destruct (Hin v Hv) as (f & Hf1 & Hc1). exists f. split; [|exact Hc1].
      rewrite upd_other in Hf1; [exact Hf1|]. intros ->. contradiction. }
    intros v. rewrite Hf. cbn [existsb].
    destruct (sink_beq v v0) eqn:Ev.
    + apply sink_beq_eq in Ev. subst v0. rewrite upd_same, Hf0. cbn [orb].
      destruct (existsb (sink_beq v) r) eqn:Er; [|reflexivity].
      apply existsb_sink_In in Er. contradiction.
    + cbn [orb]. rewrite upd_other; [reflexivity|]. intros ->.
      now rewrite sink_beq_refl in Ev.
Qed.

Lemma remove_all_Done {l} {k : M unit} {s a s'} :
  remove_all l k s = Done a s' -> NoDup l ->
  exists s1,
    k s1 = Done a s'
    /\ trace s1 = trace s ++ remove_trace s l
    /\ config s1 = config s /\ unhandled_count s1 = unhandled_count s
    /\ (forall v, In v l -> files s v <> None)
    /\ (forall v, files s1 v
                  = if existsb (sink_beq v) l then option_map close (files s v)
                    else files s v).
Proof.
  revert s. induction l as [|v0 r IH]; intros s H ND.
  - exists s. unfold remove_trace. simpl. rewrite app_nil_r.
    repeat split; try assumption; try reflexivity. intros v [].
  - cbn [remove_all] in H. unfold bind at 1 in H.
    rewrite remove_output_file_eq in H.
    destruct (files s v0) as [f0|] eqn:Hf0; [|discriminate].
    inversion ND as [|? ? Hn ND']; subst.
    apply IH in H; [|exact ND'].
    destruct H as (s1 & Hk & Ht & Hc & Hu & Hin & Hf).
    cbn [trace set_trace set_files files] in *.
    exists s1. split; [exact Hk|]. split.
    { rewrite Ht. unfold remove_trace. cbn [flat_map].
      assert (Hp : path_of s v0 = name f0) by (unfold path_of; now rewrite Hf0).
      rewrite Hp, <- app_assoc. cbn [app]. do 3 f_equal.
      apply flat_map_ext_in. intros v Hv.
      unfold path_of. cbn [files set_trace set_files].
      rewrite upd_other; [reflexivity|]. intros ->. contradiction. }
    split; [exact Hc|]. split; [exact Hu|]. split.
    { intros v [<-|Hv]; [congruence|]. specialize (Hin v Hv).
      rewrite upd_other in Hin; [exact Hin|]. intros ->. contradiction. }
    intros v. rewrite Hf. cbn [existsb].
    destruct (sink_beq v v0) eqn:Ev.
    + apply sink_beq_eq in Ev. subst v0. rewrite upd_same, Hf0. cbn [orb].
      destruct (existsb (sink_beq v) r) eqn:Er; [|reflexivity].
      apply existsb_sink_In in Er. contradiction.
    + cbn [orb]. rewrite upd_other; [reflexivity|]. intros ->.
      now rewrite sink_beq_refl in Ev.
Qed.

Lemma NoDup_sinks s : NoDup (sinks s).
Proof.
  unfold sinks. flags s; cbn [orb app];
    repeat (constructor; [simpl; intuition discriminate|]); constructor.
Qed.

Lemma copy_phase_Done w s s' :
  copy_phase w s = Done tt s' ->
  trace s' = trace s ++ Eprint Copying_to_database :: load_trace s (sinks s)
  /\ config s' = config s /\ unhandled_count s' = unhandled_count s
  /\ (forall v, In v (sinks s) ->
        exists f, files s v = Some f /\ closed f = false)
  /\ (forall v, files s' v
                = if existsb (sink_beq v) (sinks s)
                  then option_map seal (files s v) else files s v).
Proof.
  rewrite copy_phase_eq, bind_emit. intros H.
  apply copy_all_Done in H; [|apply NoDup_sinks].
  destruct H as (Ht & Hc & Hu & Hin & Hf). split.
  - rewrite Ht. cbn [trace set_trace]. now rewrite <- app_assoc.
  - now repeat split.
Qed.

Lemma remove_phase_Done s s' :
  remove_phase s = Done tt s' ->
  trace s' = trace s ++ Eprint Removing_intermediate_files
                        :: remove_trace s (sinks s)
                        ++ [Ermdir (output_dir_name s)]
  /\ config s' = config s /\ unhandled_count s' = unhandled_count s
  /\ (forall v, files s' v
                = if existsb (sink_beq v) (sinks s)
                  then option_map close (files s v) else files s v).
Proof.
  rewrite remove_phase_eq, bind_emit. intros H.
  destruct (remove_all_Done H (NoDup_sinks _))
    as (s1 & Hk & Ht & Hc & Hu & _ & Hf).
  injection Hk as <-. split.
  - cbn [trace set_trace]. rewrite Ht. cbn [trace set_trace].
    rewrite <- !app_assoc. reflexivity.
  - now repeat split.
Qed.

Lemma primary_keys_Done w s s' :
  primary_keys w s = Done tt s' ->
  trace s' = trace s ++ Eprint Adding_primary_keys
                        :: map Eexec (map ADD_PRIMARY_KEY (tables s))
  /\ config s' = config s /\ unhandled_count s' = unhandled_count s
  /\ files s' = files s.
Proof.
  rewrite primary_keys_eq, bind_emit. intros H. apply do_queries_Done in H.
  destruct H as (-> & _). cbn [trace set_trace]. split.
  - now rewrite <- app_assoc.
  - now repeat split.
Qed.

Lemma foreign_keys_Done w s s' :
  foreign_keys w s = Done tt s' ->
  trace s' = trace s ++ Eprint Adding_foreign_keys
                        :: map Eexec (constraints s)
  /\ config s' = config s /\ unhandled_count s' = unhandled_count s
  /\ files s' = files s.
Proof.
  rewrite foreign_keys_eq, bind_emit. intros H. apply do_queries_Done in H.
  destruct H as (-> & _). cbn [trace set_trace]. split.
  - now rewrite <- app_assoc.
  - now repeat split.
Qed.

Lemma report_eq s :
  report s = Done tt (set_trace (trace s ++ report_trace s) s).
Proof.
  unfold report, report_trace. rewrite bind_get.
  destruct (unhandled_count s =? 0); cbn [negb when].
  - reflexivity.
  - rewrite bind_emit. unfold emit, modify. cbn [trace set_trace].
    rewrite set_trace_set_trace. now rewrite <- app_assoc.
Qed.

(** A [trace_end] that runs to its end. *)
Lemma trace_end_Done w s s' :
  trace_end w s = Done tt s' ->
  trace s' = trace s ++ finish_trace s
  /\ config s' = config s /\ unhandled_count s' = unhandled_count s
  /\ forall v, in_use s v = true ->
       exists f, files s v = Some f /\ closed f = false
                 /\ files s' v = Some (close (seal f)).
Proof.
  unfold trace_end. intros H.
  apply bind_Done in H. destruct H as ([] & sa & Ha & H).
  apply bind_Done in H. destruct H as ([] & sb & Hb & H).
  apply bind_Done in H. destruct H as ([] & sc & Hc & H).
  apply bind_Done in H. destruct H as ([] & sd & Hd & H).
  apply copy_phase_Done in Ha. destruct Ha as (Hta & Hca & Hua & Hina & Hfa).
  apply remove_phase_Done in Hb. destruct Hb as (Htb & Hcb & Hub & Hfb).
  apply primary_keys_Done in Hc. destruct Hc as (Htc & Hcc & Huc & Hfc).
  apply foreign_keys_Done in Hd. destruct Hd as (Htd & Hcd & Hud & Hfd).
  rewrite report_eq in H. injection H as <-.
  assert (Cb : config sb = config s) by congruence.
  assert (Cc : config sc = config s) by congruence.
  destruct (config_uses _ _ Hca) as (_ & _ & Eka & _).
  destruct (config_eq _ _ Hca) as (_ & _ & _ & _ & Eoa).
  destruct (config_uses _ _ Cb) as (_ & Etb & _).
  destruct (config_uses _ _ Cc) as (_ & _ & _ & Ecc & _).
  assert (Hrm : remove_trace sa (sinks sa) = remove_trace s (sinks s)).
  { rewrite Eka. unfold remove_trace. apply flat_map_ext_in. intros v Hv.
    unfold path_of. rewrite Hfa.
    rewrite (proj2 (existsb_sink_In v (sinks s)) Hv).
    destruct (Hina v Hv) as (f & Hf & _). now rewrite Hf. }
  split.
  - cbn [trace set_trace]. rewrite Htd, Htc, Htb, Hta.
    unfold finish_trace, report_trace. cbn [unhandled_count set_trace].
    rewrite Hrm, Eoa, Etb, Ecc.
    replace (unhandled_count sd) with (unhandled_count s) by congruence.
    rewrite <- !app_assoc. cbn [app]. rewrite <- !app_assoc. reflexivity.
  - split; [cbn [config set_trace]; unfold config in *; cbn; congruence|].
    split; [cbn [unhandled_count set_trace]; congruence|].
    intros v Hv. rewrite in_use_sinks in Hv.
    destruct (Hina v (proj1 (existsb_sink_In _ _) Hv)) as (f & Hf & Hcl).
    exists f. split; [exact Hf|]. split; [exact Hcl|].
    cbn [files set_trace]. rewrite Hfd, Hfc, Hfb, Eka, Hv, Hfa, Hv, Hf.
    reflexivity.
Qed.

(** ** A run that reaches its end *)

Lemma unhandled_events_app a b :
  unhandled_events (a ++ b) = unhandled_events a + unhandled_events b.
Proof.
  induction a as [|c r IH]; [reflexivity|].
  destruct c; cbn [app unhandled_events]; lia.
Qed.

Lemma unhandled_events_sentinel s : unhandled_events (sentinel_calls s) = 0.
Proof. unfold sentinel_calls. flags s; reflexivity. Qed.

Lemma encode_Done cs s s' :
  encode cs s = Done tt s' ->
  trace s' = trace s ++ [Eprint Writing_to_intermediate_files]
  /\ config s' = config s
  /\ unhandled_count s' = unhandled_count s + unhandled_events cs
  /\ forall v,
       match files s v with
       | Some f =>
           files s' v
           = Some (append (concat (map wire_row
                     (rows_for (branches s) v (sentinel_calls s ++ cs)))) f)
           /\ Forall (Forall field_ok)
                     (rows_for (branches s) v (sentinel_calls s ++ cs))
       | None => files s' v = None
       end.
Proof.
  rewrite encode_eq, bind_emit. intros H. apply handle_all_Done in H.
  destruct H as (Ht & Hc & Hu & Hf).
  rewrite unhandled_events_app, unhandled_events_sentinel in Hu.
  cbn [trace set_trace files branches unhandled_count] in Ht, Hu, Hf.
  split; [exact Ht|]. split; [exact Hc|]. split; [exact Hu|exact Hf].
Qed.

Lemma run_Done w argv cs s' :
  run w argv cs initial = Done tt s' ->
  exists s2,
    valid_argv argv = true
    /\ mkdir_ok w (output_dir_name s') = true
    /\ dbname s' = nth 1 argv ""
    /\ output_dir_name s'
       = (getcwd w ++ "/" ++ nth 1 argv "" ++ "-perf-data")%string
    /\ config s2 = config s'
    /\ unhandled_count s2 = unhandled_events cs
    /\ unhandled_count s' = unhandled_events cs
    /\ trace s' = setup_trace s'
                  ++ Eprint Writing_to_intermediate_files :: finish_trace s2
    /\ forall v,
         let rows := rows_for (branches s') v (sentinel_calls s' ++ cs) in
         let path := (output_dir_name s' ++ "/" ++ file_name_of v)%string in
         if in_use s' v
         then files s2 v = Some (File path (staged rows) false)
              /\ files s' v = Some (File path (sealed rows) true)
              /\ Forall (Forall field_ok) rows
         else files s2 v = None /\ files s' v = None.
Proof.
  unfold run. intros H.
  apply bind_Done in H. destruct H as ([] & s1 & H1 & H).
  apply bind_Done in H. destruct H as ([] & s2 & H2 & H).
  apply main_Done in H1. destruct H1 as (Hv & Hm & Hd & Ho & Hu1 & Ht1 & Hf1).
  apply encode_Done in H2. destruct H2 as (Ht2 & Hc2 & Hu2 & Hf2).
  pose proof H as H3. apply trace_end_Done in H3.
  destruct H3 as (Ht3 & Hc3 & Hu3 & Hf3).
  assert (C1 : config s' = config s1) by congruence.
  destruct (config_uses _ _ C1) as (Es & _ & Ek & _ & Eu & Ec).
  destruct (config_eq _ _ C1) as (_ & _ & Edb & Ebr & Eod).
  destruct (config_uses _ _ Hc2) as (_ & _ & _ & _ & Eu2 & _).
  exists s2. split; [exact Hv|]. split; [congruence|]. split; [congruence|].
  split; [congruence|]. split; [congruence|].
  cbn [unhandled_count initial] in Hu1. split; [lia|]. split; [lia|]. split.
  - rewrite Ht3, Ht2, Ht1. cbn [trace initial app].
    unfold setup_trace. rewrite Es, Ek, Edb, Eod.
    rewrite <- !app_assoc. reflexivity.
  - intros v. cbv zeta. rewrite Eu, Ebr, Ec, Eod. specialize (Hf1 v).
    specialize (Hf2 v). destruct (in_use s1 v) eqn:Ev.
    + rewrite Hf1 in Hf2. destruct Hf2 as (Hf2 & Hok).
      assert (E2 : files s2 v
                   = Some (File (output_dir_name s1 ++ "/" ++ file_name_of v)
                                (staged (rows_for (branches s1) v
                                           (sentinel_calls s1 ++ cs))) false))
        by exact Hf2.
      split; [exact E2|]. split; [|exact Hok].
      destruct (Hf3 v) as (f & Hf & _ & Hf'); [now rewrite Eu2|].
      rewrite Hf'. rewrite E2 in Hf. injection Hf as <-. reflexivity.
    + cbn [files initial] in Hf1. rewrite Hf1 in Hf2. split; [exact Hf2|].
      unfold trace_end in H.
      apply bind_Done in H. destruct H as ([] & sa & Ha & H).
      apply bind_Done in H. destruct H as ([] & sb & Hb & H).
      apply bind_Done in H. destruct H as ([] & sc & Hc & H).
      apply bind_Done in H. destruct H as ([] & sd & Hd' & H).
      apply copy_phase_Done in Ha. destruct Ha as (_ & Hca & _ & _ & Hfa).
      apply remove_phase_Done in Hb. destruct Hb as (_ & _ & _ & Hfb).
      apply primary_keys_Done in Hc. destruct Hc as (_ & _ & _ & Hfc).
      apply foreign_keys_Done in Hd'. destruct Hd' as (_ & _ & _ & Hfd).
      rewrite report_eq in H. injection H as <-. cbn [files set_trace].
      rewrite Hfd, Hfc, Hfb, Hfa, Hf2.
      now destruct (existsb (sink_beq v) (sinks sa)),
                   (existsb (sink_beq v) (sinks s2)).
Qed.

(** ** What reaches the tables *)

Lemma copied_app t a b : copied t (a ++ b) = copied t a ++ copied t b.
Proof.
  induction a as [|e r IH]; [reflexivity|].
  destruct e; cbn [app copied]; try exact IH.
  destruct (t0 =? t)%string; [|exact IH]. now rewrite IH, app_assoc.
Qed.

Lemma copied_chunks t t' chunks :
  copied t (map (EPQputCopyData t') chunks)
  = if (t' =? t)%string then concat chunks else [].
Proof.
  induction chunks as [|c r IH]; cbn [map copied concat].
  - now destruct (t' =? t)%string.
  - rewrite IH. now destruct (t' =? t)%string.
Qed.

Lemma copied_copy_effects t db t' content :
  copied t (copy_effects db t' content)
  = if (t' =? t)%string then content else [].
Proof.
  unfold copy_effects. rewrite !copied_app, copied_chunks, concat_read_chunks.
  cbn [copied app]. rewrite app_nil_r. reflexivity.
Qed.

Lemma copied_none t tr :
  forallb (fun e => negb (is_transfer e)) tr = true -> copied t tr = [].
Proof.
  induction tr as [|e r IH]; [reflexivity|]. cbn [forallb].
  intros H. apply andb_prop in H. destruct H as [He Hr].
  destruct e; try discriminate He; cbn [copied]; now apply IH.
Qed.

Lemma table_of_eqb v v' : (table_of v =? table_of v')%string = sink_beq v v'.
Proof. destruct v, v'; reflexivity. Qed.

Lemma copied_load_trace s l v :
  NoDup l -> In v l -> copied (table_of v) (load_trace s l) = sealed_data s v.
Proof.
  unfold load_trace. induction l as [|v0 r IH]; intros ND Hin; [destruct Hin|].
  inversion ND as [|? ? Hn ND']; subst. cbn [flat_map].
  rewrite copied_app, copied_copy_effects, table_of_eqb.
  destruct Hin as [->|Hin].
  - rewrite sink_beq_refl.
    assert (E : copied (table_of v)
                  (flat_map (fun v' => copy_effects (dbname s) (table_of v')
                                         (sealed_data s v')) r) = []).
    { clear IH ND ND'. induction r as [|v1 r IH]; [reflexivity|].
      cbn [flat_map]. rewrite copied_app, copied_copy_effects, table_of_eqb.
      rewrite sink_beq_neq by (intros ->; apply Hn; now left).
      apply IH. intros H. apply Hn. now right. }
    rewrite E. apply app_nil_r.
  - rewrite sink_beq_neq by (intros ->; contradiction).
    now apply IH.
Qed.

Lemma forallb_map {A B} (P : B -> bool) (f : A -> B) l :
  forallb P (map f l) = forallb (fun a => P (f a)) l.
Proof. induction l as [|a r IH]; [reflexivity|]. simpl. now rewrite IH. Qed.

Lemma forallb_true {A} (l : list A) : forallb (fun _ => true) l = true.
Proof. now induction l. Qed.

Lemma forallb_flat_map {A B} (P : B -> bool) (f : A -> list B) l :
  (forall a, forallb P (f a) = true) -> forallb P (flat_map f l) = true.
Proof.
  intros H. induction l as [|a r IH]; [reflexivity|]. simpl.
  now rewrite forallb_app, H, IH.
Qed.

Lemma no_transfer_setup s :
  forallb (fun e => negb (is_transfer e)) (setup_trace s) = true.
Proof.
  unfold setup_trace. rewrite !forallb_app, !forallb_map. cbn [forallb].
  cbn [is_transfer negb andb]. now rewrite !forallb_true.
Qed.

Lemma no_transfer_after_load s :
  forallb (fun e => negb (is_transfer e))
    (Eprint Removing_intermediate_files :: remove_trace s (sinks s)
     ++ Ermdir (output_dir_name s)
     :: Eprint Adding_primary_keys
     :: map Eexec (map ADD_PRIMARY_KEY (tables s))
     ++ Eprint Adding_foreign_keys :: map Eexec (constraints s)
     ++ report_trace s) = true.
Proof.
  cbn [forallb is_transfer negb andb]. rewrite forallb_app.
  unfold remove_trace. rewrite forallb_flat_map by reflexivity.
  cbn [forallb is_transfer negb andb]. rewrite forallb_app, !forallb_map.
  rewrite forallb_true. cbn [forallb is_transfer negb andb].
  rewrite forallb_app, forallb_map, forallb_true. unfold report_trace.
  now destruct (unhandled_count s =? 0).
Qed.

(** The bytes a table receives in a run that reaches its end are the
    contents of its sealed staging file. *)
Lemma copied_run s' s2 v :
  trace s' = setup_trace s'
             ++ Eprint Writing_to_intermediate_files :: finish_trace s2 ->
  In v (sinks s2) ->
  copied (table_of v) (trace s') = sealed_data s2 v.
Proof.
  intros Ht Hv. rewrite Ht, copied_app, (copied_none _ _ (no_transfer_setup s')).
  cbn [app copied]. unfold finish_trace. cbn [copied].
  rewrite copied_app, copied_load_trace by (auto using NoDup_sinks).
  rewrite (copied_none _ _ (no_transfer_after_load s2)). apply app_nil_r.
Qed.

Lemma rows_for_app br v a b :
  rows_for br v (a ++ b) = rows_for br v a ++ rows_for br v b.
Proof.
  induction a as [|c r IH]; [reflexivity|]. cbn [app rows_for].
  destruct (target c) as [v'|]; [|exact IH].
  destruct (sink_beq v' v); [|exact IH]. now rewrite IH.
Qed.

Lemma rows_for_sentinel s v :
  in_use s v = true ->
  rows_for (branches s) v (sentinel_calls s)
  = match sentinel (branches s) v with
    | Some row => [row]
    | None => []
    end.
Proof.
  unfold in_use, sentinel_calls.
  flags s; destruct v; intros H; try discriminate H; reflexivity.
Qed.

(** * The claims *)

(** ** The Sample record *)







(** ** The staging files *)

Lemma run_sinks w argv cs s' :
  run w argv cs initial = Done tt s' ->
  forall v, in_use s' v = true ->
    let rows := rows_for (branches s') v (sentinel_calls s' ++ cs) in
    files s' v
    = Some (File (output_dir_name s' ++ "/" ++ file_name_of v) (sealed rows) true)
    /\ Forall (Forall field_ok) rows
    /\ copied (table_of v) (trace s') = sealed rows.
Proof.
  intros H v Hv. destruct (run_Done _ _ _ _ H)
    as (s2 & _ & _ & _ & _ & Hc & _ & _ & Ht & Hf).
  specialize (Hf v). cbv zeta in Hf. rewrite Hv in Hf.
  destruct Hf as (Hf2 & Hf' & Hok). cbv zeta. split; [exact Hf'|].
  split; [exact Hok|].
  destruct (config_uses _ _ Hc) as (_ & _ & Ek & _ & Eu & _).
  rewrite (copied_run s' s2 v Ht).
  - unfold sealed_data. now rewrite Hf2.
  - apply existsb_sink_In. now rewrite <- in_use_sinks, Eu.
Qed.



(** C2, as stated, fails: [trace_begin] writes no row for [comm_threads] and
    none for [branch_types]; in a run without events these tables receive the
    header and the end marker only. *)
Lemma sentinel_row_counterexample :
  let o := run ok_world ["export-to-postgresql.py"; "db"] [] initial in
  succeeded o = true
  /\ copied "comm_threads" (trace (final o)) = file_header ++ file_trailer
  /\ copied "branch_types" (trace (final o)) = file_header ++ file_trailer
  /\ decode_row (skipn 19 (copied "comm_threads" (trace (final o)))) = None.
Proof. vm_compute. repeat split; reflexivity. Qed.

(** C2, amended: for selected_events, machines, threads, comms, dsos, symbols,
    samples, and call_paths when enabled, the row [trace_begin] writes (id 0;
    "unknown" where the table has a text column) is the first row of the
    table at the end of the run; comm_threads, branch_types and calls get no
    such row, only the rows of the events. *)
Theorem sentinel_rows_first w argv cs s' :
  run w argv cs initial = Done tt s' ->
  forall v, in_use s' v = true ->
    match sentinel (branches s') v with
    | Some row =>
        hd_error row = Some (F64 0)
        /\ (In v [evsel_file; machine_file; comm_file; dso_file; symbol_file]
            -> In (Ftext "unknown") row)
        /\ copied (table_of v) (trace s')
           = sealed (row :: rows_for (branches s') v cs)
    | None =>
        In v [comm_thread_file; branch_type_file; call_file]
        /\ copied (table_of v) (trace s') = sealed (rows_for (branches s') v cs)
    end.
Proof.
  intros H v Hv. destruct (run_sinks _ _ _ _ H v Hv) as (_ & _ & Hc).
  cbv zeta in Hc. rewrite rows_for_app, rows_for_sentinel in Hc by exact Hv.
  destruct (sentinel (branches s') v) as [row|] eqn:Es.
  - split; [|split; [|exact Hc]].
    + destruct v; try discriminate Es; injection Es as <-; reflexivity.
    + intros Hin.
      destruct v; try discriminate Es; injection Es as <-;
        cbn [In] in *; intuition (try discriminate; auto).
  - split; [|exact Hc]. destruct v; try discriminate Es; cbn [In]; auto.
Qed.

Lemma sentinel_rows_first_witness :
  exists s',
    run ok_world ["export-to-postgresql.py"; "db"]
        [call_comm_table [VInt 1; VStr "bash"]] initial = Done tt s'
    /\ in_use s' comm_file = true
    /\ match sentinel (branches s') comm_file with
       | Some row =>
           hd_error row = Some (F64 0)
           /\ (In comm_file
                  [evsel_file; machine_file; comm_file; dso_file; symbol_file]
               -> In (Ftext "unknown") row)
           /\ copied (table_of comm_file) (trace s')
              = sealed (row :: rows_for (branches s') comm_file
                                [call_comm_table [VInt 1; VStr "bash"]])
       | None =>
           In comm_file [comm_thread_file; branch_type_file; call_file]
           /\ copied (table_of comm_file) (trace s')
              = sealed (rows_for (branches s') comm_file
                          [call_comm_table [VInt 1; VStr "bash"]])
       end.
Proof.
  eexists. split; [vm_compute; reflexivity|]. split; [reflexivity|].
  refine (sentinel_rows_first ok_world ["export-to-postgresql.py"; "db"]
            [call_comm_table [VInt 1; VStr "bash"]] _ _ comm_file _);
    vm_compute; reflexivity.
Defined.

(** ** The load phase and the schema finalization *)

Ltac effect_class :=
  let e := fresh "e" in
  let q := fresh "q" in
  intros e; destruct e as [| | | | | | | | |q| | | | |];
  try destruct q; cbn; intros; congruence.



Lemma queries_app a b : queries (a ++ b) = queries a ++ queries b.
Proof.
  induction a as [|e r IH]; [reflexivity|].
  destruct e; cbn [app queries]; try exact IH. now rewrite IH.
Qed.

Lemma queries_exec qs : queries (map Eexec qs) = qs.
Proof. induction qs as [|q r IH]; [reflexivity|]. simpl. now rewrite IH. Qed.

Lemma queries_none tr :
  forallb (fun e => negb (is_exec e)) tr = true -> queries tr = [].
Proof.
  induction tr as [|e r IH]; [reflexivity|]. cbn [forallb]. intros H.
  apply andb_prop in H. destruct H as [He Hr].
  destruct e; try discriminate He; cbn [queries]; now apply IH.
Qed.

Lemma queries_setup s :
  queries (setup_trace s) = CREATE_DATABASE (dbname s) :: schema s.
Proof.
  unfold setup_trace. cbn [app queries]. rewrite queries_app, queries_exec.
  rewrite (queries_none (map _ _)); [now rewrite app_nil_r|].
  rewrite forallb_map. apply forallb_true.
Qed.

Lemma queries_finish s :
  queries (finish_trace s) = map ADD_PRIMARY_KEY (tables s) ++ constraints s.
Proof.
  unfold finish_trace. cbn [queries]. rewrite queries_app.
  rewrite (queries_none (load_trace _ _)).
  2: { unfold load_trace. apply forallb_flat_map. intros v. unfold copy_effects.
       cbn [app forallb is_exec negb andb]. rewrite forallb_app, forallb_map.
       now rewrite forallb_true. }
  cbn [app queries]. rewrite queries_app.
  rewrite (queries_none (remove_trace _ _)).
  2: { unfold remove_trace. now apply forallb_flat_map. }
  cbn [app queries]. rewrite queries_app, queries_exec. f_equal.
  cbn [queries]. rewrite queries_app, queries_exec.
  rewrite (queries_none (report_trace _)); [apply app_nil_r|].
  unfold report_trace. now destruct (unhandled_count s =? 0).
Qed.

Lemma tables_sinks s : tables s = map table_of (sinks s).
Proof. unfold tables, sinks. flags s; reflexivity. Qed.

Lemma loaded_in_load_trace s l v :
  In v l -> In (EPQputCopyEnd (table_of v)) (load_trace s l).
Proof.
  intros H. unfold load_trace. apply in_flat_map. exists v. split; [exact H|].
  unfold copy_effects. apply in_or_app. right. apply in_or_app. right.
  now left.
Qed.

(** C4: in a run that reaches its end, no key and no index is added before
    the last bulk transfer; every table that was created and loaded gets a
    primary key on [id]; then the foreign keys are added, and nothing else
    but the index: they are the twenty-two keys of lines 615-644, less those
    of the tables that were not created, one ALTER TABLE statement for each
    table that has any, in the order of the primary keys; they come after
    all primary keys, a table's after those of the tables it references; and
    the index on [calls (parent_call_path_id)] is the last statement, present
    exactly when the [calls] table is. *)
Theorem finalize_after_load w argv cs s' :
  run w argv cs initial = Done tt s' ->
  all_before is_transfer is_finalize (trace s')
  /\ exists setup keyed fks,
       queries (trace s') = setup ++ map ADD_PRIMARY_KEY keyed ++ fks
       /\ (forall q, In q setup -> is_finalize (Eexec q) = false)
       /\ (forall t, In t keyed <-> exists cols, In (CREATE_TABLE t cols) setup)
       /\ (forall t, In t keyed -> In (EPQputCopyEnd t) (trace s'))
       /\ (forall q, In q fks -> is_add_primary_key (Eexec q) = false)
       /\ (forall q, In q fks -> is_finalize (Eexec q) = true)
       /\ added_keys fks
          = filter (fun x => existsb (String.eqb (fst x)) keyed)
              [("threads", FK "machinefk" "machine_id" "machines");
               ("threads", FK "processfk" "process_id" "threads");
               ("comm_threads", FK "commfk" "comm_id" "comms");
               ("comm_threads", FK "threadfk" "thread_id" "threads");
               ("dsos", FK "machinefk" "machine_id" "machines");
               ("symbols", FK "dsofk" "dso_id" "dsos");
               ("samples", FK "evselfk" "evsel_id" "selected_events");
               ("samples", FK "machinefk" "machine_id" "machines");
               ("samples", FK "threadfk" "thread_id" "threads");
               ("samples", FK "commfk" "comm_id" "comms");
               ("samples", FK "dsofk" "dso_id" "dsos");
               ("samples", FK "symbolfk" "symbol_id" "symbols");
               ("samples", FK "todsofk" "to_dso_id" "dsos");
               ("samples", FK "tosymbolfk" "to_symbol_id" "symbols");
               ("call_paths", FK "parentfk" "parent_id" "call_paths");
               ("call_paths", FK "symbolfk" "symbol_id" "symbols");
               ("calls", FK "threadfk" "thread_id" "threads");
               ("calls", FK "commfk" "comm_id" "comms");
               ("calls", FK "call_pathfk" "call_path_id" "call_paths");
               ("calls", FK "callfk" "call_id" "samples");
               ("calls", FK "returnfk" "return_id" "samples");
               ("calls", FK "parent_call_pathfk" "parent_call_path_id"
                           "call_paths")]
       /\ altered fks
          = filter (fun t => existsb (String.eqb t) (map fst (added_keys fks)))
                   keyed
       /\ (forall i t ks k,
             nth_error fks i = Some (ADD_CONSTRAINTS t ks) -> In k ks ->
             In (fk_ref k) keyed
             /\ (fk_ref k <> t ->
                 forall j ks',
                   nth_error fks j = Some (ADD_CONSTRAINTS (fk_ref k) ks') ->
                   (j < i)%nat))
       /\ (if perf_db_export_calls s'
           then In "calls" keyed
                /\ exists l, fks = l ++ [CREATE_INDEX "pcpid_idx" "calls"
                                           "parent_call_path_id"]
                             /\ forall q, In q l ->
                                  is_create_index (Eexec q) = false
           else ~ In "calls" keyed
                /\ forall q, In q fks -> is_create_index (Eexec q) = false).
Proof.
  intros H. split.
  { replace s' with (final (run w argv cs initial)) by now rewrite H.
    apply two_phase_all_before; [|reflexivity].
    apply run_load_then_rest; effect_class. }
  destruct (run_Done _ _ _ _ H) as (s2 & _ & _ & _ & _ & Hc & _ & _ & Ht & _).
  destruct (config_uses _ _ Hc) as (_ & Et & Ek & Ec & _).
  exists (CREATE_DATABASE (dbname s') :: schema s'), (tables s'), (constraints s').
  split.
  { rewrite Ht, queries_app, queries_setup. cbn [queries].
    rewrite queries_finish, Et, Ec. reflexivity. }
  split.
  { unfold schema. intros q Hq.
    flags s'; cbn [app orb In] in Hq;
      repeat (destruct Hq as [<-|Hq]; [reflexivity|]); destruct Hq. }
  split.
  { intros t. unfold schema, tables. split.
    - intros Hin. flags s'; cbn [app orb In] in Hin |- *;
        repeat (destruct Hin as [<-|Hin]; [eexists; tauto|]); destruct Hin.
    - intros (cols & Hin). flags s'; cbn [app orb In] in Hin |- *;
        repeat (destruct Hin as [Hin|Hin];
                [try discriminate Hin; injection Hin as <- _; tauto|]);
        destruct Hin. }
  split.
  { intros t Hin. rewrite tables_sinks in Hin. apply in_map_iff in Hin.
    destruct Hin as (v & <- & Hv). rewrite Ht. apply in_or_app. right.
    right. unfold finish_trace. right. apply in_or_app. left.
    apply loaded_in_load_trace. now rewrite Ek. }
  split.
  { unfold constraints. intros q Hq.
    flags s'; cbn [app orb In] in Hq;
      repeat (destruct Hq as [<-|Hq]; [reflexivity|]); destruct Hq. }
  split.
  { unfold constraints. intros q Hq.
    flags s'; cbn [app orb In] in Hq;
      repeat (destruct Hq as [<-|Hq]; [reflexivity|]); destruct Hq. }
  split.
  { unfold constraints, tables. flags s'; reflexivity. }
  split.
  { unfold constraints, tables. flags s'; reflexivity. }
  split.
  { unfold constraints, tables. intros i t ks k Hi Hk.
    flags s'; cbn [app orb] in Hi |- *;
      do 8 (try (destruct i as [|i]; cbn [nth_error] in Hi;
                 [try discriminate Hi; injection Hi as <- <-; cbn [In] in Hk;
                  repeat (destruct Hk as [<-|Hk];
                          [split;
                           [cbn; tauto
                           |cbn [fk_ref]; intros Hne j ks' Hj;
                            do 8 (try (destruct j as [|j];
                                       cbn [nth_error] in Hj;
                                       [try congruence; try lia|]));
                            destruct j; discriminate Hj]
                          |]); destruct Hk
                 |])); destruct i; discriminate Hi. }
  unfold tables, constraints. flags s'; cbn [app orb].
  - split; [cbn; tauto|]. eexists. split.
    + change (?a :: ?b :: ?c :: ?d :: ?e :: ?f :: ?g :: [?i])
        with ([a; b; c; d; e; f; g] ++ [i]). reflexivity.
    + intros q Hq. cbn [In] in Hq.
      repeat (destruct Hq as [<-|Hq]; [reflexivity|]); destruct Hq.
  - split; [cbn; tauto|]. eexists. split.
    + change (?a :: ?b :: ?c :: ?d :: ?e :: ?f :: ?g :: [?i])
        with ([a; b; c; d; e; f; g] ++ [i]). reflexivity.
    + intros q Hq. cbn [In] in Hq.
      repeat (destruct Hq as [<-|Hq]; [reflexivity|]); destruct Hq.
  - split.
    + cbn [In]. intros Hin.
      repeat (destruct Hin as [Hin|Hin]; [discriminate Hin|]); exact Hin.
    + intros q Hq. cbn [In] in Hq.
      repeat (destruct Hq as [<-|Hq]; [reflexivity|]); destruct Hq.
  - split.
    + cbn [In]. intros Hin.
      repeat (destruct Hin as [Hin|Hin]; [discriminate Hin|]); exact Hin.
    + intros q Hq. cbn [In] in Hq.
      repeat (destruct Hq as [<-|Hq]; [reflexivity|]); destruct Hq.
Qed.

Lemma finalize_after_load_witness :
  let o := run ok_world ["export-to-postgresql.py"; "db"; "all"; "calls"] []
               initial in
  o = Done tt (final o)
  /\ all_before is_transfer is_finalize (trace (final o))
  /\ exists setup keyed fks,
       queries (trace (final o)) = setup ++ map ADD_PRIMARY_KEY keyed ++ fks
       /\ (forall q, In q setup -> is_finalize (Eexec q) = false)
       /\ (forall t, In t keyed <-> exists cols, In (CREATE_TABLE t cols) setup)
       /\ (forall t, In t keyed -> In (EPQputCopyEnd t) (trace (final o)))
       /\ (forall q, In q fks -> is_add_primary_key (Eexec q) = false)
       /\ (forall q, In q fks -> is_finalize (Eexec q) = true)
       /\ added_keys fks
          = filter (fun x => existsb (String.eqb (fst x)) keyed)
              [("threads", FK "machinefk" "machine_id" "machines");
               ("threads", FK "processfk" "process_id" "threads");
               ("comm_threads", FK "commfk" "comm_id" "comms");
               ("comm_threads", FK "threadfk" "thread_id" "threads");
               ("dsos", FK "machinefk" "machine_id" "machines");
               ("symbols", FK "dsofk" "dso_id" "dsos");
               ("samples", FK "evselfk" "evsel_id" "selected_events");
               ("samples", FK "machinefk" "machine_id" "machines");
               ("samples", FK "threadfk" "thread_id" "threads");
               ("samples", FK "commfk" "comm_id" "comms");
               ("samples", FK "dsofk" "dso_id" "dsos");
               ("samples", FK "symbolfk" "symbol_id" "symbols");
               ("samples", FK "todsofk" "to_dso_id" "dsos");
               ("samples", FK "tosymbolfk" "to_symbol_id" "symbols");
               ("call_paths", FK "parentfk" "parent_id" "call_paths");
               ("call_paths", FK "symbolfk" "symbol_id" "symbols");
               ("calls", FK "threadfk" "thread_id" "threads");
               ("calls", FK "commfk" "comm_id" "comms");
               ("calls", FK "call_pathfk" "call_path_id" "call_paths");
               ("calls", FK "callfk" "call_id" "samples");
               ("calls", FK "returnfk" "return_id" "samples");
               ("calls", FK "parent_call_pathfk" "parent_call_path_id"
                           "call_paths")]
       /\ altered fks
          = filter (fun t => existsb (String.eqb t) (map fst (added_keys fks)))
                   keyed
       /\ (forall i t ks k,
             nth_error fks i = Some (ADD_CONSTRAINTS t ks) -> In k ks ->
             In (fk_ref k) keyed
             /\ (fk_ref k <> t ->
                 forall j ks',
                   nth_error fks j = Some (ADD_CONSTRAINTS (fk_ref k) ks') ->
                   (j < i)%nat))
       /\ (if perf_db_export_calls (final o)
           then In "calls" keyed
                /\ exists l, fks = l ++ [CREATE_INDEX "pcpid_idx" "calls"
                                           "parent_call_path_id"]
                             /\ forall q, In q l ->
                                  is_create_index (Eexec q) = false
           else ~ In "calls" keyed
                /\ forall q, In q fks -> is_create_index (Eexec q) = false).
Proof.
  cbv zeta.
  assert (R : run ok_world ["export-to-postgresql.py"; "db"; "all"; "calls"] []
                  initial
              = Done tt (final (run ok_world
                                  ["export-to-postgresql.py"; "db"; "all";
                                   "calls"] [] initial)))
    by (vm_compute; reflexivity).
  split; [exact R|].
  exact (finalize_after_load ok_world
           ["export-to-postgresql.py"; "db"; "all"; "calls"] [] _ R).
Defined.

(** ** The command line *)

Lemma emits_anything {A} (P : effect -> bool) (m : M A) :
  emits_only P m -> emits_only (fun _ => true) m.
Proof. apply emits_weaken. reflexivity. Qed.

(** C6: an invalid command line (fewer than two arguments, columns other
    than [all] and [branches], or a token after the columns other than
    [calls] and [callchains]) prints the usage and raises, and that is all the
    script does; a valid one passes the checks without any effect and goes on
    to create the working directory and the database. *)
Theorem usage_iff_invalid w argv s :
  if valid_argv argv
  then exists s1,
         parse_args argv s = Done tt s1 /\ trace s1 = trace s
         /\ main w argv s
            = (create_database w ;; create_schema w ;; open_output_files) s1
         /\ let d := (getcwd w ++ "/" ++ nth 1 argv "" ++ "-perf-data")%string in
            if mkdir_ok w d
            then exists rest,
                   trace (final (main w argv s)) = trace s ++ Emkdir d :: rest
            else main w argv s = Fail OSError (set_output_dir_name d s1)
  else exists s1,
         main w argv s = Fail (Exception_ "Too few arguments") s1
         /\ trace s1 = trace s ++ [Estderr_usage].
Proof.
  pose proof (parse_args_spec argv s) as P.
  destruct (parse_args argv s) as [[] s1|e s1] eqn:Ep.
  - destruct P as (-> & Ht & Hd).
    assert (Em : main w argv s
                 = (create_database w ;; create_schema w ;; open_output_files) s1)
      by (unfold main, bind at 1; now rewrite Ep).
    exists s1. split; [reflexivity|]. split; [exact Ht|]. split; [exact Em|].
    cbv zeta. rewrite Em, <- Hd. unfold create_database.
    rewrite bind_assoc, bind_get, bind_assoc, bind_modify, bind_assoc.
    destruct (mkdir_ok w _); [|reflexivity].
    rewrite bind_emit.
    match goal with
    | |- context [final (bind ?m ?k ?s0)] =>
        assert (E : emits_only (fun _ => true) (bind m k))
    end.
    { emits;
        lazymatch goal with
        | |- emits_only _ (do_query _ _) => now apply emits_do_query
        | |- emits_only _ (create_schema _) =>
            apply (emits_anything _ _ (emits_create_schema w))
        | |- emits_only _ open_output_files =>
            apply (emits_anything _ _ emits_open_output_files)
        end. }
    match goal with
    | |- context [final (?m ?s0)] => destruct (E s0) as (rest & Er & _)
    end.
    exists rest. rewrite Er. cbn [trace set_trace set_output_dir_name].
    rewrite Ht, <- app_assoc. reflexivity.
  - destruct P as (-> & -> & Ht). exists s1. split; [|exact Ht].
    unfold main, bind at 1. now rewrite Ep.
Qed.

(** ** The working directory *)

Lemma create_database_outcome w s :
  let d := (getcwd w ++ "/" ++ dbname s ++ "-perf-data")%string in
  match create_database w s with
  | Done _ s' =>
      mkdir_ok w d = true /\ exec_ok w (CREATE_DATABASE (dbname s)) = true
      /\ trace s' = trace s ++ [Emkdir d; Eprint Creating_database;
                               Edb_open "postgres";
                               Eexec (CREATE_DATABASE (dbname s)); Edb_close]
      /\ output_dir_name s' = d
  | Fail e s' =>
      (mkdir_ok w d = false /\ trace s' = trace s)
      \/ (mkdir_ok w d = true /\ exec_ok w (CREATE_DATABASE (dbname s)) = false
          /\ trace s' = trace s ++ [Emkdir d; Eprint Creating_database;
                                    Edb_open "postgres";
                                    Eexec (CREATE_DATABASE (dbname s));
                                    Ermdir d])
  end.
Proof.
  intros d. unfold create_database. rewrite bind_get, bind_modify. fold d.
  destruct (mkdir_ok w d); [|left; now split].
  rewrite !bind_emit. unfold bind at 1, try_except_reraise.
  rewrite do_query_eq. destruct (exec_ok w (CREATE_DATABASE (dbname s))).
  - split; [reflexivity|]. split; [reflexivity|]. unfold emit, modify.
    cbn [trace set_trace output_dir_name set_output_dir_name].
    split; [|reflexivity]. now rewrite <- !app_assoc.
  - right. split; [reflexivity|]. split; [reflexivity|]. unfold emit, modify.
    cbn [final trace set_trace]. now rewrite <- !app_assoc.
Qed.

Section Directory.

Variable d : string.

Lemma dir_present_app tr seg :
  forallb no_dir seg = true -> dir_present d (tr ++ seg) = dir_present d tr.
Proof.
  unfold dir_present. rewrite fold_left_app. generalize (fold_left
    (fun present e =>
       match e with
       | Emkdir p => if (p =? d)%string then true else present
       | Ermdir p => if (p =? d)%string then false else present
       | _ => present
       end) tr false).
  induction seg as [|e r IH]; intros b H; [reflexivity|].
  cbn [forallb] in H. apply andb_prop in H. destruct H as [He Hr].
  destruct e; try discriminate He; cbn [fold_left]; now apply IH.
Qed.

Lemma dir_present_rmdir tr seg :
  forallb no_dir seg = true -> dir_present d (tr ++ Ermdir d :: seg) = false.
Proof.
  intros H.
  change (tr ++ Ermdir d :: seg) with (tr ++ [Ermdir d] ++ seg).
  rewrite app_assoc, dir_present_app by exact H.
  unfold dir_present. rewrite fold_left_app. cbn [fold_left].
  now rewrite String.eqb_refl.
Qed.

Lemma neutral_no_dir seg :
  forallb is_neutral seg = true -> forallb no_dir seg = true.
Proof.
  rewrite !forallb_forall. intros H e He. specialize (H e He).
  now destruct e as [|[]| | | | | | | | | | | | |].
Qed.

Lemma neutral_not_closed seg :
  forallb is_neutral seg = true -> database_created seg = false.
Proof.
  induction seg as [|e r IH]; [reflexivity|]. cbn [forallb].
  intros H. apply andb_prop in H. destruct H as [He Hr].
  unfold database_created in *. cbn [existsb]. rewrite IH by exact Hr.
  now destruct e.
Qed.

Lemma neutral_not_announced seg :
  forallb is_neutral seg = true -> keys_announced seg = false.
Proof.
  induction seg as [|e r IH]; [reflexivity|]. cbn [forallb].
  intros H. apply andb_prop in H. destruct H as [He Hr].
  unfold keys_announced in *. cbn [existsb]. rewrite IH by exact Hr.
  now destruct e as [|[]| | | | | | | | | | | | |].
Qed.

Lemma balanced_neutral tr seg :
  forallb is_neutral seg = true -> balanced d tr -> balanced d (tr ++ seg).
Proof.
  unfold balanced, database_created, keys_announced. intros H B.
  rewrite dir_present_app by now apply neutral_no_dir.
  rewrite !existsb_app.
  pose proof (neutral_not_closed _ H) as H1.
  pose proof (neutral_not_announced _ H) as H2.
  unfold database_created, keys_announced in H1, H2.
  now rewrite H1, H2, !orb_false_r.
Qed.

Lemma balanced_keys tr seg :
  forallb no_dir seg = true ->
  balanced d (tr ++ Ermdir d :: Eprint Adding_primary_keys :: seg).
Proof.
  intros H. unfold balanced, keys_announced.
  rewrite dir_present_rmdir by (cbn [forallb no_dir]; exact H).
  rewrite !existsb_app. cbn [existsb is_adding_primary_keys orb].
  now rewrite !orb_true_r, andb_false_r.
Qed.

End Directory.

Lemma emits_do_queries P w qs :
  (forall q, P (Eexec q) = true) -> emits_only P (do_queries w qs).
Proof.
  intros H. induction qs as [|q r IH]; [apply emits_ret|].
  destruct r as [|q' r']; [now apply emits_do_query|].
  change (emits_only P (bind (do_query w q) (fun _ => do_queries w (q' :: r')))).
  apply emits_bind; [now apply emits_do_query | intros _; exact IH].
Qed.

Lemma neutral_create_schema w : emits_only is_neutral (create_schema w).
Proof.
  intros s. rewrite create_schema_eq.
  apply (emits_bind is_neutral (emit _) (fun _ => do_queries w (schema s))).
  - now apply emits_emit.
  - intros _. now apply emits_do_queries.
Qed.

Lemma neutral_open_output_files : emits_only is_neutral open_output_files.
Proof. unfold open_output_files, open_output_file. emits. Qed.

Lemma neutral_copy_phase w : emits_only is_neutral (copy_phase w).
Proof.
  unfold copy_phase. emits; weaken_with (emits_copy_output_file w).
Qed.

Lemma remove_all_outcome l e0 s :
  match remove_all l (emit e0) s with
  | Done _ s' => exists seg, trace s' = trace s ++ seg ++ [e0]
                             /\ forallb is_neutral seg = true
  | Fail _ s' => exists seg, trace s' = trace s ++ seg
                             /\ forallb is_neutral seg = true
  end.
Proof.
  revert s. induction l as [|v r IH]; intros s.
  - exists []. now split.
  - cbn [remove_all]. unfold bind at 1. rewrite remove_output_file_eq.
    destruct (files s v) as [f|].
    + match goal with
      | |- context [remove_all r _ ?s1] => specialize (IH s1)
      end.
      destruct (remove_all r (emit e0) _) as [[] s'|e s'];
        destruct IH as (seg & E & F);
        exists ([Eclose (name f); Eunlink (name f)] ++ seg);
        (split; [rewrite E; cbn [trace set_trace set_files];
                 now rewrite <- !app_assoc
                |exact F]).
    + exists []. split; [now rewrite app_nil_r | reflexivity].
Qed.

Lemma remove_phase_outcome s :
  match remove_phase s with
  | Done _ s' => exists seg, trace s' = trace s ++ seg
                                        ++ [Ermdir (output_dir_name s)]
                             /\ forallb is_neutral seg = true
  | Fail _ s' => exists seg, trace s' = trace s ++ seg
                             /\ forallb is_neutral seg = true
  end.
Proof.
  rewrite remove_phase_eq, bind_emit.
  pose proof (remove_all_outcome (sinks s) (Ermdir (output_dir_name s))
                (set_trace (trace s ++ [Eprint Removing_intermediate_files]) s))
    as R.
  destruct (remove_all _ _ _) as [[] s'|e s']; destruct R as (seg & E & F);
    exists (Eprint Removing_intermediate_files :: seg);
    (split; [rewrite E; cbn [trace set_trace]; now rewrite <- !app_assoc
            |exact F]).
Qed.

Lemma keys_outcome w s :
  exists seg,
    trace (final ((primary_keys w ;; foreign_keys w ;; report) s))
    = trace s ++ Eprint Adding_primary_keys :: seg
    /\ forallb no_dir seg = true.
Proof.
  unfold bind at 1. rewrite primary_keys_eq.
  change (exists seg,
            trace (final (bind (bind (emit (Eprint Adding_primary_keys))
                                  (fun _ => do_queries w
                                              (map ADD_PRIMARY_KEY (tables s))))
                            (fun _ => foreign_keys w ;; report) s))
            = trace s ++ Eprint Adding_primary_keys :: seg
            /\ forallb no_dir seg = true).
  rewrite bind_assoc, bind_emit.
  assert (E : emits_only no_dir
                (bind (do_queries w (map ADD_PRIMARY_KEY (tables s)))
                      (fun _ => foreign_keys w ;; report))).
  { apply emits_bind; [now apply emits_do_queries | intros _].
    apply emits_bind; [weaken_with (emits_foreign_keys w) | intros _].
    weaken_with emits_report. }
  destruct (E (set_trace (trace s ++ [Eprint Adding_primary_keys]) s))
    as (seg & Es & F).
  exists seg. split; [|exact F]. rewrite Es. cbn [trace set_trace].
  now rewrite <- app_assoc.
Qed.

Lemma keys_announced_finish s : keys_announced (finish_trace s) = true.
Proof.
  unfold keys_announced, finish_trace. cbn [existsb is_adding_primary_keys orb].
  rewrite existsb_app. cbn [existsb is_adding_primary_keys orb].
  rewrite existsb_app. cbn [existsb is_adding_primary_keys orb].
  now rewrite !orb_true_r.
Qed.

(** C7, as stated, fails: when CREATE DATABASE fails the run fails, and the
    working directory it had created is removed again, not left behind. *)
Lemma directory_removed_on_failure_counterexample :
  let o := run no_createdb_world ["export-to-postgresql.py"; "db"] [] initial in
  let d := "/home/user/db-perf-data" in
  succeeded o = false
  /\ trace (final o)
     = [Emkdir d; Eprint Creating_database; Edb_open "postgres";
        Eexec (CREATE_DATABASE "db"); Ermdir d]
  /\ dir_present d (trace (final o)) = false.
Proof. vm_compute. repeat split; reflexivity. Qed.

(** C7, amended: the working directory [<cwd>/<database name>-perf-data] is
    created once the command line is accepted; a run that reaches its end has
    removed it; a failing run leaves it behind exactly when it fails after
    CREATE DATABASE succeeded and before [trace_end] has removed the staging
    files and the directory, which it does before it adds the keys.  When
    CREATE DATABASE fails the directory is removed at once. *)
Theorem working_directory_lifecycle w argv cs :
  let o := run w argv cs initial in
  let d := (getcwd w ++ "/" ++ nth 1 argv "" ++ "-perf-data")%string in
  dir_present d (trace (final o))
  = database_created (trace (final o)) && negb (keys_announced (trace (final o)))
  /\ (if succeeded o
      then In (Emkdir d) (trace (final o))
           /\ dir_present d (trace (final o)) = false
      else True)
  /\ (if valid_argv argv && mkdir_ok w d
         && negb (exec_ok w (CREATE_DATABASE (nth 1 argv "")))
      then trace (final o)
           = [Emkdir d; Eprint Creating_database; Edb_open "postgres";
              Eexec (CREATE_DATABASE (nth 1 argv "")); Ermdir d]
      else True).
Proof.
  intros o d.
  assert (K : if valid_argv argv && mkdir_ok w d
                   && negb (exec_ok w (CREATE_DATABASE (nth 1 argv "")))
              then trace (final o)
                   = [Emkdir d; Eprint Creating_database; Edb_open "postgres";
                      Eexec (CREATE_DATABASE (nth 1 argv "")); Ermdir d]
              else True).
  { destruct (valid_argv argv) eqn:Hv; [|exact I].
    destruct (mkdir_ok w d) eqn:Hm; [|exact I].
    destruct (exec_ok w (CREATE_DATABASE (nth 1 argv ""))) eqn:Hx; [exact I|].
    cbn [andb negb]. subst o. unfold run, main. rewrite !bind_assoc.
    unfold bind at 1. pose proof (parse_args_spec argv initial) as P.
    destruct (parse_args argv initial) as [[] s1|e s1]; [|destruct P; congruence].
    destruct P as (_ & Ht1 & Hd1). cbn [trace initial] in Ht1.
    rewrite ?bind_assoc. unfold bind at 1.
    pose proof (create_database_outcome w s1) as C. cbv zeta in C.
    rewrite Hd1 in C. fold d in C.
    destruct (create_database w s1) as [[] s2|e s2].
    - destruct C as (_ & C & _). congruence.
    - cbn [final]. destruct C as [(C & _)|(_ & _ & ->)]; [congruence|].
      now rewrite Ht1. }
  assert (B : balanced d (trace (final o))).
  { subst o. unfold run, main. rewrite !bind_assoc. unfold bind at 1.
    pose proof (parse_args_spec argv initial) as P.
    destruct (parse_args argv initial) as [[] s1|e s1].
    2: { destruct P as (_ & _ & Ht). cbn [final]. now rewrite Ht. }
    destruct P as (_ & Ht1 & Hd1). cbn [trace initial] in Ht1.
    rewrite ?bind_assoc. unfold bind at 1.
    pose proof (create_database_outcome w s1) as C. cbv zeta in C.
    rewrite Hd1 in C. fold d in C.
    destruct (create_database w s1) as [[] s2|e s2].
    2: { cbn [final].
         destruct C as [(_ & ->)|(_ & _ & ->)]; rewrite Ht1; cbn [app].
         - reflexivity.
         - unfold balanced, dir_present.
           cbn [fold_left]. now rewrite String.eqb_refl. }
    destruct C as (_ & _ & Ht2 & Ho2). rewrite Ht1 in Ht2. cbn [app] in Ht2.
    assert (B2 : balanced d (trace s2)).
    { rewrite Ht2. unfold balanced, dir_present. cbn [fold_left].
      now rewrite String.eqb_refl. }
    rewrite ?bind_assoc. unfold bind at 1.
    destruct (neutral_create_schema w s2) as (g3 & E3 & F3).
    pose proof (keeps_create_schema output_dir_name w (fun _ _ => eq_refl) s2)
      as O3.
    destruct (create_schema w s2) as [[] s3|e s3]; cbn [final] in E3, O3 |- *.
    2: { rewrite E3. now apply balanced_neutral. }
    assert (B3 : balanced d (trace s3)) by (rewrite E3; now apply balanced_neutral).
    rewrite ?bind_assoc. unfold bind at 1.
    destruct (neutral_open_output_files s3) as (g4 & E4 & F4).
    pose proof (keeps_open_output_files output_dir_name (fun _ _ => eq_refl)
                  (fun _ _ => eq_refl) s3) as O4.
    destruct (open_output_files s3) as [[] s4|e s4]; cbn [final] in E4, O4 |- *.
    2: { rewrite E4. now apply balanced_neutral. }
    assert (B4 : balanced d (trace s4)) by (rewrite E4; now apply balanced_neutral).
    unfold bind at 1.
    destruct (emits_encode is_neutral cs eq_refl s4) as (g5 & E5 & F5).
    assert (O5 : output_dir_name (final (encode cs s4)) = output_dir_name s4).
    { unfold encode. apply (keeps_bind output_dir_name).
      - intros s. rewrite trace_begin_eq.
        apply (keeps_bind output_dir_name (emit _)
                 (fun _ => handle_all (sentinel_calls s))).
        + now apply keeps_modify.
        + intros _. now apply keeps_handle_all.
      - intros _. now apply keeps_handle_all. }
    destruct (encode cs s4) as [[] s5|e s5]; cbn [final] in E5, O5 |- *.
    2: { rewrite E5. now apply balanced_neutral. }
    assert (B5 : balanced d (trace s5)) by (rewrite E5; now apply balanced_neutral).
    unfold trace_end. unfold bind at 1.
    destruct (neutral_copy_phase w s5) as (g6 & E6 & F6).
    pose proof (keeps_copy_phase output_dir_name w (fun _ _ => eq_refl)
                  (fun _ _ => eq_refl) s5) as O6.
    destruct (copy_phase w s5) as [[] s6|e s6]; cbn [final] in E6, O6 |- *.
    2: { rewrite E6. now apply balanced_neutral. }
    assert (B6 : balanced d (trace s6)) by (rewrite E6; now apply balanced_neutral).
    unfold bind at 1. pose proof (remove_phase_outcome s6) as R.
    destruct (remove_phase s6) as [[] s7|e s7]; destruct R as (g7 & E7 & F7).
    2: { cbn [final]. rewrite E7. now apply balanced_neutral. }
    destruct (keys_outcome w s7) as (g8 & E8 & F8). rewrite E8, E7.
    assert (Od : output_dir_name s6 = d) by congruence. rewrite Od.
    rewrite app_assoc, <- (app_assoc (trace s6 ++ g7)). cbn [app].
    now apply balanced_keys. }
  split; [exact B|]. split; [|exact K].
  destruct o as [[] s'|e s'] eqn:Eo; cbn [succeeded final] in *; [|exact I].
  destruct (run_Done _ _ _ _ Eo) as (s2 & _ & _ & _ & Ho & _ & _ & _ & Ht & _).
  split.
  - rewrite Ht. unfold setup_trace. cbn [app]. left. now rewrite Ho.
  - rewrite B. unfold keys_announced. rewrite Ht, existsb_app.
    cbn [existsb is_adding_primary_keys orb].
    pose proof (keys_announced_finish s2) as Kf. unfold keys_announced in Kf.
    now rewrite Kf, orb_true_r, andb_false_r.
Qed.

(** ** Determinism of the encoding phase *)

(** C8: the bytes of a staging file depend only on the callbacks and on the
    variant.  Two runs with the same variant and the same sequence of
    callbacks, whatever their database names, their [calls] and [callchains]
    options and the answers of the outside world, leave the same bytes in
    every staging file that both of them have. *)
Theorem encode_deterministic w1 w2 argv1 argv2 cs s1 s2 s1' s2' :
  main w1 argv1 initial = Done tt s1 ->
  main w2 argv2 initial = Done tt s2 ->
  branches s1 = branches s2 ->
  encode cs s1 = Done tt s1' ->
  encode cs s2 = Done tt s2' ->
  forall v f1 f2,
    files s1' v = Some f1 -> files s2' v = Some f2 -> data f1 = data f2.
Proof.
  intros M1 M2 Hb E1 E2 v f1 f2 F1 F2.
  apply main_Done in M1. destruct M1 as (_ & _ & _ & _ & _ & _ & Hf1).
  apply main_Done in M2. destruct M2 as (_ & _ & _ & _ & _ & _ & Hf2).
  apply encode_Done in E1. destruct E1 as (_ & _ & _ & G1).
  apply encode_Done in E2. destruct E2 as (_ & _ & _ & G2).
  specialize (Hf1 v). specialize (Hf2 v). specialize (G1 v). specialize (G2 v).
  rewrite Hf1 in G1. rewrite Hf2 in G2. cbn [files initial] in G1, G2.
  destruct (in_use s1 v) eqn:U1; [|congruence].
  destruct (in_use s2 v) eqn:U2; [|congruence].
  destruct G1 as (G1 & _). destruct G2 as (G2 & _).
  rewrite rows_for_app, rows_for_sentinel in G1 by exact U1.
  rewrite rows_for_app, rows_for_sentinel in G2 by exact U2.
  rewrite G1 in F1. rewrite G2 in F2.
  injection F1 as <-. injection F2 as <-. cbn [append data]. now rewrite Hb.
Qed.

Lemma encode_deterministic_witness :
  let cs := [call_comm_table [VInt 1; VStr "bash"];
             call_sample_table (repeat (VInt 7) 22)] in
  let s1 := final (main ok_world ["export-to-postgresql.py"; "db"] initial) in
  let s3 := final (main ok_world
                     ["export-to-postgresql.py"; "other"; "all"; "calls"]
                     initial) in
  main ok_world ["export-to-postgresql.py"; "db"] initial = Done tt s1
  /\ main ok_world ["export-to-postgresql.py"; "other"; "all"; "calls"] initial
     = Done tt s3
  /\ branches s1 = branches s3
  /\ encode cs s1 = Done tt (final (encode cs s1))
  /\ encode cs s3 = Done tt (final (encode cs s3))
  /\ forall v f1 f2,
       files (final (encode cs s1)) v = Some f1 ->
       files (final (encode cs s3)) v = Some f2 -> data f1 = data f2.
Proof.
  cbv zeta.
  assert (M1 : main ok_world ["export-to-postgresql.py"; "db"] initial
               = Done tt (final (main ok_world
                                   ["export-to-postgresql.py"; "db"] initial)))
    by (vm_compute; reflexivity).
  assert (M3 : main ok_world
                 ["export-to-postgresql.py"; "other"; "all"; "calls"] initial
               = Done tt (final (main ok_world
                                   ["export-to-postgresql.py"; "other"; "all";
                                    "calls"] initial)))
    by (vm_compute; reflexivity).
  split; [exact M1|]. split; [exact M3|].
  split; [vm_compute; reflexivity|].
  split; [vm_compute; reflexivity|].
  split; [vm_compute; reflexivity|].
  apply (encode_deterministic ok_world ok_world
           ["export-to-postgresql.py"; "db"]
           ["export-to-postgresql.py"; "other"; "all"; "calls"]
           [call_comm_table [VInt 1; VStr "bash"];
            call_sample_table (repeat (VInt 7) 22)] _ _ _ _ M1 M3);
    vm_compute; reflexivity.
Defined.

(** ** Unhandled events *)

(** C9: a [trace_unhandled] callback adds one to the tally, returns normally
    and changes nothing else; in a run that reaches its end and had such
    events the tally is their number, and it is printed as a warning just
    before the final message. *)
Theorem unhandled_events_tallied w argv cs s' :
  run w argv cs initial = Done tt s' ->
  0 < unhandled_events cs ->
  (forall s event_name context event_fields_dict,
     handle (call_trace_unhandled [event_name; context; event_fields_dict]) s
     = Done tt (set_unhandled_count (unhandled_count s + 1) s))
  /\ unhandled_count s' = unhandled_events cs
  /\ exists tr,
       trace s' = tr ++ [Eprint (Warning_unhandled_events (unhandled_events cs));
                         Eprint Done_].
Proof.
  intros H Hn. split; [reflexivity|].
  destruct (run_Done _ _ _ _ H) as (s2 & _ & _ & _ & _ & _ & Hu2 & Hu & Ht & _).
  split; [exact Hu|].
  exists (setup_trace s'
          ++ Eprint Writing_to_intermediate_files :: Eprint Copying_to_database
          :: load_trace s2 (sinks s2)
          ++ Eprint Removing_intermediate_files :: remove_trace s2 (sinks s2)
          ++ Ermdir (output_dir_name s2) :: Eprint Adding_primary_keys
          :: map Eexec (map ADD_PRIMARY_KEY (tables s2))
          ++ Eprint Adding_foreign_keys :: map Eexec (constraints s2)).
  rewrite Ht. unfold finish_trace, report_trace. rewrite Hu2.
  destruct (Z.eqb_spec (unhandled_events cs) 0) as [E|_]; [lia|].
  repeat (rewrite <- app_assoc || rewrite <- app_comm_cons). reflexivity.
Qed.

Lemma unhandled_events_tallied_witness :
  let cs := [call_trace_unhandled [VStr "irq__softirq_entry"; VObj; VObj];
             call_comm_table [VInt 1; VStr "bash"];
             call_trace_unhandled [VStr "irq__softirq_exit"; VObj; VObj]] in
  let o := run ok_world ["export-to-postgresql.py"; "db"] cs initial in
  o = Done tt (final o)
  /\ 0 < unhandled_events cs
  /\ (forall s event_name context event_fields_dict,
        handle (call_trace_unhandled [event_name; context; event_fields_dict]) s
        = Done tt (set_unhandled_count (unhandled_count s + 1) s))
  /\ unhandled_count (final o) = unhandled_events cs
  /\ exists tr,
       trace (final o)
       = tr ++ [Eprint (Warning_unhandled_events (unhandled_events cs));
                Eprint Done_].
Proof.
  cbv zeta.
  assert (R : run ok_world ["export-to-postgresql.py"; "db"]
                [call_trace_unhandled [VStr "irq__softirq_entry"; VObj; VObj];
                 call_comm_table [VInt 1; VStr "bash"];
                 call_trace_unhandled [VStr "irq__softirq_exit"; VObj; VObj]]
                initial
              = Done tt (final (run ok_world ["export-to-postgresql.py"; "db"]
                [call_trace_unhandled [VStr "irq__softirq_entry"; VObj; VObj];
                 call_comm_table [VInt 1; VStr "bash"];
                 call_trace_unhandled [VStr "irq__softirq_exit"; VObj; VObj]]
                initial)))
    by (vm_compute; reflexivity).
  split; [exact R|]. split; [reflexivity|].
  apply (unhandled_events_tallied ok_world ["export-to-postgresql.py"; "db"]
           _ _ R).
  reflexivity.
Defined.

(** * Further properties *)

(** ** struct.pack *)

Lemma be_signed_be_bytes_neg n z :
  (0 < n)%nat -> - (256 ^ Z.of_nat n / 2) <= z < 0 ->
  be_signed (be_bytes n z) = z.
Proof.
  intros Hn Hz. unfold be_signed.
  rewrite be_unsigned_be_bytes, length_be_bytes.
  set (M := 256 ^ Z.of_nat n) in *.
  assert (HM : M = 256 * 256 ^ Z.of_nat (n - 1)).
  { unfold M. replace (Z.of_nat n) with (1 + Z.of_nat (n - 1)) by lia.
    rewrite Z.pow_add_r by lia. reflexivity. }
  assert (Hp : 0 < 256 ^ Z.of_nat (n - 1)) by (apply Z.pow_pos_nonneg; lia).
  assert (Hh : M / 2 = 128 * 256 ^ Z.of_nat (n - 1)).
  { rewrite HM. replace (256 * 256 ^ Z.of_nat (n - 1))
      with (128 * 256 ^ Z.of_nat (n - 1) * 2) by lia.
    apply Z.div_mul. lia. }
  assert (Hm : z mod M = z + M).
  { symmetry. apply Z.mod_unique with (q := -1); lia. }
  rewrite Hm.
  destruct (Z.ltb_spec (z + M) (M / 2)); lia.
Qed.

Lemma be_signed_be_bytes_full n z :
  (0 < n)%nat -> - (256 ^ Z.of_nat n / 2) <= z < 256 ^ Z.of_nat n / 2 ->
  be_signed (be_bytes n z) = z.
Proof.
  intros Hn Hz. destruct (Z_lt_dec z 0).
  - apply be_signed_be_bytes_neg; [exact Hn|lia].
  - apply be_signed_be_bytes. lia.
Qed.

Lemma length_pad n l : length (pad n l) = n.
Proof.
  unfold pad. rewrite length_app, length_firstn, repeat_length. lia.
Qed.

Lemma length_pack_one c v b : pack_one c v = Ok b -> length b = size_of c.
Proof.
  destruct c; cbn [pack_one size_of]; intros H;
    try (apply pack_int_Ok in H; destruct H as (z & _ & _ & ->);
         apply length_be_bytes).
  destruct v; try discriminate. injection H as <-. apply length_pad.
Qed.

Lemma pack_one_Raise c v e : pack_one c v = Raise e -> e = StructError.
Proof.
  destruct c; cbn [pack_one]; unfold pack_int; destruct v;
    try (intros H; injection H as <-; reflexivity); try discriminate;
    destruct (in_range _ _ _); try discriminate;
    intros H; injection H as <-; reflexivity.
Qed.

(** X1: [struct.pack] of an integer with one of the codes h, i, q, B
    succeeds exactly when the integer fits in the code's width (two's
    complement for h, i, q; unsigned for B); the result has the code's size
    and unpacks to the same integer, negative ones included.  Anything else
    is a [struct.error]. *)
Theorem pack_int_round_trip c z :
  match pack_one c (VInt z) with
  | Ok b => representable c z /\ length b = size_of c /\ unpack_int c b = z
  | Raise e => e = StructError /\ ~ representable c z
  end.
Proof.
  destruct c; cbn [pack_one pack_int representable size_of unpack_int];
    unfold in_range;
    try (split; [reflexivity | tauto]);
    match goal with
    | |- context [(?lo <=? z) && (z <=? ?hi)] =>
        destruct (Z.leb_spec lo z); destruct (Z.leb_spec z hi); cbn [andb]
    end;
    try (split; [reflexivity|]; cbn; lia).
  - split; [cbn; lia|]. split; [apply length_be_bytes|].
    apply be_signed_be_bytes_full; [lia|].
    change (256 ^ Z.of_nat 2 / 2) with (2 ^ 15). lia.
  - split; [cbn; lia|]. split; [apply length_be_bytes|].
    apply be_signed_be_bytes_full; [lia|].
    change (256 ^ Z.of_nat 4 / 2) with (2 ^ 31). lia.
  - split; [cbn; lia|]. split; [apply length_be_bytes|].
    apply be_signed_be_bytes_full; [lia|].
    change (256 ^ Z.of_nat 8 / 2) with (2 ^ 63). lia.
  - split; [cbn; lia|]. split; [apply length_be_bytes|].
    rewrite be_unsigned_be_bytes. apply Z.mod_small.
    change (256 ^ Z.of_nat 1) with 256. lia.
Qed.

(** X2: [struct.pack] either returns exactly [calcsize] bytes, and then it
    was given one argument per format code, or it raises [struct.error]; it
    raises whenever the number of arguments differs from the number of
    codes. *)
Theorem struct_pack_size fmt args :
  match struct_pack fmt args with
  | Ok b => length args = length fmt /\ length b = calcsize fmt
  | Raise e => e = StructError
  end
  /\ (if (length args =? length fmt)%nat then True
      else struct_pack fmt args = Raise StructError).
Proof.
  assert (A : forall fmt args,
             match struct_pack fmt args with
             | Ok b => length args = length fmt /\ length b = calcsize fmt
             | Raise e => e = StructError
             end).
  { clear. induction fmt as [|c fmt IH]; intros [|v args]; cbn [struct_pack];
      try reflexivity; [split; reflexivity|].
    unfold rbind at 1. destruct (pack_one c v) as [b1|e] eqn:H1.
    - specialize (IH args). unfold rbind.
      destruct (struct_pack fmt args) as [b2|e2]; [|exact IH].
      destruct IH as [IH1 IH2]. split; [cbn [length]; lia|].
      rewrite length_app, (length_pack_one _ _ _ H1), IH2.
      unfold calcsize. reflexivity.
    - eapply pack_one_Raise; eassumption. }
  split; [apply A|].
  destruct (Nat.eqb_spec (length args) (length fmt)) as [_|Hn]; [exact I|].
  specialize (A fmt args).
  destruct (struct_pack fmt args) as [b|e]; [|subst; reflexivity].
  destruct A as [A _]. contradiction.
Qed.

(** ** One callback *)

(** X3: a callback is all or nothing.  When it raises (too few arguments,
    a value that does not pack, a file that is unbound or closed) the state
    is exactly what it was: no partial row is written.  When it returns, it
    has emitted nothing, has left the configuration alone, and has changed
    no file but its own. *)
Theorem callback_all_or_nothing c s :
  match handle c s with
  | Fail _ s' => s' = s
  | Done _ s' =>
      trace s' = trace s /\ config s' = config s
      /\ forall v, target c = Some v \/ files s' v = files s v
  end.
Proof.
  rewrite handle_eq. destruct (target c) as [v|] eqn:Ht.
  - destruct (payload (branches s) c) as [b|e]; [|reflexivity].
    rewrite file_write_eq. destruct (files s v) as [f|] eqn:Hf; [|reflexivity].
    destruct (closed f); [reflexivity|].
    split; [reflexivity|]. split; [reflexivity|].
    intros v'. destruct (sink_eq_dec v v') as [<-|Hv']; [left; reflexivity|].
    right. cbn [files set_files]. apply upd_other. exact Hv'.
  - destruct c; try discriminate Ht.
    + destruct args as [|? [|? [|? [|? ?]]]]; try reflexivity.
      split; [reflexivity|]. split; [reflexivity|]. right. reflexivity.
    + split; [reflexivity|]. split; [reflexivity|]. right. reflexivity.
Qed.

(** X4: an encoder called with fewer arguments than it has named parameters
    raises TypeError and writes nothing; the arguments after the named ones
    are ignored.  [trace_unhandled] takes exactly three arguments, and
    [sched__sched_switch] takes any and does nothing. *)
Theorem callback_arity c s :
  match target c with
  | Some _ =>
      if (length (args_of c) <? arity c)%nat
      then handle c s = Fail TypeError s
      else handle c s = handle (with_args c (firstn (arity c) (args_of c))) s
  | None =>
      match c with
      | call_trace_unhandled a =>
          if (length a =? 3)%nat
          then handle c s
               = Done tt (set_unhandled_count (unhandled_count s + 1) s)
          else handle c s = Fail TypeError s
      | _ => handle c s = Done tt s
      end
  end.
Proof.
  destruct c; cbn [target args_of arity with_args];
    try (rewrite !handle_eq; cbn [target payload];
         do 22 (try (destruct args as [|? args]; [reflexivity|]));
         reflexivity).
Qed.

(** ** The records and the tables *)

Lemma row_of_short br c : (length (row_of br c) <= 22)%nat.
Proof. destruct c; destruct br; cbn; lia. Qed.

Lemma payload_decodes br c v b :
  target c = Some v -> payload br c = Ok b ->
  b = wire_row (row_of br c)
  /\ decode_row b = Some (map content (row_of br c), [])
  /\ Forall field_ok (row_of br c).
Proof.
  intros Ht Hp. destruct (payload_layout _ _ _ _ Ht Hp) as [-> Hok].
  split; [reflexivity|]. split; [|exact Hok].
  rewrite <- (app_nil_r (wire_row _)). apply decode_row_wire; [exact Hok|].
  pose proof (row_of_short br c). lia.
Qed.




(** ** The bulk transfer of one file *)

Lemma chunk_size_value : Z.of_nat chunk_size = 65536.
Proof. unfold chunk_size. lia. Qed.

Lemma read_chunks_from_bounds fuel rest :
  (length rest <= fuel)%nat ->
  Forall (fun c => 0 < Z.of_nat (length c) <= 65536) (read_chunks_from fuel rest)
  /\ Forall (fun c => Z.of_nat (length c) = 65536)
            (removelast (read_chunks_from fuel rest)).
Proof.
  pose proof chunk_size_value as Hc.
  revert rest. induction fuel as [|k IH]; intros rest Hl.
  - split; constructor.
  - destruct rest as [|a r]; [split; constructor|].
    cbn [read_chunks_from].
    assert (Hs : (length (skipn chunk_size (a :: r)) <= k)%nat).
    { rewrite length_skipn. cbn [length] in *. lia. }
    destruct (IH _ Hs) as [IH1 IH2].
    split.
    + constructor; [|exact IH1].
      rewrite length_firstn. cbn [length]. lia.
    + destruct (read_chunks_from k (skipn chunk_size (a :: r))) as [|c cs] eqn:E.
      * constructor.
      * change (removelast (firstn chunk_size (a :: r) :: c :: cs))
          with (firstn chunk_size (a :: r) :: removelast (c :: cs)).
        constructor; [|exact IH2].
        assert (Hne : skipn chunk_size (a :: r) <> []).
        { intros Hn. rewrite Hn in E. destruct k; discriminate E. }
        assert (Hlen : (chunk_size < length (a :: r))%nat).
        { destruct (Nat.lt_ge_cases chunk_size (length (a :: r))) as [H|H];
            [exact H|]. apply skipn_all2 in H. contradiction. }
        rewrite length_firstn. lia.
Qed.

(** X6: a transfer that succeeds hands the sealed file to libpq in order, in
    chunks of at most 65536 bytes, none of them empty and all but the last
    one full; the chunks put together are the file's content followed by the
    end marker. *)
Theorem copy_sends_bounded_chunks w v t s s' :
  copy_output_file w v t s = Done tt s' ->
  exists f chunks,
    files s v = Some f
    /\ trace s'
       = trace s
         ++ [EPQconnectdb ("dbname = " ++ dbname s); EPQexec (COPY_FROM_STDIN t)]
         ++ map (EPQputCopyData t) chunks
         ++ [EPQputCopyEnd t; EPQfinish]
    /\ concat chunks = data f ++ file_trailer
    /\ Forall (fun c => 0 < Z.of_nat (length c) <= 65536) chunks
    /\ Forall (fun c => Z.of_nat (length c) = 65536) (removelast chunks).
Proof.
  intros H. apply copy_output_file_Done in H.
  destruct H as (f & Hf & _ & ->).
  exists f, (read_chunks (data f ++ file_trailer)).
  split; [exact Hf|]. split; [reflexivity|].
  split; [apply concat_read_chunks|].
  apply read_chunks_from_bounds. apply Nat.le_refl.
Qed.

Lemma copy_sends_bounded_chunks_witness :
  let s := final ((main ok_world ["export-to-postgresql.py"; "db"] ;;
                   encode [call_comm_table [VInt 1; VStr "bash"]]) initial) in
  let o := copy_output_file ok_world comm_file "comms" s in
  o = Done tt (final o)
  /\ exists f chunks,
       files s comm_file = Some f
       /\ trace (final o)
          = trace s
            ++ [EPQconnectdb ("dbname = " ++ dbname s);
                EPQexec (COPY_FROM_STDIN "comms")]
            ++ map (EPQputCopyData "comms") chunks
            ++ [EPQputCopyEnd "comms"; EPQfinish]
       /\ concat chunks = data f ++ file_trailer
       /\ Forall (fun c => 0 < Z.of_nat (length c) <= 65536) chunks
       /\ Forall (fun c => Z.of_nat (length c) = 65536) (removelast chunks).
Proof.
  intros s o. split; [vm_compute; reflexivity|].
  apply (copy_sends_bounded_chunks ok_world comm_file "comms" s (final o)).
  vm_compute. reflexivity.
Defined.

Lemma raises_bind {A B} P (m : M A) (k : A -> M B) :
  emits_only P m -> (forall a, raises_within P (k a)) ->
  raises_within P (bind m k).
Proof.
  intros Hm Hk s e s' H. unfold bind in H.
  destruct (Hm s) as (seg1 & T1 & F1).
  destruct (m s) as [a s1|e1 s1] eqn:E; cbn [final] in T1.
  - destruct (Hk a s1 e s' H) as (seg2 & T2 & F2).
    exists (seg1 ++ seg2). rewrite T2, T1, app_assoc. split; [reflexivity|].
    rewrite forallb_app, F1, F2. reflexivity.
  - injection H as <- <-. exists seg1. split; assumption.
Qed.

Lemma raises_emit P e : raises_within P (emit e).
Proof. intros s e' s' H. discriminate H. Qed.

Lemma copy_output_file_open_connection w v t :
  raises_within (fun e => negb (is_finish e)) (copy_output_file w v t).
Proof.
  unfold copy_output_file.
  repeat (apply raises_bind;
          [ lazymatch goal with
            | |- emits_only _ (file_write _ _) => apply emits_file_write
            | |- emits_only _ (put_chunks _ _ _ _) =>
                apply emits_put_chunks; intros ?; reflexivity
            | |- _ => emits
            end
          | intros ? ]).
  apply raises_emit.
Qed.

Lemma copy_output_file_sealed w v t f s :
  files s v = Some f -> closed f = false -> PQstatus w t = 0 ->
  files (final (copy_output_file w v t s)) = upd (files s) v (seal f).
Proof.
  intros Hf Hc Hq. unfold copy_output_file.
  unfold bind at 1. unfold get_file at 1. rewrite Hf.
  rewrite bind_get, bind_emit. unfold bind at 1. rewrite Hq.
  change (0 =? 0) with true. cbv iota. unfold ret at 1.
  unfold bind at 1. rewrite file_write_eq.
  cbn [files set_trace]. rewrite Hf, Hc.
  match goal with
  | |- files (final (?m ?s2)) = _ =>
      assert (K : preserves files m); [|rewrite (K s2)]
  end.
  - keeps.
    + apply keeps_put_chunks. reflexivity.
  - reflexivity.
Qed.

(** X7: a transfer that fails never reaches [PQfinish]: the connection it
    opened stays open.  If the connection could not be established the file
    is left as it was, unsealed; if the failure comes later (the COPY
    statement is rejected, a chunk or the end of the data is refused) the
    end marker has already been appended to the file. *)
Theorem copy_failure w v t s e s' :
  copy_output_file w v t s = Fail e s' ->
  (exists seg, trace s' = trace s ++ seg
               /\ forallb (fun x => negb (is_finish x)) seg = true)
  /\ (PQstatus w t <> 0 -> files s' = files s)
  /\ (PQstatus w t = 0 ->
      forall f, files s v = Some f -> closed f = false ->
                files s' v = Some (seal f)).
Proof.
  intros H. split; [|split].
  - eapply copy_output_file_open_connection. exact H.
  - intros Hq. revert H. unfold copy_output_file.
    unfold bind at 1. unfold get_file at 1.
    destruct (files s v) as [f|] eqn:Hf.
    + rewrite bind_get, bind_emit. unfold bind at 1.
      destruct (Z.eqb_spec (PQstatus w t) 0) as [E|_]; [contradiction|].
      unfold raise. intros H. injection H as _ <-. reflexivity.
    + intros H. injection H as _ <-. reflexivity.
  - intros Hq f Hf Hc.
    pose proof (copy_output_file_sealed w v t f s Hf Hc Hq) as K.
    rewrite H in K. cbn [final] in K. rewrite K. apply upd_same.
Qed.

Lemma copy_failure_witness :
  let s := final ((main ok_world ["export-to-postgresql.py"; "db"] ;;
                   encode []) initial) in
  let o := copy_output_file no_copy_world evsel_file "selected_events" s in
  o = Fail (Exception_ "COPY FROM STDIN PQexec failed") (final o)
  /\ (exists seg, trace (final o) = trace s ++ seg
                  /\ forallb (fun x => negb (is_finish x)) seg = true)
  /\ (PQstatus no_copy_world "selected_events" <> 0 -> files (final o) = files s)
  /\ (PQstatus no_copy_world "selected_events" = 0 ->
      forall f, files s evsel_file = Some f -> closed f = false ->
                files (final o) evsel_file = Some (seal f)).
Proof.
  intros s o. split; [vm_compute; reflexivity|].
  apply (copy_failure no_copy_world evsel_file "selected_events" s
           (Exception_ "COPY FROM STDIN PQexec failed") (final o)).
  vm_compute. reflexivity.
Defined.

(** ** Reading a staging file back *)

Lemma bytes_eqb_eq a b : bytes_eqb a b = true <-> a = b.
Proof.
  revert b. induction a as [|x a IH]; intros [|y b]; cbn [bytes_eqb];
    try (split; [reflexivity|reflexivity]); try (split; discriminate).
  rewrite andb_true_iff, Ascii.eqb_eq, IH. split.
  - intros [-> ->]. reflexivity.
  - intros H. injection H as -> ->. split; reflexivity.
Qed.

Lemma wire_row_not_trailer fs rest :
  Forall field_ok fs -> Z.of_nat (length fs) < 2 ^ 15 ->
  bytes_eqb (wire_row fs ++ rest) file_trailer = false.
Proof.
  intros Hok Hn. destruct (bytes_eqb _ _) eqn:E; [|reflexivity].
  apply bytes_eqb_eq in E.
  pose proof (decode_row_wire fs rest Hok Hn) as D. rewrite E in D.
  discriminate D.
Qed.

Lemma decode_rows_wire rows :
  Forall (Forall field_ok) rows ->
  Forall (fun r => Z.of_nat (length r) < 2 ^ 15) rows ->
  forall fuel, (length rows < fuel)%nat ->
    decode_rows fuel (concat (map wire_row rows) ++ file_trailer)
    = Some (map (map content) rows).
Proof.
  induction rows as [|r rows IH]; intros Hok Hn fuel Hf;
    (destruct fuel as [|k]; [cbn [length] in Hf; lia|]).
  - reflexivity.
  - cbn [map concat decode_rows]. rewrite <- app_assoc.
    inversion Hok as [|? ? Hr Hrs]; subst. inversion Hn as [|? ? Nr Nrs]; subst.
    rewrite (wire_row_not_trailer _ _ Hr Nr).
    rewrite (decode_row_wire _ _ Hr Nr).
    rewrite (IH Hrs Nrs) by (cbn [length] in Hf; lia).
    reflexivity.
Qed.

Lemma decode_rows_unsealed rows :
  Forall (Forall field_ok) rows ->
  Forall (fun r => Z.of_nat (length r) < 2 ^ 15) rows ->
  forall fuel, decode_rows fuel (concat (map wire_row rows)) = None.
Proof.
  induction rows as [|r rows IH]; intros Hok Hn fuel;
    (destruct fuel as [|k]; [reflexivity|]).
  - reflexivity.
  - cbn [map concat decode_rows].
    inversion Hok as [|? ? Hr Hrs]; subst. inversion Hn as [|? ? Nr Nrs]; subst.
    rewrite (wire_row_not_trailer _ _ Hr Nr).
    rewrite (decode_row_wire _ _ Hr Nr).
    rewrite (IH Hrs Nrs). reflexivity.
Qed.

Lemma length_rows_le rows :
  (length rows <= length (concat (map wire_row rows)))%nat.
Proof.
  induction rows as [|r rows IH]; [apply Nat.le_refl|].
  cbn [map concat length]. rewrite length_app. unfold wire_row at 1.
  rewrite length_app, length_be_bytes. lia.
Qed.

Lemma length_file_header : length file_header = 19%nat.
Proof. reflexivity. Qed.

Lemma decode_file_sealed rows :
  Forall (Forall field_ok) rows ->
  Forall (fun r => Z.of_nat (length r) < 2 ^ 15) rows ->
  decode_file (sealed rows) = Some (map (map content) rows)
  /\ decode_file (staged rows) = None.
Proof.
  intros Hok Hn. unfold decode_file, sealed, staged. split.
  - rewrite <- app_assoc.
    rewrite firstn_exact, skipn_exact by apply length_file_header.
    replace (bytes_eqb file_header file_header) with true
      by (symmetry; apply bytes_eqb_eq; reflexivity).
    apply decode_rows_wire; [exact Hok|exact Hn|].
    rewrite !length_app, length_file_header.
    pose proof (length_rows_le rows). lia.
  - rewrite firstn_exact, skipn_exact by apply length_file_header.
    replace (bytes_eqb file_header file_header) with true
      by (symmetry; apply bytes_eqb_eq; reflexivity).
    apply decode_rows_unsealed; assumption.
Qed.

Lemma rows_for_short br v cs :
  Forall (fun r => Z.of_nat (length r) < 2 ^ 15) (rows_for br v cs).
Proof.
  induction cs as [|c cs IH]; [constructor|].
  cbn [rows_for]. destruct (target c) as [v'|]; [|exact IH].
  destruct (sink_beq v' v); [|exact IH].
  constructor; [|exact IH]. pose proof (row_of_short br c). lia.
Qed.

(** X8: what a table receives in a run that reaches its end parses back, as
    a binary COPY stream, into exactly the rows written for it: the header is
    recognised, every row reads back field by field, in the order of the
    callbacks after the row of [trace_begin], and the end marker ends the
    stream with nothing after it.  Until it is sealed a staging file is not
    a complete stream. *)
Theorem loaded_tables_decode w argv cs s' :
  run w argv cs initial = Done tt s' ->
  forall v, in_use s' v = true ->
    let rows := rows_for (branches s') v (sentinel_calls s' ++ cs) in
    decode_file (copied (table_of v) (trace s')) = Some (map (map content) rows)
    /\ decode_file (staged rows) = None.
Proof.
  intros H v Hv rows.
  destruct (run_sinks _ _ _ _ H v Hv) as (_ & Hok & ->).
  apply decode_file_sealed; [exact Hok|apply rows_for_short].
Qed.

Lemma loaded_tables_decode_witness :
  let cs := [call_comm_table [VInt 1; VStr "bash"];
             call_comm_table [VInt 2; VStr "perf"]] in
  let o := run ok_world ["export-to-postgresql.py"; "db"] cs initial in
  o = Done tt (final o)
  /\ in_use (final o) comm_file = true
  /\ decode_file (copied "comms" (trace (final o)))
     = Some (map (map content)
               [[F64 0; Ftext "unknown"]; [F64 1; Ftext "bash"];
                [F64 2; Ftext "perf"]]).
Proof.
  intros cs o.
  assert (H : o = Done tt (final o)) by (vm_compute; reflexivity).
  split; [exact H|]. split; [reflexivity|].
  apply (loaded_tables_decode ok_world ["export-to-postgresql.py"; "db"] cs
           (final o) H comm_file).
  reflexivity.
Defined.

(** ** The command line and the schema *)

Lemma parse_options_flags opts s s' :
  parse_options opts s = Done tt s' ->
  perf_db_export_calls s'
  = perf_db_export_calls s || existsb (fun o => o =? "calls")%string opts
  /\ perf_db_export_callchains s'
     = perf_db_export_callchains s
       || existsb (fun o => o =? "callchains")%string opts
  /\ branches s' = branches s.
Proof.
  revert s. induction opts as [|o r IH]; intros s H.
  - injection H as <-. rewrite !orb_false_r. auto.
  - cbn [parse_options existsb] in *.
    destruct (o =? "calls")%string eqn:E1; cbv iota in H.
    + rewrite bind_modify in H. apply IH in H.
      destruct H as (-> & -> & ->). cbn [set_calls perf_db_export_calls
        perf_db_export_callchains branches].
      apply String.eqb_eq in E1. subst o.
      change ("calls" =? "callchains")%string with false.
      rewrite orb_true_r. cbn [orb]. auto.
    + destruct (o =? "callchains")%string eqn:E2; cbv iota in H.
      * rewrite bind_modify in H. apply IH in H.
        destruct H as (-> & -> & ->). cbn [set_callchains perf_db_export_calls
          perf_db_export_callchains branches].
        rewrite orb_true_r. cbn [orb]. auto.
      * rewrite bind_usage in H. discriminate H.
Qed.

Lemma parse_args_flags argv s s' :
  parse_args argv s = Done tt s' ->
  perf_db_export_calls s'
  = perf_db_export_calls s
    || existsb (fun o => o =? "calls")%string (skipn 3 argv)
  /\ perf_db_export_callchains s'
     = perf_db_export_callchains s
       || existsb (fun o => o =? "callchains")%string (skipn 3 argv)
  /\ branches s'
     = ((if (3 <=? length argv)%nat then nth 2 argv "" else "all")
        =? "branches")%string.
Proof.
  unfold parse_args. intros H.
  destruct (length argv <? 2)%nat; [rewrite bind_usage in H; discriminate H|].
  rewrite bind_ret, bind_modify in H.
  destruct (negb _); [rewrite bind_usage in H; discriminate H|].
  rewrite bind_ret, bind_modify in H.
  apply parse_options_flags in H. exact H.
Qed.

Lemma main_parse_args w argv s s' :
  main w argv s = Done tt s' ->
  exists s1,
    parse_args argv s = Done tt s1
    /\ perf_db_export_calls s' = perf_db_export_calls s1
    /\ perf_db_export_callchains s' = perf_db_export_callchains s1
    /\ branches s' = branches s1.
Proof.
  unfold main. intros H. apply bind_Done in H. destruct H as ([] & s1 & H1 & H2).
  exists s1. split; [exact H1|].
  assert (K : forall X (p : state -> X),
             (forall t s, p (set_trace t s) = p s) ->
             (forall t s, p (set_files t s) = p s) ->
             (forall t s, p (set_output_dir_name t s) = p s) ->
             p s' = p s1).
  { intros X p A B C. refine (preserves_Done p _ _ _ _ _ H2).
    apply keeps_bind; [apply keeps_create_database; assumption | intros _].
    apply keeps_bind; [apply keeps_create_schema; assumption | intros _].
    apply keeps_open_output_files; assumption. }
  split; [|split]; apply K; reflexivity.
Qed.

Lemma existsb_eqb_In x l :
  existsb (fun o => o =? x)%string l = true <-> In x l.
Proof.
  rewrite existsb_exists. split.
  - intros (o & Ho & E). apply String.eqb_eq in E. subst. exact Ho.
  - intros H. exists x. split; [exact H|apply String.eqb_refl].
Qed.

Lemma schema_has_calls d s :
  (exists cols, In (CREATE_TABLE "calls" cols) (CREATE_DATABASE d :: schema s))
  <-> perf_db_export_calls s = true.
Proof.
  unfold schema. split.
  - intros (cols & H). destruct (perf_db_export_calls s); [reflexivity|].
    destruct (perf_db_export_callchains s); cbn [orb app In] in H;
      repeat (destruct H as [H|H]; [discriminate H|]); destruct H.
  - intros ->. exists calls_cols. cbn [orb app In]. tauto.
Qed.

Lemma schema_has_call_paths d s :
  (exists cols,
     In (CREATE_TABLE "call_paths" cols) (CREATE_DATABASE d :: schema s))
  <-> perf_db_export_calls s || perf_db_export_callchains s = true.
Proof.
  unfold schema. split.
  - intros (cols & H).
    destruct (perf_db_export_calls s); [reflexivity|].
    destruct (perf_db_export_callchains s); [reflexivity|].
    cbn [orb app In] in H.
    repeat (destruct H as [H|H]; [discriminate H|]); destruct H.
  - intros ->. exists call_paths_cols. cbn [app In]. tauto.
Qed.

(** X9: the command line decides the schema.  In a module body that runs
    to its end, the tokens after the columns are looked up by name, in any
    order and any number of times: the [calls] table is created exactly when
    [calls] is among them, [call_paths] exactly when [calls] or [callchains]
    is, and [samples] has the columns of the [branches] variant exactly when
    the third argument is [branches].  The statements executed are CREATE
    DATABASE for the second argument and then the schema. *)
Theorem command_line_selects_schema w argv s :
  main w argv initial = Done tt s ->
  let opts := skipn 3 argv in
  queries (trace s) = CREATE_DATABASE (nth 1 argv "") :: schema s
  /\ ((exists cols, In (CREATE_TABLE "calls" cols) (queries (trace s)))
      <-> In "calls" opts)
  /\ ((exists cols, In (CREATE_TABLE "call_paths" cols) (queries (trace s)))
      <-> In "calls" opts \/ In "callchains" opts)
  /\ In (CREATE_TABLE "samples" (samples_cols (branches s))) (queries (trace s))
  /\ (branches s = true <-> nth_error argv 2 = Some "branches").
Proof.
  intros H opts.
  destruct (main_parse_args _ _ _ _ H) as (s1 & P & C1 & C2 & C3).
  apply parse_args_flags in P. destruct P as (P1 & P2 & P3).
  cbn [initial perf_db_export_calls perf_db_export_callchains orb] in P1, P2.
  fold opts in P1, P2.
  destruct (main_Done _ _ _ _ H) as (_ & _ & Hdb & _ & _ & Ht & _).
  cbn [initial trace app] in Ht.
  assert (Q : queries (trace s) = CREATE_DATABASE (nth 1 argv "") :: schema s).
  { rewrite Ht, queries_setup, Hdb. reflexivity. }
  split; [exact Q|]. rewrite Q.
  split; [|split; [|split]].
  - rewrite schema_has_calls, C1, P1. apply existsb_eqb_In.
  - rewrite schema_has_call_paths, C1, C2, P1, P2, orb_true_iff.
    rewrite !existsb_eqb_In. reflexivity.
  - right. unfold schema. cbn [app In]. tauto.
  - rewrite C3, P3. destruct (Nat.leb_spec 3 (length argv)) as [L|L].
    + rewrite (nth_error_nth' argv "" (n := 2)) by lia.
      rewrite String.eqb_eq. split; [intros ->; reflexivity|].
      intros E. injection E as E. exact E.
    + replace (nth_error argv 2) with (@None string)
        by (symmetry; apply nth_error_None; lia).
      split; discriminate.
Qed.

Lemma command_line_selects_schema_witness :
  let argv := ["export-to-postgresql.py"; "db"; "branches"; "callchains"] in
  let s := final (main ok_world argv initial) in
  main ok_world argv initial = Done tt s
  /\ queries (trace s) = CREATE_DATABASE "db" :: schema s
  /\ ((exists cols, In (CREATE_TABLE "calls" cols) (queries (trace s)))
      <-> In "calls" ["callchains"])
  /\ ((exists cols, In (CREATE_TABLE "call_paths" cols) (queries (trace s)))
      <-> In "calls" ["callchains"] \/ In "callchains" ["callchains"])
  /\ In (CREATE_TABLE "samples" (samples_cols (branches s))) (queries (trace s))
  /\ (branches s = true <-> nth_error argv 2 = Some "branches").
Proof.
  intros argv s.
  assert (H : main ok_world argv initial = Done tt s) by (vm_compute; reflexivity).
  split; [exact H|].
  apply (command_line_selects_schema ok_world argv s H).
Defined.

(** ** Which sinks can be written, and when *)

(** X10: after the module body a sink is bound exactly when the
    configuration uses it.  A record for a sink in use is appended to its
    file, which until then holds the header only; the encoders of
    [call_paths] and [calls], when the command line did not enable them,
    raise NameError and write nothing. *)
Theorem sink_bound_iff_enabled w argv s c v b :
  main w argv initial = Done tt s ->
  target c = Some v -> payload (branches s) c = Ok b ->
  handle c s
  = if in_use s v
    then Done tt (set_files
                    (upd (files s) v
                         (File (staging_path s v) (file_header ++ b) false)) s)
    else Fail NameError s.
Proof.
  intros H Ht Hp.
  destruct (main_Done _ _ _ _ H) as (_ & _ & _ & _ & _ & _ & Hf).
  rewrite handle_eq, Ht, Hp, file_write_eq, (Hf v).
  destruct (in_use s v); reflexivity.
Qed.

Lemma sink_bound_iff_enabled_witness :
  let s := final (main ok_world ["export-to-postgresql.py"; "db"] initial) in
  let c := call_call_path_table [VInt 1; VInt 0; VInt 7; VInt 4096] in
  main ok_world ["export-to-postgresql.py"; "db"] initial = Done tt s
  /\ in_use s call_path_file = false
  /\ handle c s = Fail NameError s.
Proof.
  intros s c.
  assert (H : main ok_world ["export-to-postgresql.py"; "db"] initial = Done tt s)
    by (vm_compute; reflexivity).
  split; [exact H|]. split; [reflexivity|].
  apply (sink_bound_iff_enabled ok_world ["export-to-postgresql.py"; "db"] s c
           call_path_file
           (wire_row (call_path_fields [VInt 1; VInt 0; VInt 7; VInt 4096])) H).
  - reflexivity.
  - vm_compute. reflexivity.
Defined.

(** X11: once a run has reached its end nothing more can be written: every
    staging file of the configuration is closed, so an encoder that is
    called again raises ValueError (NameError for a sink that was never
    bound) and changes nothing. *)
Theorem no_write_after_seal w argv cs s' c v b :
  run w argv cs initial = Done tt s' ->
  target c = Some v -> payload (branches s') c = Ok b ->
  handle c s' = Fail (if in_use s' v then ValueError else NameError) s'.
Proof.
  intros H Ht Hp.
  destruct (run_Done _ _ _ _ H) as (s2 & _ & _ & _ & _ & _ & _ & _ & _ & Hf).
  specialize (Hf v). cbv zeta in Hf.
  rewrite handle_eq, Ht, Hp, file_write_eq.
  destruct (in_use s' v).
  - destruct Hf as (_ & -> & _). reflexivity.
  - destruct Hf as (_ & ->). reflexivity.
Qed.

Lemma no_write_after_seal_witness :
  let o := run ok_world ["export-to-postgresql.py"; "db"] [] initial in
  let c := call_comm_table [VInt 1; VStr "bash"] in
  o = Done tt (final o)
  /\ handle c (final o) = Fail ValueError (final o).
Proof.
  intros o c.
  assert (H : o = Done tt (final o)) by (vm_compute; reflexivity).
  split; [exact H|].
  apply (no_write_after_seal ok_world ["export-to-postgresql.py"; "db"] []
           (final o) c comm_file
           (wire_row (comm_fields [VInt 1; VStr "bash"])) H).
  - reflexivity.
  - vm_compute. reflexivity.
Defined.

(** ** No statement after a failed one *)

Lemma forallb_removelast {A} (P : A -> bool) l :
  forallb P l = true -> forallb P (removelast l) = true.
Proof.
  induction l as [|a [|b r] IH]; intros H; [reflexivity|reflexivity|].
  change (removelast (a :: b :: r)) with (a :: removelast (b :: r)).
  cbn [forallb] in H |- *. apply andb_true_iff in H. destruct H as [-> H].
  apply IH. exact H.
Qed.

Lemma ff_bind w {A B} (m : M A) (k : A -> M B) :
  fail_fast w m -> (forall a, fail_fast w (k a)) -> fail_fast w (bind m k).
Proof.
  intros Hm Hk s Hs. unfold bind. specialize (Hm s Hs).
  destruct (m s) as [a s1|e s1]; [apply Hk; exact Hm|exact Hm].
Qed.

Lemma ff_quiet w {A} (m : M A) :
  emits_only (fun e => negb (is_exec e)) m -> fail_fast w m.
Proof.
  intros Hm s Hs. destruct (Hm s) as (seg & T & F).
  assert (Q : queries (trace (final (m s))) = queries (trace s)).
  { rewrite T, queries_app, (queries_none _ F). apply app_nil_r. }
  destruct (m s) as [a s1|e s1]; cbn [final] in Q; rewrite Q;
    [exact Hs|apply forallb_removelast; exact Hs].
Qed.

Lemma ff_do_query w q : fail_fast w (do_query w q).
Proof.
  intros s Hs. rewrite do_query_eq.
  destruct (exec_ok w q) eqn:E; cbn [trace set_trace];
    rewrite queries_app; cbn [queries].
  - rewrite forallb_app, Hs. cbn [forallb]. rewrite E. reflexivity.
  - rewrite removelast_last. exact Hs.
Qed.

Lemma ff_do_queries w qs : fail_fast w (do_queries w qs).
Proof.
  induction qs as [|q [|q' r] IH].
  - apply ff_quiet. apply emits_ret.
  - apply ff_do_query.
  - change (do_queries w (q :: q' :: r))
      with (do_query w q ;; do_queries w (q' :: r)).
    apply ff_bind; [apply ff_do_query|intros _; exact IH].
Qed.

Lemma ff_emit_then w e {A} (m : M A) :
  is_exec e = false -> fail_fast w m -> fail_fast w (emit e ;; m).
Proof.
  intros He Hm. apply ff_bind; [|intros _; exact Hm].
  apply ff_quiet. apply emits_emit. rewrite He. reflexivity.
Qed.

Lemma ff_create_database w : fail_fast w (create_database w).
Proof.
  intros s Hs. pose proof (create_database_outcome w s) as H. cbv zeta in H.
  destruct (create_database w s) as [[] s1|e s1].
  - destruct H as (_ & E & -> & _). rewrite queries_app. cbn [queries].
    rewrite forallb_app, Hs. cbn [forallb]. rewrite E. reflexivity.
  - destruct H as [(_ & ->)|(_ & _ & ->)].
    + apply forallb_removelast. exact Hs.
    + rewrite queries_app. cbn [queries]. rewrite removelast_last. exact Hs.
Qed.

Lemma ff_create_schema w : fail_fast w (create_schema w).
Proof.
  intros s Hs. rewrite create_schema_eq.
  refine (ff_emit_then w _ _ _ _ s Hs); [reflexivity|apply ff_do_queries].
Qed.

Lemma ff_primary_keys w : fail_fast w (primary_keys w).
Proof.
  intros s Hs. rewrite primary_keys_eq.
  refine (ff_emit_then w _ _ _ _ s Hs); [reflexivity|apply ff_do_queries].
Qed.

Lemma ff_foreign_keys w : fail_fast w (foreign_keys w).
Proof.
  intros s Hs. rewrite foreign_keys_eq.
  refine (ff_emit_then w _ _ _ _ s Hs); [reflexivity|apply ff_do_queries].
Qed.

(** The effects of a phase are in a given class. *)
Ltac phase_emits :=
  lazymatch goal with
  | |- emits_only _ (parse_args _) =>
      unfold parse_args; emits; try (now apply emits_usage);
      now apply emits_parse_options
  | |- emits_only _ (create_database _) =>
      unfold create_database; emits; now apply emits_do_query
  | |- emits_only _ (create_schema _) =>
      unfold create_schema; emits; now apply emits_do_query
  | |- emits_only _ open_output_files =>
      unfold open_output_files, open_output_file; emits
  | |- emits_only _ (encode _) => now apply emits_encode
  | |- emits_only _ (copy_phase ?w) =>
      unfold copy_phase; emits; weaken_with (emits_copy_output_file w)
  | |- emits_only _ remove_phase =>
      unfold remove_phase; emits; weaken_with emits_remove_output_file
  | |- emits_only _ (primary_keys _) =>
      unfold primary_keys; emits; now apply emits_do_query
  | |- emits_only _ (foreign_keys _) =>
      unfold foreign_keys; emits; now apply emits_do_query
  | |- emits_only _ report => weaken_with emits_report
  end.

Lemma ff_run w argv cs : fail_fast w (run w argv cs).
Proof.
  unfold run, main, trace_end.
  apply ff_bind; [|intros _].
  { apply ff_bind; [apply ff_quiet; phase_emits|intros _].
    apply ff_bind; [apply ff_create_database|intros _].
    apply ff_bind; [apply ff_create_schema|intros _].
    apply ff_quiet; phase_emits. }
  apply ff_bind; [apply ff_quiet; phase_emits|intros _].
  apply ff_bind; [apply ff_quiet; phase_emits|intros _].
  apply ff_bind; [apply ff_quiet; phase_emits|intros _].
  apply ff_bind; [apply ff_primary_keys|intros _].
  apply ff_bind; [apply ff_foreign_keys|intros _].
  apply ff_quiet; phase_emits.
Qed.

(** X12: the script stops at the first SQL statement that fails.  In every
    run, every statement handed to [QSqlQuery.exec_] before the last one has
    succeeded; in a run that reaches its end, all of them have. *)
Theorem no_statement_after_failure w argv cs :
  match run w argv cs initial with
  | Done _ s' => forallb (exec_ok w) (queries (trace s')) = true
  | Fail _ s' => forallb (exec_ok w) (removelast (queries (trace s'))) = true
  end.
Proof. apply (ff_run w argv cs initial). reflexivity. Qed.

(** ** The final message *)

Lemma forallb_impl {A} (P Q : A -> bool) l :
  (forall a, P a = true -> Q a = true) ->
  forallb P l = true -> forallb Q l = true.
Proof.
  intros H. induction l as [|a r IH]; [reflexivity|]. cbn [forallb].
  rewrite !andb_true_iff. intros [Ha Hr]. split; [apply H; exact Ha|auto].
Qed.

Lemma load_trace_transfer s l : forallb is_transfer (load_trace s l) = true.
Proof.
  unfold load_trace. apply forallb_flat_map. intros v. unfold copy_effects.
  cbn [app forallb is_transfer andb]. rewrite forallb_app, forallb_map.
  cbn [is_transfer forallb andb]. rewrite forallb_true. reflexivity.
Qed.

Lemma remove_trace_destroy s l : forallb is_destroy (remove_trace s l) = true.
Proof. unfold remove_trace. apply forallb_flat_map. reflexivity. Qed.

Lemma execs_exec qs : forallb is_exec (map Eexec qs) = true.
Proof. rewrite forallb_map. apply forallb_true. Qed.

Lemma progress_setup s : forallb is_progress (setup_trace s) = true.
Proof.
  unfold setup_trace. rewrite !forallb_app, !forallb_map. cbn [forallb].
  cbn [is_progress is_done is_warning negb andb]. now rewrite !forallb_true.
Qed.

Lemma progress_of_transfer e : is_transfer e = true -> is_progress e = true.
Proof. destruct e; try discriminate; reflexivity. Qed.

Lemma progress_of_destroy e : is_destroy e = true -> is_progress e = true.
Proof. destruct e; try discriminate; reflexivity. Qed.

Lemma progress_of_exec e : is_exec e = true -> is_progress e = true.
Proof. destruct e; try discriminate; reflexivity. Qed.

Lemma finish_trace_split s :
  exists tr,
    finish_trace s = tr ++ report_trace s /\ forallb is_progress tr = true.
Proof.
  exists (Eprint Copying_to_database :: load_trace s (sinks s)
          ++ Eprint Removing_intermediate_files :: remove_trace s (sinks s)
          ++ Ermdir (output_dir_name s)
          :: Eprint Adding_primary_keys
          :: map Eexec (map ADD_PRIMARY_KEY (tables s))
          ++ Eprint Adding_foreign_keys :: map Eexec (constraints s)).
  split.
  - unfold finish_trace.
    repeat (rewrite <- app_assoc || rewrite <- app_comm_cons). reflexivity.
  - cbn [forallb]. rewrite forallb_app. cbn [forallb].
    rewrite forallb_app. cbn [forallb]. rewrite forallb_app. cbn [forallb].
    rewrite (forallb_impl _ _ _ progress_of_transfer (load_trace_transfer s _)).
    rewrite (forallb_impl _ _ _ progress_of_destroy (remove_trace_destroy s _)).
    rewrite !(forallb_impl _ _ _ progress_of_exec (execs_exec _)).
    reflexivity.
Qed.

Lemma progress_run w argv cs : raises_within is_progress (run w argv cs).
Proof.
  unfold run, trace_end.
  apply raises_bind; [|intros _].
  { unfold main. repeat (apply emits_bind; [phase_emits|intros _]).
    phase_emits. }
  repeat (apply raises_bind; [phase_emits|intros _]).
  intros s e s' H. rewrite report_eq in H. discriminate H.
Qed.

(** X13: [Done] is printed by the runs that reach their end and by no
    other, and it is the last thing they do; the warning about unhandled
    events is printed just before it exactly when there were such events.
    A run that fails prints neither. *)
Theorem final_message w argv cs :
  match run w argv cs initial with
  | Done _ s' =>
      exists tr,
        forallb is_progress tr = true
        /\ trace s'
           = tr
             ++ (if unhandled_events cs =? 0 then []
                 else [Eprint (Warning_unhandled_events (unhandled_events cs))])
             ++ [Eprint Done_]
  | Fail _ s' => forallb is_progress (trace s') = true
  end.
Proof.
  destruct (run w argv cs initial) as [[] s'|e s'] eqn:H.
  - destruct (run_Done _ _ _ _ H)
      as (s2 & _ & _ & _ & _ & _ & Hc & _ & Ht & _).
    destruct (finish_trace_split s2) as (tr & E & F).
    exists (setup_trace s' ++ Eprint Writing_to_intermediate_files :: tr).
    split.
    + rewrite forallb_app, progress_setup. cbn [forallb]. rewrite F. reflexivity.
    + rewrite Ht, E. unfold report_trace. rewrite Hc.
      rewrite <- app_assoc. reflexivity.
  - destruct (progress_run w argv cs _ _ _ H) as (seg & -> & F). exact F.
Qed.

(** ** The life of the staging files *)

Lemma flat_map_of_map {A B C} (f : B -> list C) (g : A -> B) l :
  flat_map f (map g l) = flat_map (fun a => f (g a)) l.
Proof. induction l as [|a r IH]; [reflexivity|]. cbn. now rewrite IH. Qed.

Lemma flat_map_single {A B} (f : A -> list B) (g : A -> B) l :
  (forall a, f a = [g a]) -> flat_map f l = map g l.
Proof.
  intros H. induction l as [|a r IH]; [reflexivity|]. cbn. now rewrite H, IH.
Qed.

Lemma flat_map_flat_map {A B C} (f : B -> list C) (g : A -> list B) l :
  flat_map f (flat_map g l) = flat_map (fun a => flat_map f (g a)) l.
Proof.
  induction l as [|a r IH]; [reflexivity|]. cbn. now rewrite flat_map_app, IH.
Qed.

Lemma flat_map_none {A B} (f : A -> list B) (P : A -> bool) l :
  (forall a, P a = true -> f a = []) -> forallb P l = true -> flat_map f l = [].
Proof.
  intros H. induction l as [|a r IH]; [reflexivity|]. cbn [forallb flat_map].
  rewrite andb_true_iff. intros [Ha Hr]. now rewrite (H a Ha), IH.
Qed.

Lemma report_trace_print s : forallb is_print (report_trace s) = true.
Proof. unfold report_trace. now destruct (unhandled_count s =? 0). Qed.

Ltac no_such_effect :=
  let e := fresh "e" in
  intros e; destruct e; try discriminate; reflexivity.

(** What a selection of the effects keeps of a run that reached its end:
    of the module body and the encoding phase, then of [trace_end]. *)
Lemma select_setup {B} (f : effect -> list B) s :
  (forall e, is_exec e = true -> f e = []) ->
  flat_map f (setup_trace s)
  = f (Emkdir (output_dir_name s)) ++ f (Eprint Creating_database)
    ++ f (Edb_open "postgres") ++ f (Eexec (CREATE_DATABASE (dbname s)))
    ++ f Edb_close ++ f (Edb_open (dbname s))
    ++ flat_map (fun v => f (Eopen (staging_path s v))) (sinks s).
Proof.
  intros Hx. unfold setup_trace. rewrite !flat_map_app.
  rewrite (flat_map_none f is_exec _ Hx (execs_exec _)).
  rewrite flat_map_of_map. cbn [flat_map app]. rewrite app_nil_r.
  rewrite <- !app_assoc. reflexivity.
Qed.

Lemma select_finish {B} (f : effect -> list B) s :
  (forall e, is_transfer e = true -> f e = []) ->
  (forall e, is_exec e = true -> f e = []) ->
  (forall e, is_print e = true -> f e = []) ->
  flat_map f (finish_trace s)
  = flat_map (fun v => f (Eclose (path_of s v)) ++ f (Eunlink (path_of s v)))
             (sinks s)
    ++ f (Ermdir (output_dir_name s)).
Proof.
  intros Ht Hx Hp. unfold finish_trace.
  repeat (progress cbn [flat_map] || rewrite flat_map_app).
  rewrite !(Hp (Eprint _) eq_refl).
  rewrite (flat_map_none f is_transfer _ Ht (load_trace_transfer s _)).
  rewrite !(flat_map_none f is_exec _ Hx (execs_exec _)).
  rewrite (flat_map_none f is_print _ Hp (report_trace_print s)).
  cbn [app]. rewrite !app_nil_r.
  unfold remove_trace. rewrite flat_map_flat_map. f_equal.
  apply flat_map_ext. intros v. cbn [flat_map]. rewrite app_nil_r. reflexivity.
Qed.

Lemma append_cancel (d a b : string) : (d ++ a = d ++ b)%string -> a = b.
Proof.
  induction d as [|c d IH]; cbn [String.append]; intros H; [exact H|].
  injection H as H. apply IH. exact H.
Qed.

Lemma file_name_of_inj v v' : file_name_of v = file_name_of v' -> v = v'.
Proof. destruct v, v'; intros H; try reflexivity; discriminate H. Qed.

Lemma NoDup_map_inj {A B} (f : A -> B) l :
  (forall a b, f a = f b -> a = b) -> NoDup l -> NoDup (map f l).
Proof.
  intros Hf. induction 1 as [|a r Ha Hr IH]; cbn [map]; constructor.
  - rewrite in_map_iff. intros (b & E & Hb). apply Hf in E. subst. contradiction.
  - exact IH.
Qed.

(** X14: a run that reaches its end cleans up after itself.  The files it
    opened are the staging files of the configuration, one for each sink in
    use, all of them in the working directory and no two the same; each of
    them is closed once and deleted once, in the order they were opened, and
    nothing else is; and the one directory removed is the working
    directory. *)
Theorem staging_files_removed w argv cs s' :
  run w argv cs initial = Done tt s' ->
  opened (trace s') = map (staging_path s') (sinks s')
  /\ closed_paths (trace s') = opened (trace s')
  /\ unlinked (trace s') = opened (trace s')
  /\ NoDup (opened (trace s'))
  /\ removed_dirs (trace s') = [output_dir_name s'].
Proof.
  intros H.
  destruct (run_Done _ _ _ _ H)
    as (s2 & _ & _ & _ & _ & Hc & _ & _ & Ht & Hf).
  destruct (config_uses _ _ Hc) as (_ & _ & Hs & _ & Hu & _).
  destruct (config_eq _ _ Hc) as (_ & _ & _ & _ & Hd).
  assert (Hp : map (path_of s2) (sinks s2) = map (staging_path s') (sinks s')).
  { rewrite Hs. apply map_ext_in. intros v Hv.
    apply existsb_sink_In in Hv. rewrite <- in_use_sinks in Hv.
    specialize (Hf v). cbv zeta in Hf. rewrite Hv in Hf.
    destruct Hf as (E & _). unfold path_of. rewrite E. reflexivity. }
  assert (O : opened (trace s') = map (staging_path s') (sinks s')).
  { unfold opened. rewrite Ht, flat_map_app. cbn [flat_map app].
    rewrite select_setup by no_such_effect.
    rewrite select_finish by no_such_effect.
    cbn [app]. rewrite (flat_map_none _ (fun _ => true) (sinks s2))
      by (reflexivity || apply forallb_true).
    rewrite app_nil_r. apply flat_map_single. reflexivity. }
  assert (C : closed_paths (trace s') = map (staging_path s') (sinks s')).
  { unfold closed_paths. rewrite Ht, flat_map_app. cbn [flat_map app].
    rewrite select_setup by no_such_effect.
    rewrite select_finish by no_such_effect.
    cbn [app]. rewrite (flat_map_none _ (fun _ => true) (sinks s'))
      by (reflexivity || apply forallb_true).
    rewrite app_nil_r, <- Hp. apply flat_map_single. reflexivity. }
  assert (U : unlinked (trace s') = map (staging_path s') (sinks s')).
  { unfold unlinked. rewrite Ht, flat_map_app. cbn [flat_map app].
    rewrite select_setup by no_such_effect.
    rewrite select_finish by no_such_effect.
    cbn [app]. rewrite (flat_map_none _ (fun _ => true) (sinks s'))
      by (reflexivity || apply forallb_true).
    rewrite app_nil_r, <- Hp. apply flat_map_single. reflexivity. }
  rewrite C, U, O. split; [reflexivity|]. split; [reflexivity|].
  split; [reflexivity|]. split.
  - apply NoDup_map_inj; [|apply NoDup_sinks].
    unfold staging_path. intros a b E.
    apply append_cancel in E. apply (append_cancel "/") in E.
    apply file_name_of_inj. exact E.
  - unfold removed_dirs. rewrite Ht, flat_map_app. cbn [flat_map app].
    rewrite select_setup by no_such_effect.
    rewrite select_finish by no_such_effect.
    cbn [app]. rewrite !(flat_map_none _ (fun _ => true))
      by (reflexivity || apply forallb_true).
    cbn [app]. rewrite Hd. reflexivity.
Qed.

Lemma staging_files_removed_witness :
  let o := run ok_world ["export-to-postgresql.py"; "db"; "all"; "callchains"]
               [] initial in
  o = Done tt (final o)
  /\ opened (trace (final o))
     = map (staging_path (final o)) (sinks (final o))
  /\ closed_paths (trace (final o)) = opened (trace (final o))
  /\ unlinked (trace (final o)) = opened (trace (final o))
  /\ NoDup (opened (trace (final o)))
  /\ removed_dirs (trace (final o)) = [output_dir_name (final o)].
Proof.
  intros o.
  assert (H : o = Done tt (final o)) by (vm_compute; reflexivity).
  split; [exact H|].
  apply (staging_files_removed ok_world
           ["export-to-postgresql.py"; "db"; "all"; "callchains"] []
           (final o) H).
Defined.

(** ** close_output_file *)

(** X15: [close_output_file] either raises and changes nothing (NameError
    for an unbound file, ValueError for a closed one), or appends the end
    marker, closes the file and touches no other file; after that the file
    can neither be written nor closed this way a second time. *)
Theorem close_output_file_seals v s :
  match close_output_file v s with
  | Done _ s' =>
      exists f,
        files s v = Some f /\ closed f = false
        /\ files s' v = Some (File (name f) (data f ++ file_trailer) true)
        /\ (forall v', v = v' \/ files s' v' = files s v')
        /\ trace s' = trace s ++ [Eclose (name f)]
        /\ (forall b, file_write v b s' = Fail ValueError s')
        /\ close_output_file v s' = Fail ValueError s'
  | Fail e s' =>
      s' = s
      /\ match files s v with
         | None => e = NameError
         | Some f => closed f = true /\ e = ValueError
         end
  end.
Proof.
  unfold close_output_file at 1. unfold bind at 1. rewrite file_write_eq.
  destruct (files s v) as [f|] eqn:Hf; [|split; reflexivity].
  destruct (closed f) eqn:Hc; [split; [reflexivity|split; reflexivity]|].
  unfold bind at 1. unfold get_file at 1. cbn [files set_files].
  rewrite upd_same. rewrite bind_emit. unfold modify.
  cbn [append name data closed files set_files set_trace trace].
  exists f. split; [reflexivity|]. split; [exact Hc|].
  split; [apply upd_same|].
  split.
  { intros v'. destruct (sink_eq_dec v v') as [Hv|Hv]; [left; exact Hv|].
    right. rewrite !upd_other by exact Hv. reflexivity. }
  split; [reflexivity|].
  assert (W : forall b s1,
             files s1 v = Some (File (name f) (data f ++ file_trailer) true) ->
             file_write v b s1 = Fail ValueError s1).
  { intros b s1 E. rewrite file_write_eq, E. reflexivity. }
  split.
  - intros b. apply W. cbn [files]. apply upd_same.
  - unfold close_output_file. unfold bind at 1. rewrite W; [reflexivity|].
    cbn [files]. apply upd_same.
Qed.

(** ** From the record back to the arguments *)

Lemma read_column_content col f :
  fits col f = true -> field_ok f ->
  read_column (col_type col) (content f) = value_of f.
Proof.
  unfold fits. destruct (col_type col), f; try discriminate; intros _ Hok;
    cbn [read_column content value_of field_ok] in *.
  - rewrite be_signed_be_bytes_full; [reflexivity|lia|].
    change (256 ^ Z.of_nat 8 / 2) with (2 ^ 63). lia.
  - rewrite be_signed_be_bytes_full; [reflexivity|lia|].
    change (256 ^ Z.of_nat 4 / 2) with (2 ^ 31). lia.
  - rewrite be_unsigned_be_bytes, Z.mod_small; [reflexivity|].
    change (256 ^ Z.of_nat 1) with 256. lia.
  - rewrite string_of_list_ascii_of_string. reflexivity.
Qed.

Lemma read_record_content cols fs :
  Forall2 (fun col f => fits col f = true) cols fs -> Forall field_ok fs ->
  read_record cols (map content fs) = map value_of fs.
Proof.
  unfold read_record. induction 1 as [|col f cols fs Hf _ IH]; intros Hok;
    [reflexivity|].
  inversion Hok as [|? ? Ho Hos]; subst. cbn [map combine fst snd].
  rewrite (read_column_content _ _ Hf Ho), (IH Hos). reflexivity.
Qed.

Ltac named_args :=
  let H := fresh "H" in
  intros H;
  match type of H with
  | ?f ?args = Ok _ => unfold f in H; args_inv args
  | ?f _ ?args = Ok _ => unfold f in H; args_inv args
  end;
  pack_inv H; reflexivity.

Lemma args_are_row br c v b :
  target c = Some v -> payload br c = Ok b ->
  (v = sample_file -> br = false) ->
  firstn (arity c) (args_of c) = map value_of (row_of br c).
Proof.
  intros Ht Hp Hbr.
  destruct c; cbn [target] in Ht; try discriminate Ht; injection Ht as <-;
    cbn [payload arity args_of row_of] in *; revert Hp;
    try rewrite (Hbr eq_refl); named_args.
Qed.

(** X16: a record reads back to the arguments the encoder was called with.
    Except for samples in the [branches] variant, decoding a record and
    reading each field by the type of its column (two's complement for
    bigint and integer, one unsigned byte for boolean, the bytes themselves
    for varchar) gives exactly the encoder's named arguments, in order. *)
Theorem record_round_trip br c v b :
  target c = Some v -> payload br c = Ok b ->
  (v = sample_file -> br = false) ->
  exists fields,
    decode_row b = Some (fields, [])
    /\ length fields = length (columns_of br v)
    /\ read_record (columns_of br v) fields = firstn (arity c) (args_of c).
Proof.
  intros Ht Hp Hbr.
  destruct (payload_decodes _ _ _ _ Ht Hp) as (_ & Hd & Hok).
  assert (F : Forall2 (fun col f => fits col f = true)
                      (columns_of br v) (row_of br c)).
  { destruct c; cbn [target] in Ht; try discriminate Ht;
      injection Ht as <-; cbn [columns_of row_of];
      try (repeat constructor).
    rewrite Hbr by reflexivity. repeat constructor. }
  exists (map content (row_of br c)).
  split; [exact Hd|]. split.
  - rewrite length_map. symmetry. eapply Forall2_length. exact F.
  - rewrite (read_record_content _ _ F Hok). symmetry.
    eapply args_are_row; eassumption.
Qed.

Lemma record_round_trip_witness :
  let c := call_symbol_table
             [VInt 3; VInt 1; VInt 4096; VInt 4200; VInt (-1); VStr "main";
              VObj] in
  exists b,
    payload false c = Ok b
    /\ exists fields,
         decode_row b = Some (fields, [])
         /\ length fields = length symbols_cols
         /\ read_record symbols_cols fields
            = [VInt 3; VInt 1; VInt 4096; VInt 4200; VInt (-1); VStr "main"].
Proof.
  intros c. eexists. split; [vm_compute; reflexivity|].
  apply (record_round_trip false c symbol_file).
  - reflexivity.
  - vm_compute. reflexivity.
  - discriminate.
Defined.

(** X17: in the [branches] variant the sample encoder drops four of its
    arguments: the record does not depend on [period], [weight],
    [transaction] and [data_src] (arguments 16 to 19), which are not even
    checked to be integers. *)
Theorem branches_sample_drops_four args y :
  (22 <= length args)%nat -> length y = 4%nat ->
  sample_record true (firstn 15 args ++ y ++ skipn 19 args)
  = sample_record true args.
Proof.
  intros Ha Hy.
  do 22 (destruct args as [|? args]; [cbn [length] in Ha; lia|]).
  do 4 (destruct y as [|? y]; [discriminate Hy|]).
  destruct y; [|discriminate Hy].
  reflexivity.
Qed.

Lemma branches_sample_drops_four_witness :
  sample_record true
    (repeat (VInt 7) 15 ++ [VObj; VStr "x"; VInt (2 ^ 70); VObj]
     ++ repeat (VInt 7) 3)
  = sample_record true (repeat (VInt 7) 22).
Proof.
  apply (branches_sample_drops_four (repeat (VInt 7) 22)
           [VObj; VStr "x"; VInt (2 ^ 70); VObj]).
  - cbn [repeat length]. lia.
  - reflexivity.
Defined.

(** ** What the handlers and [trace_end] leave alone *)

Lemma keeps_encode {X} (p : state -> X) cs :
  (forall t s, p (set_trace t s) = p s) ->
  (forall t s, p (set_files t s) = p s) ->
  (forall t s, p (set_unhandled_count t s) = p s) ->
  preserves p (encode cs).
Proof.
  intros A B C s. rewrite encode_eq.
  refine (keeps_bind p (emit _) (fun _ => handle_all (sentinel_calls s ++ cs))
            _ _ s).
  - apply keeps_modify. intros ?. apply A.
  - intros _. apply keeps_handle_all; assumption.
Qed.

(** X18: the command line fixes the configuration for good.  Whatever the
    callbacks are and however the run ends, the encoding phase and
    [trace_end] leave the database name, the variant, the [calls] and
    [callchains] flags and the working directory as the module body set
    them; the encoding phase emits nothing but its announcement, and
    [trace_end] does not touch the tally of unhandled events. *)
Theorem configuration_fixed w cs s :
  let o1 := encode cs s in
  let o2 := trace_end w (final o1) in
  config (final o1) = config s
  /\ config (final o2) = config s
  /\ (trace (final o1) = trace s ++ [Eprint Writing_to_intermediate_files])
  /\ unhandled_count (final o2) = unhandled_count (final o1).
Proof.
  intros o1 o2.
  assert (C1 : config (final o1) = config s).
  { apply (keeps_encode config); reflexivity. }
  split; [exact C1|]. split; [|split].
  - rewrite <- C1. apply (keeps_trace_end config); reflexivity.
  - unfold o1. rewrite encode_eq. unfold bind at 1. unfold emit, modify.
    pose proof (keeps_handle_all trace (sentinel_calls s ++ cs)
                  (fun _ _ => eq_refl) (fun _ _ => eq_refl)) as K.
    rewrite K. reflexivity.
  - apply (keeps_trace_end unhandled_count); reflexivity.
Qed.
